(** * The dataset normalizer [clean_data] of the two dashboards

    The repository holds two variants of one routine:
    - [byyy.clean_data]  (src/byyy/app.py, "variant A"): rename, drop
      duplicates, median imputation, drop rows without identifier, parse the
      first date column;
    - [hii.clean_data]   (src/hii/app.py, "variant B"): drop duplicates,
      rename, median imputation, mode imputation of text columns.

    Both work on a pandas data frame.  The frame is embedded column-major, as
    pandas stores it: an index of row labels and a list of labelled, typed
    columns.  The routines are written over a store of frames, so that the
    difference between the in-place updates ([df.columns = ...],
    [df[col] = ...]) and the operations that build a new frame
    ([df.copy()], [df.drop_duplicates()], [df[mask]]) is kept. *)

From stdpp Require Import base decidable option list sorting strings.
From Stdlib Require Import ZArith Ascii.

(** ** Scalars *)

(** The finite values of a float64/int64 column.  Only their equality, their
    order (a total one) and the midpoint that [median] takes of two middle
    values are used, so they are kept abstract; NaN is the missing value [NA]
    below. *)
Class Numeric (num : Type) := {
  num_eqdec :: EqDecision num;
  num_leb : num → num → bool;
  num_mid : num → num → num;
  (* value of a number read as nanoseconds since the epoch, [None] = NaT *)
  num_to_ns : num → option Z;
  (* the order of the finite numbers is total *)
  num_leb_total a b : num_leb a b = true ∨ num_leb b a = true;
  num_leb_trans a b c :
    num_leb a b = true → num_leb b c = true → num_leb a c = true;
}.

(** The string side of [pd.to_datetime(..., errors="coerce")]: the non-missing
    strings of the column (pandas infers a format from them) and the string to
    parse; [None] stands for NaT. *)
Class DatetimeParser := parse_datetime : list string → string → option Z.

Inductive dtype := Int64 | Float64 | Bool | Object | Datetime64.

Global Instance dtype_eqdec : EqDecision dtype.
Proof. solve_decision. Defined.

(** [Dangling] reports a reference outside the store; it is no Python
    exception, and a routine called on a frame of the store never ends in it. *)
Inductive exn := KeyError | ValueError | Dangling.

Inductive result (A : Type) :=
  | Ok (a : A)
  | Raise (e : exn).
Arguments Ok {A} a.
Arguments Raise {A} e.

Global Instance result_ret : MRet result := λ A a, Ok a.
Global Instance result_bind : MBind result := λ A B f m,
  match m with Ok a => f a | Raise e => Raise e end.

(** ** Column names: [c.strip().lower().replace(" ", "_")]

    A label is the UTF-8 encoding of the Python string it stands for; two
    labels are equal as Python strings exactly when their encodings are. *)

Definition code (a : ascii) : nat := nat_of_ascii a.

(** [str.isspace], which [strip] goes by, on the encoding of a character.
    The white space of Python is U+0009..U+000D, U+001C..U+0020, U+0085,
    U+00A0, U+1680, U+2000..U+200A, U+2028, U+2029, U+202F, U+205F and
    U+3000: characters of one, two or three bytes. *)
Definition space1 (n : nat) : bool :=
  (((9 <=? n) && (n <=? 13)) || ((28 <=? n) && (n <=? 32)))%nat.

Definition space2 (n m : nat) : bool :=
  ((n =? 194) && ((m =? 133) || (m =? 160)))%nat.

Definition space3 (n m k : nat) : bool :=
  (((n =? 225) && (m =? 154) && (k =? 128))
   || ((n =? 226) && (m =? 128)
       && (((128 <=? k) && (k <=? 138)) || (k =? 168) || (k =? 169) || (k =? 175)))
   || ((n =? 226) && (m =? 129) && (k =? 159))
   || ((n =? 227) && (m =? 128) && (k =? 128)))%nat.

(** what follows the white-space character that [s] starts with *)
Definition space_head (s : string) : option string :=
  match s with
  | EmptyString => None
  | String a s1 =>
      if space1 (code a) then Some s1
      else match s1 with
           | EmptyString => None
           | String b s2 =>
               if space2 (code a) (code b) then Some s2
               else match s2 with
                    | EmptyString => None
                    | String c s3 =>
                        if space3 (code a) (code b) (code c) then Some s3
                        else None
                    end
           end
  end.

Fixpoint lstrip (s : string) : string :=
  match s with
  | EmptyString => EmptyString
  | String a s1 =>
      if space1 (code a) then lstrip s1
      else match s1 with
           | EmptyString => s
           | String b s2 =>
               if space2 (code a) (code b) then lstrip s2
               else match s2 with
                    | EmptyString => s
                    | String c s3 =>
                        if space3 (code a) (code b) (code c) then lstrip s3
                        else s
                    end
           end
  end.

(** the string is made of white space only *)
Fixpoint all_space (s : string) : bool :=
  match s with
  | EmptyString => true
  | String a s1 =>
      if space1 (code a) then all_space s1
      else match s1 with
           | EmptyString => false
           | String b s2 =>
               if space2 (code a) (code b) then all_space s2
               else match s2 with
                    | EmptyString => false
                    | String c s3 =>
                        space3 (code a) (code b) (code c) && all_space s3
                    end
           end
  end.

(** the longest tail of white space is cut off *)
Fixpoint rstrip (s : string) : string :=
  match s with
  | EmptyString => EmptyString
  | String a s' => if all_space s then EmptyString else String a (rstrip s')
  end.

Definition strip (s : string) : string := rstrip (lstrip s).

Fixpoint map_chars (f : ascii → ascii) (s : string) : string :=
  match s with
  | EmptyString => EmptyString
  | String a s' => String (f a) (map_chars f s')
  end.

(** [s.replace(" ", "_")]: pattern and replacement are one byte long, and
    no other character has the byte of the space in its encoding. *)
Definition replace_space : string → string :=
  map_chars (λ a, if Ascii.eqb a " "%char then "_"%char else a).

(** [str.lower] goes by the case mappings of the Unicode database, which
    are not reproduced here: it is a parameter.  What is used of it are the
    laws of [LowerLaws] below.  On a string of ASCII characters it is
    [lower_ascii].  It maps its own results to themselves.  It treats a
    space and an underscore alike: both are mapped to themselves, and where
    the mapping of a letter looks at its neighbours (the capital sigma,
    final or not) neither counts as a letter nor is skipped.  And it makes
    no white space: a string without white space at its ends is mapped to
    such a string. *)
Class Lower := lower : string → string.

Definition lower_char (a : ascii) : ascii :=
  let n := code a in
  if ((65 <=? n) && (n <=? 90))%nat then ascii_of_nat (n + 32) else a.

Definition lower_ascii : string → string := map_chars lower_char.

Fixpoint all_chars (P : ascii → bool) (s : string) : bool :=
  match s with
  | EmptyString => true
  | String a s' => P a && all_chars P s'
  end.

Definition is_ascii : string → bool := all_chars (λ a, (code a <? 128)%nat).

Class LowerLaws `{!Lower} : Prop := {
  lower_on_ascii s : is_ascii s = true → lower s = lower_ascii s;
  lower_lower s : lower (lower s) = lower s;
  lower_replace_space s : lower (replace_space s) = replace_space (lower s);
  lower_stripped s : strip s = s → strip (lower s) = lower s;
}.

Definition normalize_name `{!Lower} (c : string) : string :=
  replace_space (lower (strip c)).

(** the no-break space U+00A0 and the ideographic space U+3000, encoded *)
Definition nbsp : string :=
  String (ascii_of_nat 194) (String (ascii_of_nat 160) EmptyString).

Definition wide_space : string :=
  String (ascii_of_nat 227)
    (String (ascii_of_nat 128) (String (ascii_of_nat 128) EmptyString)).

(** ** Frames *)

Section frames.
Context {num : Type} `{!Numeric num} `{!DatetimeParser}.

Inductive cell :=
  | NA                (* NaN, None, NaT *)
  | Num (x : num)
  | Flag (b : bool)
  | Str (s : string)
  | Date (ns : Z).

Global Instance cell_eqdec : EqDecision cell.
Proof. solve_decision. Defined.

Record Series := mkSeries { s_dtype : dtype; s_values : list cell }.

Global Instance Series_eqdec : EqDecision Series.
Proof. solve_decision. Defined.

Record DataFrame := mkDF {
  df_index : list nat;                 (* row labels *)
  df_cols : list (string * Series);    (* labelled columns, left to right *)
}.

Global Instance DataFrame_eqdec : EqDecision DataFrame.
Proof. solve_decision. Defined.

Definition columns (df : DataFrame) : list string := (df_cols df).*1.

(** [df.columns = names]: pandas refuses a list of another length. *)
Definition set_columns (df : DataFrame) (names : list string) : result DataFrame :=
  if decide (length names = length (df_cols df))
  then Ok (mkDF (df_index df) (zip names (df_cols df).*2))
  else Raise ValueError.

(** *** Rows *)

Fixpoint rows_of (n : nat) (cs : list (list cell)) : list (list cell) :=
  match cs with
  | [] => replicate n []
  | c :: cs' => zip_with cons c (rows_of n cs')
  end.

Definition rows (df : DataFrame) : list (list cell) :=
  rows_of (length (df_index df)) (s_values <$> (df_cols df).*2).

(** [l[mask]] for a boolean mask. *)
Fixpoint mask_select {A} (mask : list bool) (l : list A) : list A :=
  match mask, l with
  | b :: mask', x :: l' =>
      if b then x :: mask_select mask' l' else mask_select mask' l'
  | _, _ => []
  end.

(** [df[mask]]: a new frame with the selected rows and their labels. *)
Definition df_mask (df : DataFrame) (mask : list bool) : DataFrame :=
  mkDF (mask_select mask (df_index df))
       (prod_map id (λ s, mkSeries (s_dtype s) (mask_select mask (s_values s)))
          <$> df_cols df).

(** [df.duplicated()]: a row is flagged when an equal row comes before it;
    missing compares equal to missing. *)
Fixpoint duplicated_from (seen rs : list (list cell)) : list bool :=
  match rs with
  | [] => []
  | r :: rs' => bool_decide (r ∈ seen) :: duplicated_from (r :: seen) rs'
  end.

Definition duplicated (df : DataFrame) : list bool := duplicated_from [] (rows df).

Definition drop_duplicates (df : DataFrame) : DataFrame :=
  df_mask df (negb <$> duplicated df).

(** *** Columns *)

Definition is_number (t : dtype) : bool :=
  match t with Int64 | Float64 => true | _ => false end.

Definition is_object (t : dtype) : bool :=
  match t with Object => true | _ => false end.

(** [df.select_dtypes(include=...).columns] *)
Definition select_dtypes (df : DataFrame) (incl : dtype → bool) : list string :=
  (filter (λ c, incl (s_dtype c.2) = true) (df_cols df)).*1.

Fixpoint assoc_get (col : string) (cs : list (string * Series)) : option Series :=
  match cs with
  | [] => None
  | (c, s) :: cs' => if decide (c = col) then Some s else assoc_get col cs'
  end.

Fixpoint assoc_set (col : string) (s : Series) (cs : list (string * Series))
  : list (string * Series) :=
  match cs with
  | [] => [(col, s)]
  | (c, s0) :: cs' =>
      if decide (c = col) then (c, s) :: cs' else (c, s0) :: assoc_set col s cs'
  end.

(** [df[col]], for a label that the frame has once.  (For a repeated label
    pandas gives a frame, not a column; the frames considered have distinct
    labels, see [valid].) *)
Definition getitem (df : DataFrame) (col : string) : result Series :=
  match assoc_get col (df_cols df) with
  | Some s => Ok s
  | None => Raise KeyError
  end.

(** [df[col] = s], for a series [s] over the index of [df]: the column is
    replaced in place, or appended when the label is new. *)
Definition setitem (df : DataFrame) (col : string) (s : Series) : DataFrame :=
  mkDF (df_index df) (assoc_set col s (df_cols df)).

Definition is_na (c : cell) : bool :=
  match c with NA => true | _ => false end.

(** [s.notna()] *)
Definition notna (s : Series) : list bool := (λ c, negb (is_na c)) <$> s_values s.

(** [s.fillna(v)]; filling with NaN leaves the series as it is. *)
Definition fill (v c : cell) : cell := if is_na c then v else c.

Definition fillna (s : Series) (v : cell) : Series :=
  mkSeries (s_dtype s) (fill v <$> s_values s).

(** *** Median *)

Definition nums (vs : list cell) : list num :=
  omap (λ c, match c with Num x => Some x | _ => None end) vs.

Definition num_le (a b : num) : Prop := num_leb a b = true.

Global Instance num_le_dec : RelDecision num_le.
Proof. intros a b. unfold num_le. apply _. Defined.

(** [s.median()]: NaN is skipped; the middle value of the sorted rest, or
    the midpoint of the two middle values; NaN ([NA]) when nothing is left. *)
Definition median (s : Series) : cell :=
  let xs := merge_sort num_le (nums (s_values s)) in
  let n := length xs in
  if decide (n = 0) then NA
  else if Nat.odd n then from_option Num NA (xs !! (n / 2))
  else match xs !! (n / 2 - 1), xs !! (n / 2) with
       | Some a, Some b => Num (num_mid a b)
       | _, _ => NA
       end.

(** *** Mode *)

(** The order in which [mode()] sorts the values of a column: the order of
    the numbers, byte-wise on strings (the order of the code points),
    [False < True] on booleans, by time on dates.  A column holds values of
    one kind; the order is extended to a total preorder on all cells, by
    kind first. *)
Definition cell_rank (c : cell) : nat :=
  match c with NA => 0 | Flag _ => 1 | Num _ => 2 | Str _ => 3 | Date _ => 4 end.

Definition cell_leb (a b : cell) : bool :=
  match a, b with
  | Num x, Num y => num_leb x y
  | Flag x, Flag y => implb x y
  | Str x, Str y => String.leb x y
  | Date x, Date y => (x <=? y)%Z
  | _, _ => (cell_rank a <=? cell_rank b)%nat
  end.

Definition cell_le (a b : cell) : Prop := cell_leb a b = true.

Global Instance cell_le_dec : RelDecision cell_le.
Proof. intros a b. unfold cell_le. apply _. Defined.

Definition non_missing (vs : list cell) : list cell :=
  filter (λ c, is_na c = false) vs.

Definition count (v : cell) (vs : list cell) : nat :=
  length (filter (λ c, c = v) vs).

Definition max_count (vs : list cell) : nat :=
  max_list ((λ v, count v vs) <$> vs).

(** [s.mode()]: the most frequent non-missing values, sorted. *)
Definition mode (s : Series) : list cell :=
  let vs := non_missing (s_values s) in
  merge_sort cell_le
    (filter (λ v, count v vs = max_count vs) (remove_dups vs)).

(** [s[0]] on the result of [mode()], whose labels are 0, 1, ... *)
Definition first_label (vs : list cell) : result cell :=
  match vs with
  | [] => Raise KeyError
  | v :: _ => Ok v
  end.

(** *** Dates *)

Definition strings_of (vs : list cell) : list string :=
  omap (λ c, match c with Str s => Some s | _ => None end) vs.

Definition coerce_datetime (ctx : list string) (c : cell) : cell :=
  match c with
  | NA => NA
  | Num x => from_option Date NA (num_to_ns x)
  | Flag _ => NA
  | Str s => from_option Date NA (parse_datetime ctx s)
  | Date ns => Date ns
  end.

(** [pd.to_datetime(s, errors="coerce")]: a datetime column is returned as
    it is; otherwise every entry is converted, and what cannot be converted
    becomes NaT. *)
Definition to_datetime (s : Series) : Series :=
  if decide (s_dtype s = Datetime64) then s
  else mkSeries Datetime64
         (coerce_datetime (strings_of (s_values s)) <$> s_values s).

End frames.

Arguments cell : clear implicits.
Arguments Series : clear implicits.
Arguments DataFrame : clear implicits.

(** ** The store of frames

    A Python variable holds a reference to a frame.  [df.copy()],
    [df.drop_duplicates()] and [df[mask]] build a new frame; [df.columns = ...]
    and [df[col] = ...] update the frame the variable refers to. *)

Section store.
Context {num : Type} `{!Numeric num} `{!DatetimeParser} `{!Lower}.

Definition loc := nat.
Definition heap := list (DataFrame num).

(** The store is kept when an exception is raised. *)
Definition M (A : Type) : Type := heap → result A * heap.

Global Instance M_ret : MRet M := λ A a h, (Ok a, h).
Global Instance M_bind : MBind M := λ A B f m h,
  match m h with
  | (Ok a, h') => f a h'
  | (Raise e, h') => (Raise e, h')
  end.

Definition lift {A} (r : result A) : M A := λ h, (r, h).

Definition read (l : loc) : M (DataFrame num) := λ h,
  match h !! l with Some d => (Ok d, h) | None => (Raise Dangling, h) end.

Definition write (l : loc) (d : DataFrame num) : M unit := λ h,
  if decide (l < length h) then (Ok (), <[l := d]> h) else (Raise Dangling, h).

Definition alloc (d : DataFrame num) : M loc := λ h, (Ok (length h), h ++ [d]).

Definition df_copy (df : loc) : M loc := d ← read df; alloc d.

Definition df_columns (df : loc) : M (list string) := d ← read df; mret (columns d).

Definition df_set_columns (df : loc) (names : list string) : M unit :=
  d ← read df; d' ← lift (set_columns d names); write df d'.

Definition df_drop_duplicates (df : loc) : M loc :=
  d ← read df; alloc (drop_duplicates d).

Definition df_select_dtypes (df : loc) (incl : dtype → bool) : M (list string) :=
  d ← read df; mret (select_dtypes d incl).

Definition df_getitem (df : loc) (col : string) : M (Series num) :=
  d ← read df; lift (getitem d col).

Definition df_setitem (df : loc) (col : string) (s : Series num) : M unit :=
  d ← read df; write df (setitem d col s).

Definition df_getitem_mask (df : loc) (mask : list bool) : M loc :=
  d ← read df; alloc (df_mask d mask).

(** [for x in xs: body] *)
Fixpoint for_ {A} (xs : list A) (body : A → M unit) : M unit :=
  match xs with
  | [] => mret ()
  | x :: xs' => body x;; for_ xs' body
  end.

(** A [for] loop whose body rebinds a variable. *)
Fixpoint for_var {A V} (xs : list A) (v : V) (body : V → A → M V) : M V :=
  match xs with
  | [] => mret v
  | x :: xs' => v' ← body v x; for_var xs' v' body
  end.

(** A [for] loop whose body may [break]: the body answers [true] to leave. *)
Fixpoint for_break {A} (xs : list A) (body : A → M bool) : M unit :=
  match xs with
  | [] => mret ()
  | x :: xs' => stop ← body x; if (stop : bool) then mret () else for_break xs' body
  end.

(** Calling a routine on a frame: the frame is the only object of the store,
    and the frame the routine returns is read back. *)
Definition call (f : loc → M loc) (d : DataFrame num) : result (DataFrame num) :=
  match f 0 [d] with
  | (Ok l, h) => match h !! l with Some d' => Ok d' | None => Raise Dangling end
  | (Raise e, _) => Raise e
  end.
End store.

(** ** src/byyy/app.py *)

Module byyy.
Section clean.
Context {num : Type} `{!Numeric num} `{!DatetimeParser} `{!Lower}.

Definition clean_data (df : loc) : M loc :=
  df ← df_copy df;
  (* Standard column name normalization *)
  cols ← df_columns df;
  df_set_columns df (normalize_name <$> cols);;
  (* Drop duplicates *)
  df ← df_drop_duplicates df;
  (* Basic missing handling *)
  numeric_cols ← df_select_dtypes df is_number;
  for_ numeric_cols (λ col,
    s ← df_getitem df col;
    s' ← df_getitem df col;
    df_setitem df col (fillna s (median s')));;
  (* Drop rows where critical identifiers are missing (user/movie) *)
  df ← for_var ["user_id"; "movie_id"] df (λ df key_col,
    cols ← df_columns df;
    if decide (key_col ∈ cols)
    then s ← df_getitem df key_col; df_getitem_mask df (notna s)
    else mret df);
  (* Try to parse timestamp column if present *)
  for_break ["timestamp"; "date"; "watch_date"] (λ tcol,
    cols ← df_columns df;
    if decide (tcol ∈ cols)
    then s ← df_getitem df tcol; df_setitem df tcol (to_datetime s);; mret true
    else mret false);;
  mret df.

Definition normalize : DataFrame num → result (DataFrame num) := call clean_data.
End clean.
End byyy.

(** ** src/hii/app.py *)

Module hii.
Section clean.
Context {num : Type} `{!Numeric num} `{!DatetimeParser} `{!Lower}.

Definition clean_data (df : loc) : M loc :=
  df ← df_copy df;
  (* Drop duplicate rows *)
  df ← df_drop_duplicates df;
  (* Standardize column names *)
  cols ← df_columns df;
  df_set_columns df (normalize_name <$> cols);;
  (* Handle missing values *)
  numeric_cols ← df_select_dtypes df is_number;
  for_ numeric_cols (λ col,
    s ← df_getitem df col;
    s' ← df_getitem df col;
    df_setitem df col (fillna s (median s')));;
  object_cols ← df_select_dtypes df is_object;
  for_ object_cols (λ col,
    s ← df_getitem df col;
    s' ← df_getitem df col;
    m ← lift (first_label (mode s'));
    df_setitem df col (fillna s m));;
  mret df.

Definition normalize : DataFrame num → result (DataFrame num) := call clean_data.
End clean.
End hii.

(** ** The steps as functions on frames

    What each block of the routines does to the frame it works on.  The
    routines are shown below to compute the composition of these steps. *)

Section steps.
Context {num : Type} `{!Numeric num} `{!DatetimeParser} `{!Lower}.

Definition map_cols (f : Series num → Series num) (d : DataFrame num)
  : DataFrame num :=
  mkDF (df_index d) (prod_map id f <$> df_cols d).

Fixpoint mapM_cols (f : Series num → result (Series num))
    (cs : list (string * Series num)) : result (list (string * Series num)) :=
  match cs with
  | [] => Ok []
  | (c, s) :: cs' => s' ← f s; cs'' ← mapM_cols f cs'; mret ((c, s') :: cs'')
  end.

Definition rename (d : DataFrame num) : DataFrame num :=
  mkDF (df_index d) (prod_map normalize_name id <$> df_cols d).

(** rename and drop duplicates: the frame the imputation starts from *)
Definition prepared (d : DataFrame num) : DataFrame num :=
  drop_duplicates (rename d).

(** [df[col] = g(df[col])] *)
Definition update (g : Series num → result (Series num))
    (d : DataFrame num) (col : string) : result (DataFrame num) :=
  s ← getitem d col; s' ← g s; mret (setitem d col s').

Fixpoint foldM {A B} (f : B → A → result B) (b : B) (xs : list A) : result B :=
  match xs with
  | [] => Ok b
  | x :: xs' => b' ← f b x; foldM f b' xs'
  end.

(** the two imputation loops, label by label *)
Definition fill_median (s : Series num) : result (Series num) :=
  Ok (fillna s (median s)).

Definition fill_mode (s : Series num) : result (Series num) :=
  m ← first_label (mode s); mret (fillna s m).

Definition median_loop (d : DataFrame num) : result (DataFrame num) :=
  foldM (update fill_median) d (select_dtypes d is_number).

Definition mode_loop (d : DataFrame num) : result (DataFrame num) :=
  foldM (update fill_mode) d (select_dtypes d is_object).

(** the same loops, column by column *)
Definition impute_median (s : Series num) : Series num :=
  if is_number (s_dtype s) then fillna s (median s) else s.

Definition impute_numeric : DataFrame num → DataFrame num :=
  map_cols impute_median.

Definition impute_mode (s : Series num) : result (Series num) :=
  if is_object (s_dtype s) then fill_mode s else Ok s.

Definition impute_text (d : DataFrame num) : result (DataFrame num) :=
  cs ← mapM_cols impute_mode (df_cols d); mret (mkDF (df_index d) cs).

Definition drop_missing (key_col : string) (d : DataFrame num) : DataFrame num :=
  match assoc_get key_col (df_cols d) with
  | Some s => df_mask d (notna s)
  | None => d
  end.

Definition drop_identifiers (d : DataFrame num) : DataFrame num :=
  drop_missing "movie_id" (drop_missing "user_id" d).

(** the column the date step converts: the first candidate that is a label *)
Definition date_column (d : DataFrame num) : option string :=
  head (filter (λ t, t ∈ columns d) ["timestamp"; "date"; "watch_date"]).

Definition parse_dates (d : DataFrame num) : DataFrame num :=
  match date_column d with
  | Some t =>
      match assoc_get t (df_cols d) with
      | Some s => setitem d t (to_datetime s)
      | None => d
      end
  | None => d
  end.

(** The claim's reading of the mode: among the most frequent values, the one
    met first in row order.  [mode] sorts instead. *)
Definition first_seen_mode (vs : list (cell num)) : option (cell num) :=
  let nm := non_missing vs in
  head (filter (λ v, count v nm = max_count nm) nm).

(** the rows that [drop_duplicates] keeps *)
Definition first_occurrences (rs : list (list (cell num))) : list (list (cell num)) :=
  mask_select (negb <$> duplicated_from [] rs) rs.

(** *** Frames as [read_csv] hands them over *)

Definition cell_fits (t : dtype) (c : cell num) : bool :=
  match t, c with
  | Int64, Num _ => true
  | Float64, (Num _ | NA) => true
  | Bool, Flag _ => true
  | Object, (Str _ | Flag _ | NA) => true
  | Datetime64, (Date _ | NA) => true
  | _, _ => false
  end.

Definition is_flag (c : cell num) : bool := match c with Flag _ => true | _ => false end.
Definition is_str (c : cell num) : bool := match c with Str _ => true | _ => false end.

(** an object column holds strings, or booleans, next to missing entries *)
Definition one_kind (vs : list (cell num)) : bool :=
  forallb (λ c, negb (is_flag c)) vs || forallb (λ c, negb (is_str c)) vs.

Definition column_ok (n : nat) (s : Series num) : bool :=
  bool_decide (length (s_values s) = n)
  && forallb (cell_fits (s_dtype s)) (s_values s)
  && one_kind (s_values s).

(** At least one column; labels that stay distinct once normalized (what
    pandas does with a repeated label is outside this model); distinct row
    labels; every column as long as the index and holding values of its
    dtype. *)
Definition valid (d : DataFrame num) : bool :=
  bool_decide (df_cols d ≠ [])
  && bool_decide (NoDup (normalize_name <$> columns d))
  && bool_decide (NoDup (df_index d))
  && forallb (column_ok (length (df_index d))) (df_cols d).*2.

Definition no_missing (d : DataFrame num) : bool :=
  forallb (λ s, forallb (λ c, negb (is_na c)) (s_values s)) (df_cols d).*2.
End steps.

(** ** The code around the cleaner

    [compute_kpis] and the sidebar filters of src/byyy/app.py, and the metric
    cards of src/hii/app.py.  They read the cleaned frame and never update
    it, so they are written on frames. *)

(** the exceptions met there: those of the cleaner, and TypeError *)
Inductive error := Cleaning (e : exn) | TypeError.

Inductive answer (A : Type) :=
  | Done (a : A)
  | Fail (e : error).
Arguments Done {A} a.
Arguments Fail {A} e.

Global Instance answer_ret : MRet answer := λ A a, Done a.
Global Instance answer_bind : MBind answer := λ A B f m,
  match m with Done a => f a | Fail e => Fail e end.

Definition of_result {A} (r : result A) : answer A :=
  match r with Ok a => Done a | Raise e => Fail (Cleaning e) end.

(** The reductions of pandas and the rounding of Python, kept abstract with
    the arithmetic they need; they may raise.  [of_bool] is the number a
    boolean stands for in a comparison. *)
Class Reductions (num : Type) := {
  of_bool : bool → num;
  series_mean : Series num → answer (cell num);
  series_sum : Series num → answer (cell num);
  py_round : nat → cell num → answer (cell num);
}.

Section pages.
Context {num : Type} `{!Numeric num} `{!DatetimeParser} `{!Lower} `{!Reductions num}.

(** [s.unique()]: the values in the order in which they are first met *)
Fixpoint unique_from (seen l : list (cell num)) : list (cell num) :=
  match l with
  | [] => []
  | x :: l' =>
      if decide (x ∈ seen) then unique_from seen l'
      else x :: unique_from (x :: seen) l'
  end.

Definition unique (l : list (cell num)) : list (cell num) := unique_from [] l.

(** [s.nunique()]: the number of distinct non-missing values *)
Definition nunique (s : Series num) : nat :=
  length (unique (non_missing (s_values s))).

(** *** src/byyy/app.py, [compute_kpis]; [None] and [NA] stand for [np.nan] *)
Definition compute_kpis (df : DataFrame num)
  : answer (option nat * option nat * cell num * cell num) :=
  total_users ←
    (if decide ("user_id" ∈ columns df)
     then s ← of_result (getitem df "user_id"); mret (Some (nunique s))
     else mret None);
  total_titles ←
    (if decide ("movie_id" ∈ columns df)
     then s ← of_result (getitem df "movie_id"); mret (Some (nunique s))
     else mret None);
  avg_rating ←
    (if decide ("rating" ∈ columns df)
     then s ← of_result (getitem df "rating"); series_mean s
     else mret NA);
  total_watch_minutes ←
    (if decide ("watch_duration_min" ∈ columns df)
     then s ← of_result (getitem df "watch_duration_min"); series_sum s
     else mret NA);
  mret (total_users, total_titles, avg_rating, total_watch_minutes).

(** *** The sidebar filters of src/byyy/app.py *)

Definition to_number (c : cell num) : option num :=
  match c with
  | Num x => Some x
  | Flag b => Some (of_bool b)
  | _ => None
  end.

(** [a < b] in Python: strings with strings, numbers and booleans with each
    other, dates with dates; anything else is a TypeError ([None]).  A
    missing entry is a NaN (a NaT next to a date): it compares false.  The
    lists sorted below come out of [dropna()] and hold none. *)
Definition py_lt (a b : cell num) : option bool :=
  match a, b with
  | Str x, Str y => Some (String.ltb x y)
  | Date x, Date y => Some (x <? y)%Z
  | NA, (NA | Num _ | Flag _ | Date _) => Some false
  | (Num _ | Flag _ | Date _), NA => Some false
  | (Num _ | Flag _), (Num _ | Flag _) =>
      match to_number a, to_number b with
      | Some x, Some y => Some (negb (num_leb y x))
      | _, _ => None
      end
  | _, _ => None
  end.

Fixpoint insert_sorted (x : cell num) (l : list (cell num)) : answer (list (cell num)) :=
  match l with
  | [] => Done [x]
  | y :: l' =>
      match py_lt x y with
      | None => Fail TypeError
      | Some true => Done (x :: y :: l')
      | Some false => l'' ← insert_sorted x l'; mret (y :: l'')
      end
  end.

(** [sorted(l)]: a stable sort by [<] *)
Fixpoint sorted_into (acc l : list (cell num)) : answer (list (cell num)) :=
  match l with
  | [] => Done acc
  | x :: l' => acc' ← insert_sorted x acc; sorted_into acc' l'
  end.

Definition py_sorted (l : list (cell num)) : answer (list (cell num)) :=
  sorted_into [] l.

(** [a == b] in Python; a missing entry equals nothing *)
Definition py_eq (a b : cell num) : bool :=
  match a, b with
  | Str x, Str y => bool_decide (x = y)
  | Date x, Date y => bool_decide (x = y)
  | (Num _ | Flag _), (Num _ | Flag _) =>
      bool_decide (to_number a = to_number b)
  | _, _ => false
  end.

(** [["All"] + sorted(df[col].dropna().unique().tolist())] *)
Definition filter_options (s : Series num) : answer (list (cell num)) :=
  l ← py_sorted (unique (non_missing (s_values s)));
  mret (Str "All" :: l).

(** One filter: the options are offered when the column is there, [pick] is
    the entry the user selects in the box, and the frame is narrowed unless
    the selection is "All". *)
Definition sidebar_filter (col : string) (pick : list (cell num) → cell num)
    (df : DataFrame num) : answer (DataFrame num) :=
  if decide (col ∈ columns df)
  then
    s ← of_result (getitem df col);
    options ← filter_options s;
    let choice := pick options in
    if negb (py_eq choice (Str "All"))
    then s' ← of_result (getitem df col);
         mret (df_mask df ((λ c, py_eq c choice) <$> s_values s'))
    else mret df
  else mret df.

Definition sidebar_filters (pick_country pick_genre : list (cell num) → cell num)
    (df : DataFrame num) : answer (DataFrame num) :=
  df ← sidebar_filter "country" pick_country df;
  sidebar_filter "genre_primary" pick_genre df.

(** *** The metric cards of src/hii/app.py *)
Definition dashboard_metrics (df : DataFrame num)
  : answer (nat * cell num * cell num * cell num) :=
  let total_titles := length (df_index df) in
  s ← of_result (getitem df "rating");
  m ← series_mean s;
  avg_rating ← py_round 2 m;
  s ← of_result (getitem df "duration");
  m ← series_mean s;
  avg_duration ← py_round 1 m;
  s ← of_result (getitem df "genre");
  genre ← of_result (first_label (mode s));
  mret (total_titles, avg_rating, avg_duration, genre).

(** the upload, the cleaning and the cards of src/hii/app.py *)
Definition hii_page (d : DataFrame num)
  : answer (nat * cell num * cell num * cell num) :=
  cleaned ← of_result (hii.normalize d);
  dashboard_metrics cleaned.

Definition text_cell (c : cell num) : Prop := ∃ t, c = Str t.

(** characters of a normalized name: no space; no capital ASCII letter *)
Definition not_space (a : ascii) : bool := negb (code a =? 32)%nat.

Definition not_capital (a : ascii) : bool :=
  negb ((65 <=? code a) && (code a <=? 90))%nat.

End pages.

(** ** Integers as sample numbers

    Integers below 2^53 are float64 values; the midpoint is exact on them when
    the sum is even, and it is only taken of such pairs in the samples. *)

Global Instance Z_numeric : Numeric Z.
Proof.
  refine {| num_leb := Z.leb;
            num_mid a b := ((a + b) / 2)%Z;
            num_to_ns x := Some x |}.
  - intros a b. rewrite !Z.leb_le. lia.
  - intros a b c. rewrite !Z.leb_le. lia.
Defined.

(** The labels of the samples are ASCII strings. *)
Global Instance sample_lower : Lower := lower_ascii.

(** A parser that knows one date, for the samples. *)
Global Instance sample_parser : DatetimeParser := λ _ s,
  if decide (s = "2021-03-04") then Some 1614816000000000000%Z else None.

(** Reductions for the samples: exact when the mean is an integer. *)
Global Instance Z_reductions : Reductions Z := {|
  of_bool b := if b then 1%Z else 0%Z;
  series_mean s :=
    match nums (s_values s) with
    | [] => Done NA
    | xs => Done (Num (foldr Z.add 0%Z xs / Z.of_nat (length xs))%Z)
    end;
  series_sum s := Done (Num (foldr Z.add 0%Z (nums (s_values s))));
  py_round _ c := Done c;
|}.

(** ** Sample frames *)

Definition int64 (xs : list Z) : Series Z := mkSeries Int64 (Num <$> xs).
Definition float64 (vs : list (cell Z)) : Series Z := mkSeries Float64 vs.
Definition object (vs : list (cell Z)) : Series Z := mkSeries Object vs.

(** the viewing records of the end-to-end scenario: five rows, rows 1 and 2
    equal, no rating in row 3 *)
Definition viewing : DataFrame Z :=
  mkDF [0; 1; 2; 3; 4]
    [("User ID", int64 [1; 2; 2; 3; 4]%Z);
     (" Movie ID ", int64 [10; 20; 20; 30; 40]%Z);
     ("Rating", float64 [Num 5; Num 3; Num 3; NA; Num 1]%Z);
     ("Watch Duration Min", int64 [90; 45; 45; 120; 60]%Z);
     ("Genre Primary",
      object [Str "Drama"; Str "Comedy"; Str "Comedy"; Str "Drama"; Str "Action"])].

(** [viewing] once renamed and without the repeated row *)
Definition viewing_prepared : DataFrame Z :=
  mkDF [0; 1; 3; 4]
    [("user_id", int64 [1; 2; 3; 4]%Z);
     ("movie_id", int64 [10; 20; 30; 40]%Z);
     ("rating", float64 [Num 5; Num 3; NA; Num 1]%Z);
     ("watch_duration_min", int64 [90; 45; 120; 60]%Z);
     ("genre_primary",
      object [Str "Drama"; Str "Comedy"; Str "Drama"; Str "Action"])].

Definition viewing_cleaned : DataFrame Z :=
  mkDF [0; 1; 3; 4]
    [("user_id", int64 [1; 2; 3; 4]%Z);
     ("movie_id", int64 [10; 20; 30; 40]%Z);
     ("rating", float64 [Num 5; Num 3; Num 3; Num 1]%Z);
     ("watch_duration_min", int64 [90; 45; 120; 60]%Z);
     ("genre_primary",
      object [Str "Drama"; Str "Comedy"; Str "Drama"; Str "Action"])].

(** numeric columns only *)
Definition ratings : DataFrame Z :=
  mkDF [0; 1; 2; 3]
    [("Rating", float64 [Num 1; Num 3; NA; Num 5]%Z);
     ("Minutes", int64 [10; 20; 30; 40]%Z)].

Definition ratings_cleaned : DataFrame Z :=
  mkDF [0; 1; 2; 3]
    [("rating", float64 [Num 1; Num 3; Num 3; Num 5]%Z);
     ("minutes", int64 [10; 20; 30; 40]%Z)].

(** a text column with a missing entry *)
Definition tags : DataFrame Z :=
  mkDF [0; 1; 2; 3]
    [("Tag", object [Str "a"; Str "a"; NA; Str "b"]);
     ("N", int64 [1; 2; 3; 4]%Z)].

Definition tags_cleaned : DataFrame Z :=
  mkDF [0; 1; 2; 3]
    [("tag", object [Str "a"; Str "a"; Str "a"; Str "b"]);
     ("n", int64 [1; 2; 3; 4]%Z)].

(** two date candidates, and a string that is no date *)
Definition stamps : DataFrame Z :=
  mkDF [0; 1]
    [("Date", object [Str "2021-03-04"; Str "2021-03-04"]);
     ("Timestamp", object [Str "2021-03-04"; Str "not-a-date"]);
     ("N", int64 [1; 2]%Z)].

(** a numeric identifier, missing in row 1 *)
Definition numeric_ids : DataFrame Z :=
  mkDF [0; 1; 2]
    [("user_id", float64 [Num 1; NA; Num 3]%Z);
     ("title", object [Str "a"; Str "b"; Str "c"])].

(** a file with a header line and no record: [read_csv] gives object columns *)
Definition header_only : DataFrame Z :=
  mkDF [] [("User ID", object []); ("Genre", object [])].

(** a numeric column with no entry at all *)
Definition empty_column : DataFrame Z :=
  mkDF [0; 1]
    [("x", float64 [NA; NA]);
     ("y", int64 [1; 2]%Z)].

(** the median of the column is one of its entries *)
Definition median_repeat : DataFrame Z :=
  mkDF [0; 1; 2; 3] [("x", float64 [Num 3; NA; Num 1; Num 5]%Z)].

(** two values as frequent as each other, the greater one first *)
Definition tie : DataFrame Z :=
  mkDF [0; 1; 2] [("t", object [Str "b"; Str "a"; NA])].

(** a catalogue for the cards of src/hii/app.py: rows 1 and 2 equal, a rating
    and a genre missing in row 3 *)
Definition catalog : DataFrame Z :=
  mkDF [0; 1; 2; 3; 4]
    [("Title", object [Str "a"; Str "b"; Str "b"; Str "c"; Str "d"]);
     ("Rating", float64 [Num 4; Num 2; Num 2; NA; Num 6]%Z);
     ("Duration", int64 [90; 100; 100; 110; 100]%Z);
     ("Genre", object [Str "Drama"; Str "Comedy"; Str "Comedy"; NA; Str "Drama"])].

(** a cleaned frame for the sidebar filters, one country missing *)
Definition countries : Series Z :=
  object [Str "US"; Str "IN"; Str "US"; NA; Str "IN"].

Definition audience : DataFrame Z :=
  mkDF [0; 1; 2; 3; 4]
    [("user_id", int64 [1; 2; 3; 4; 5]%Z);
     ("country", countries);
     ("genre_primary",
      object [Str "Drama"; Str "Comedy"; Str "Action"; Str "Drama"; Str "Drama"])].

(** [audience] narrowed to the country IN *)
Definition audience_in : DataFrame Z :=
  mkDF [1; 4]
    [("user_id", int64 [2; 5]%Z);
     ("country", object [Str "IN"; Str "IN"]);
     ("genre_primary", object [Str "Comedy"; Str "Drama"])].

(** two users of a select box: one takes the first entry after "All", the
    other leaves "All" *)
Definition second_option (options : list (cell Z)) : cell Z :=
  default (Str "All") (options !! 1).

Definition all_option (options : list (cell Z)) : cell Z := Str "All".


(** ** Notions used in the proofs *)

(** a byte that is in the encoding of no white space: a printable ASCII
    character other than the space *)
Definition safe (n : nat) : bool := ((33 <=? n) && (n <=? 127))%nat.

(** a map on bytes that changes a byte only into such a byte *)
Definition gentle (f : ascii → ascii) : Prop :=
  ∀ a, f a = a ∨ safe (code (f a)) = true.

Definition outcome {A} (r : result A) : result unit :=
  match r with Ok _ => Ok () | Raise e => Raise e end.

Section notions.
Context {num : Type} `{!Numeric num} `{!DatetimeParser} `{!Lower}.
Implicit Types (d : DataFrame num) (s : Series num).

(** every column is as long as the index *)
Definition shape_ok d : Prop :=
  Forall (λ s, length (s_values s) = length (df_index d)) (df_cols d).*2.

(** the rows kept after the rows [seen] *)
Definition kept (seen rs : list (list (cell num))) : list (list (cell num)) :=
  mask_select (negb <$> duplicated_from seen rs) rs.

Definition select_series (mask : list bool) s : Series num :=
  mkSeries (s_dtype s) (mask_select mask (s_values s)).

(** [s'] over the labels [idx'] holds values that [s] holds over [idx], at
    the same labels *)
Definition sub_series (idx' : list nat) s' (idx : list nat) s : Prop :=
  s_dtype s' = s_dtype s
  ∧ (∀ i v, (i, v) ∈ zip idx' (s_values s') → (i, v) ∈ zip idx (s_values s))
  ∧ (∀ v, v ∈ s_values s' → v ∈ s_values s).

Definition full_series s : Prop := Forall (λ c, is_na c = false) (s_values s).

(** no entry of the frame is missing *)
Definition full d : Prop := Forall full_series (df_cols d).*2.

(** a numeric column the median step leaves alone: nothing is missing, or
    nothing is there *)
Definition median_settled s : Prop :=
  is_number (s_dtype s) = true → full_series s ∨ nums (s_values s) = [].

(** any two rows differ in a column other than [skip], in entries that are
    both there *)
Definition apart (skip : option string) d : Prop :=
  ∀ a b, a ∈ df_index d → b ∈ df_index d → a ≠ b →
    ∃ col s c1 c2, assoc_get col (df_cols d) = Some s ∧ skip ≠ Some col
      ∧ (a, c1) ∈ zip (df_index d) (s_values s)
      ∧ (b, c2) ∈ zip (df_index d) (s_values s)
      ∧ c1 ≠ c2 ∧ c1 ≠ NA ∧ c2 ≠ NA.

(** the column [key], when it is there, has no missing entry *)
Definition key_settled (key : string) d : Prop :=
  ∀ s, assoc_get key (df_cols d) = Some s → full_series s.
End notions.

(** membership in a list written out *)
Ltac in_list :=
  repeat first [apply list_elem_of_here | apply list_elem_of_further].

(** arithmetic on the codes of bytes *)
Ltac codes :=
  unfold space1, space2, space3, safe in *;
  repeat rewrite ?andb_true_iff, ?orb_true_iff, ?andb_false_iff,
    ?orb_false_iff, ?Nat.eqb_eq, ?Nat.leb_le, ?Nat.leb_gt, ?Nat.eqb_neq in *;
  lia.

(** a decidable closed proposition, by evaluation *)
Ltac by_decide :=
  match goal with
  | |- ?P => apply (@bool_decide_unpack P _); vm_compute; exact I
  end.

(** * Properties *)

(** ** Column names *)

Lemma string_length_ind (P : string → Prop) :
  (∀ s, (∀ t, String.length t < String.length s → P t) → P s) → ∀ s, P s.
Proof.
  intros Hstep s. remember (String.length s) as n eqn:Hn. revert s Hn.
  induction n as [n IHn] using lt_wf_ind. intros s ->.
  apply Hstep. intros t Ht. by apply (IHn _ Ht).
Qed.

Lemma lstrip_unfold s :
  lstrip s = match space_head s with Some r => lstrip r | None => s end.
Proof.
  destruct s as [|a [|b [|c s]]]; [done|..]; cbn [lstrip space_head].
  - by destruct (space1 (code a)).
  - destruct (space1 (code a)); [done|]. by destruct (space2 (code a) (code b)).
  - destruct (space1 (code a)); [done|].
    destruct (space2 (code a) (code b)); [done|].
    by destruct (space3 (code a) (code b) (code c)).
Qed.

Lemma all_space_unfold a s :
  all_space (String a s)
  = match space_head (String a s) with Some r => all_space r | None => false end.
Proof.
  destruct s as [|b [|c s]]; cbn [all_space space_head].
  - by destruct (space1 (code a)).
  - destruct (space1 (code a)); [done|]. by destruct (space2 (code a) (code b)).
  - destruct (space1 (code a)); [done|].
    destruct (space2 (code a) (code b)); [done|].
    by destruct (space3 (code a) (code b) (code c)).
Qed.

Lemma rstrip_cons a s :
  rstrip (String a s)
  = if all_space (String a s) then EmptyString else String a (rstrip s).
Proof. done. Qed.

Lemma space_head_length s r :
  space_head s = Some r → String.length r < String.length s.
Proof.
  destruct s as [|a [|b [|c s]]]; cbn [space_head]; [done|..].
  - destruct (space1 (code a)); [|done]. intros [= <-]. simpl. lia.
  - destruct (space1 (code a)); [intros [= <-]; simpl; lia|].
    destruct (space2 (code a) (code b)); [|done]. intros [= <-]. simpl. lia.
  - destruct (space1 (code a)); [intros [= <-]; simpl; lia|].
    destruct (space2 (code a) (code b)); [intros [= <-]; simpl; lia|].
    destruct (space3 (code a) (code b) (code c)); [|done].
    intros [= <-]. simpl. lia.
Qed.

Lemma space_head_app s r t :
  space_head s = Some r → space_head (s +:+ t) = Some (r +:+ t).
Proof.
  destruct s as [|a [|b [|c s]]]; [done|..].
  - cbn [space_head]. destruct (space1 (code a)) eqn:E; [|done].
    intros [= <-]. simpl. by rewrite E.
  - cbn [space_head]. destruct (space1 (code a)) eqn:E1.
    { intros [= <-]. simpl. by rewrite E1. }
    destruct (space2 (code a) (code b)) eqn:E2; [|done].
    intros [= <-]. simpl. by rewrite E1, E2.
  - cbn [space_head]. destruct (space1 (code a)) eqn:E1.
    { intros [= <-]. simpl. by rewrite E1. }
    destruct (space2 (code a) (code b)) eqn:E2.
    { intros [= <-]. simpl. by rewrite E1, E2. }
    destruct (space3 (code a) (code b) (code c)) eqn:E3; [|done].
    intros [= <-]. simpl. by rewrite E1, E2, E3.
Qed.

Lemma space_head_lstrip s : space_head (lstrip s) = None.
Proof.
  induction s as [s IH] using string_length_ind.
  rewrite lstrip_unfold. destruct (space_head s) as [r|] eqn:E; [|done].
  by apply IH, space_head_length.
Qed.

Lemma lstrip_fixed s : space_head s = None → lstrip s = s.
Proof. intros Hs. by rewrite lstrip_unfold, Hs. Qed.

Lemma all_space_app s t :
  all_space s = true → all_space t = true → all_space (s +:+ t) = true.
Proof.
  intros Hs Ht. induction s as [s IH] using string_length_ind.
  destruct s as [|a s]; [done|].
  rewrite all_space_unfold in Hs.
  destruct (space_head (String a s)) as [r|] eqn:E; [|done].
  change (String a s +:+ t) with (String a (s +:+ t)).
  rewrite all_space_unfold.
  change (String a (s +:+ t)) with (String a s +:+ t).
  rewrite (space_head_app _ _ t E).
  apply IH; [by apply space_head_length|done].
Qed.

Lemma rstrip_tail s : ∃ t, s = rstrip s +:+ t ∧ all_space t = true.
Proof.
  induction s as [|a s (t & Ht & Hall)]; [by exists EmptyString|].
  rewrite rstrip_cons. destruct (all_space (String a s)) eqn:E.
  - by exists (String a s).
  - exists t. split; [|done].
    change (String a (rstrip s) +:+ t) with (String a (rstrip s +:+ t)).
    by rewrite <- Ht.
Qed.

Lemma rstrip_rstrip s : rstrip (rstrip s) = rstrip s.
Proof.
  induction s as [|a s IH]; [done|].
  rewrite rstrip_cons. destruct (all_space (String a s)) eqn:E; [done|].
  rewrite rstrip_cons, IH.
  destruct (all_space (String a (rstrip s))) eqn:E'; [|done].
  destruct (rstrip_tail s) as (t & Ht & Hall).
  pose proof (all_space_app _ t E' Hall) as Happ.
  change (String a (rstrip s) +:+ t) with (String a (rstrip s +:+ t)) in Happ.
  rewrite <- Ht in Happ. congruence.
Qed.

Lemma space_head_rstrip s : space_head s = None → space_head (rstrip s) = None.
Proof.
  intros Hs. destruct (rstrip_tail s) as (t & Ht & _).
  destruct (space_head (rstrip s)) as [r|] eqn:E; [|done].
  apply (space_head_app _ _ t) in E. rewrite <- Ht in E. congruence.
Qed.

Lemma strip_strip s : strip (strip s) = strip s.
Proof.
  unfold strip. rewrite (lstrip_fixed (rstrip (lstrip s))).
  - apply rstrip_rstrip.
  - apply space_head_rstrip, space_head_lstrip.
Qed.

Lemma strip_fixed s : strip s = s → space_head s = None ∧ rstrip s = s.
Proof.
  intros Hs. assert (space_head s = None) as Hh.
  { rewrite <- Hs. apply space_head_rstrip, space_head_lstrip. }
  split; [done|]. unfold strip in Hs. by rewrite (lstrip_fixed s Hh) in Hs.
Qed.

(** *** Maps on the bytes that leave the white space alone *)

Lemma space1_safe n : space1 n = true → safe n = false.
Proof. destruct (safe n) eqn:E; [|done]. intros Hs. exfalso. codes. Qed.

Lemma space2_safe n m : space2 n m = true → safe n = false ∧ safe m = false.
Proof.
  intros Hs. destruct (safe n) eqn:En; [exfalso; codes|].
  destruct (safe m) eqn:Em; [exfalso; codes|done].
Qed.

Lemma space3_safe n m k :
  space3 n m k = true → safe n = false ∧ safe m = false ∧ safe k = false.
Proof.
  intros Hs. destruct (safe n) eqn:En; [exfalso; codes|].
  destruct (safe m) eqn:Em; [exfalso; codes|].
  destruct (safe k) eqn:Ek; [exfalso; codes|done].
Qed.

Lemma gentle_fixed f a : gentle f → safe (code (f a)) = false → f a = a.
Proof. intros Hf Hs. destruct (Hf a) as [|Hsafe]; [done|congruence]. Qed.

Lemma space_head_map_chars f s r' :
  gentle f → space_head (map_chars f s) = Some r' →
  ∃ r, space_head s = Some r ∧ r' = map_chars f r.
Proof.
  intros Hf. destruct s as [|a s1]; [done|].
  cbn [map_chars space_head].
  destruct (space1 (code (f a))) eqn:E1.
  { intros [= <-]. pose proof (space1_safe _ E1) as Ha.
    rewrite (gentle_fixed f a Hf Ha) in E1. rewrite E1. by exists s1. }
  destruct s1 as [|b s2]; [done|]. cbn [map_chars].
  destruct (space2 (code (f a)) (code (f b))) eqn:E2.
  { intros [= <-]. destruct (space2_safe _ _ E2) as [Ha Hb].
    rewrite (gentle_fixed f a Hf Ha) in E1, E2.
    rewrite (gentle_fixed f b Hf Hb) in E2. rewrite E1, E2. by exists s2. }
  destruct s2 as [|c s3]; [done|]. cbn [map_chars].
  destruct (space3 (code (f a)) (code (f b)) (code (f c))) eqn:E3; [|done].
  intros [= <-]. destruct (space3_safe _ _ _ E3) as (Ha & Hb & Hc).
  rewrite (gentle_fixed f a Hf Ha) in E1, E2, E3.
  rewrite (gentle_fixed f b Hf Hb) in E2, E3.
  rewrite (gentle_fixed f c Hf Hc) in E3. rewrite E1, E2, E3. by exists s3.
Qed.

Lemma all_space_map_chars f s :
  gentle f → all_space (map_chars f s) = true → all_space s = true.
Proof.
  intros Hf. induction s as [s IH] using string_length_ind.
  destruct s as [|a s]; [done|].
  change (map_chars f (String a s)) with (String (f a) (map_chars f s)).
  rewrite !all_space_unfold.
  change (String (f a) (map_chars f s)) with (map_chars f (String a s)).
  destruct (space_head (map_chars f (String a s))) as [r'|] eqn:E; [|done].
  apply (space_head_map_chars f _ _ Hf) in E as (r & Hr & ->).
  rewrite Hr. apply IH. by apply space_head_length.
Qed.

Lemma rstrip_map_chars f s :
  gentle f → rstrip s = s → rstrip (map_chars f s) = map_chars f s.
Proof.
  intros Hf. induction s as [|a s IH]; [done|].
  rewrite rstrip_cons. destruct (all_space (String a s)) eqn:E; [done|].
  intros [= Hs].
  change (map_chars f (String a s)) with (String (f a) (map_chars f s)).
  rewrite rstrip_cons.
  change (String (f a) (map_chars f s)) with (map_chars f (String a s)).
  destruct (all_space (map_chars f (String a s))) eqn:E'.
  - apply (all_space_map_chars f _ Hf) in E'. congruence.
  - simpl. by rewrite IH.
Qed.

Lemma strip_map_chars f s :
  gentle f → strip s = s → strip (map_chars f s) = map_chars f s.
Proof.
  intros Hf [Hh Hr]%strip_fixed. unfold strip. rewrite lstrip_fixed.
  - by apply rstrip_map_chars.
  - destruct (space_head (map_chars f s)) as [r'|] eqn:E; [|done].
    apply (space_head_map_chars f _ _ Hf) in E as (r & Hr' & _). congruence.
Qed.

Lemma map_chars_idem f s :
  (∀ a, f (f a) = f a) → map_chars f (map_chars f s) = map_chars f s.
Proof. intros Hf. induction s; simpl; [done|]. by rewrite Hf, IHs. Qed.

Lemma map_chars_comm f g s :
  (∀ a, f (g a) = g (f a)) →
  map_chars f (map_chars g s) = map_chars g (map_chars f s).
Proof. intros Hfg. induction s; simpl; [done|]. by rewrite Hfg, IHs. Qed.

Lemma gentle_lower_char : gentle lower_char.
Proof. intros a. destruct a as [[] [] [] [] [] [] [] []]; vm_compute; auto. Qed.

Lemma gentle_replace_char :
  gentle (λ a, if Ascii.eqb a " "%char then "_"%char else a).
Proof. intros a. destruct a as [[] [] [] [] [] [] [] []]; vm_compute; auto. Qed.

Lemma lower_char_idem a : lower_char (lower_char a) = lower_char a.
Proof. destruct a as [[] [] [] [] [] [] [] []]; vm_compute; congruence. Qed.

Lemma replace_char_idem a :
  (let r := λ a, if Ascii.eqb a " "%char then "_"%char else a in r (r a) = r a).
Proof. destruct a as [[] [] [] [] [] [] [] []]; vm_compute; congruence. Qed.

Lemma lower_replace_char a :
  lower_char (if Ascii.eqb a " "%char then "_"%char else a)
  = (λ b, if Ascii.eqb b " "%char then "_"%char else b) (lower_char a).
Proof. destruct a as [[] [] [] [] [] [] [] []]; vm_compute; congruence. Qed.

Lemma strip_replace_space s : strip s = s → strip (replace_space s) = replace_space s.
Proof. apply strip_map_chars, gentle_replace_char. Qed.

Lemma replace_space_idem s : replace_space (replace_space s) = replace_space s.
Proof. apply map_chars_idem, replace_char_idem. Qed.

Lemma replace_space_no_space s : all_chars not_space (replace_space s) = true.
Proof.
  unfold replace_space. induction s as [|a s IH]; [done|].
  cbn [map_chars all_chars]. rewrite IH, andb_true_r.
  destruct a as [[] [] [] [] [] [] [] []]; vm_compute; reflexivity.
Qed.

Lemma replace_lower_no_capital s :
  all_chars not_capital (replace_space (lower_ascii s)) = true.
Proof.
  unfold replace_space, lower_ascii. induction s as [|a s IH]; [done|].
  cbn [map_chars all_chars]. rewrite IH, andb_true_r.
  destruct a as [[] [] [] [] [] [] [] []]; vm_compute; reflexivity.
Qed.

Lemma is_ascii_space_head s r :
  is_ascii s = true → space_head s = Some r → is_ascii r = true.
Proof.
  unfold is_ascii.
  destruct s as [|a [|b [|c s]]]; cbn [space_head all_chars]; [done|..].
  - destruct (space1 (code a)); [|done]. by intros _ [= <-].
  - rewrite !andb_true_iff. intros (_ & Hb & _).
    destruct (space1 (code a)); [intros [= <-]; simpl; by rewrite Hb|].
    destruct (space2 (code a) (code b)); [|done]. by intros [= <-].
  - rewrite !andb_true_iff. intros (_ & Hb & Hc & Hs).
    destruct (space1 (code a)).
    { intros [= <-]. cbn [all_chars]. by rewrite Hb, Hc, Hs. }
    destruct (space2 (code a) (code b)).
    { intros [= <-]. cbn [all_chars]. by rewrite Hc, Hs. }
    destruct (space3 (code a) (code b) (code c)); [|done]. by intros [= <-].
Qed.

Lemma is_ascii_lstrip s : is_ascii s = true → is_ascii (lstrip s) = true.
Proof.
  induction s as [s IH] using string_length_ind. intros Hs.
  rewrite lstrip_unfold. destruct (space_head s) as [r|] eqn:E; [|done].
  apply IH; [by apply space_head_length|by eapply is_ascii_space_head].
Qed.

Lemma is_ascii_rstrip s : is_ascii s = true → is_ascii (rstrip s) = true.
Proof.
  unfold is_ascii. induction s as [|a s IH]; [done|].
  rewrite rstrip_cons. destruct (all_space (String a s)); [done|].
  cbn [all_chars]. rewrite !andb_true_iff. intros [Ha Hs]. auto.
Qed.

Lemma is_ascii_strip s : is_ascii s = true → is_ascii (strip s) = true.
Proof. intros Hs. by apply is_ascii_rstrip, is_ascii_lstrip. Qed.

(** the lowering of the ASCII letters alone has the laws of [str.lower] *)
Global Instance sample_lower_laws : LowerLaws.
Proof.
  split; unfold lower, sample_lower, lower_ascii.
  - done.
  - intros s. apply map_chars_idem, lower_char_idem.
  - intros s. apply (map_chars_comm lower_char), lower_replace_char.
  - intros s. apply strip_map_chars, gentle_lower_char.
Qed.

Lemma normalize_name_idem `{!Lower} `{!LowerLaws} c :
  normalize_name (normalize_name c) = normalize_name c.
Proof.
  unfold normalize_name.
  rewrite strip_replace_space by apply lower_stripped, strip_strip.
  by rewrite lower_replace_space, lower_lower, replace_space_idem.
Qed.

(** ** Running the store operations

    The frame a routine works on is always the last one allocated: the store
    is [g ++ [cur]] and the variable [df] holds [length g]. *)

Section run.
Context {num : Type} `{!Numeric num} `{!DatetimeParser} `{!Lower}.
Implicit Types (h g : heap (num:=num)) (d cur : DataFrame num).

Lemma bind_run {A B} (m : M A) (f : A → M B) h :
  (m ≫= f) h
  = match m h with (Ok a, h') => f a h' | (Raise e, h') => (Raise e, h') end.
Proof. done. Qed.

Lemma ret_run {A} (a : A) h : (mret a : M A) h = (Ok a, h).
Proof. done. Qed.

Lemma lookup_top g cur : (g ++ [cur]) !! length g = Some cur.
Proof. by apply list_lookup_middle. Qed.

Lemma insert_top g cur d : <[length g := d]> (g ++ [cur]) = g ++ [d].
Proof. rewrite insert_app_r_alt by lia. by rewrite Nat.sub_diag. Qed.

Lemma read_top g cur : read (length g) (g ++ [cur]) = (Ok cur, g ++ [cur]).
Proof. unfold read. by rewrite lookup_top. Qed.

Lemma write_top g cur d : write (length g) d (g ++ [cur]) = (Ok (), g ++ [d]).
Proof.
  unfold write. rewrite insert_top.
  case_decide as Hl; [done|]. rewrite length_app in Hl. simpl in Hl. lia.
Qed.

Lemma df_copy_run h l d :
  h !! l = Some d → df_copy l h = (Ok (length h), h ++ [d]).
Proof. intros Hl. unfold df_copy. rewrite bind_run. unfold read. by rewrite Hl. Qed.

Lemma df_copy_dangling h l :
  h !! l = None → df_copy l h = (Raise Dangling, h).
Proof. intros Hl. unfold df_copy. rewrite bind_run. unfold read. by rewrite Hl. Qed.

Lemma df_columns_top g cur :
  df_columns (length g) (g ++ [cur]) = (Ok (columns cur), g ++ [cur]).
Proof. unfold df_columns. by rewrite bind_run, read_top. Qed.

Lemma df_set_columns_top g cur names d :
  set_columns cur names = Ok d →
  df_set_columns (length g) names (g ++ [cur]) = (Ok (), g ++ [d]).
Proof.
  intros Hs. unfold df_set_columns. rewrite bind_run, read_top, bind_run.
  unfold lift. rewrite Hs. apply write_top.
Qed.

Lemma df_drop_duplicates_top g cur :
  df_drop_duplicates (length g) (g ++ [cur])
  = (Ok (length (g ++ [cur])), (g ++ [cur]) ++ [drop_duplicates cur]).
Proof. unfold df_drop_duplicates. by rewrite bind_run, read_top. Qed.

Lemma df_select_dtypes_top g cur incl :
  df_select_dtypes (length g) incl (g ++ [cur])
  = (Ok (select_dtypes cur incl), g ++ [cur]).
Proof. unfold df_select_dtypes. by rewrite bind_run, read_top. Qed.

Lemma df_getitem_top g cur col :
  df_getitem (length g) col (g ++ [cur]) = (getitem cur col, g ++ [cur]).
Proof. unfold df_getitem. by rewrite bind_run, read_top. Qed.

Lemma df_setitem_top g cur col s :
  df_setitem (length g) col s (g ++ [cur]) = (Ok (), g ++ [setitem cur col s]).
Proof. unfold df_setitem. rewrite bind_run, read_top. apply write_top. Qed.

Lemma df_getitem_mask_top g cur mask :
  df_getitem_mask (length g) mask (g ++ [cur])
  = (Ok (length (g ++ [cur])), (g ++ [cur]) ++ [df_mask cur mask]).
Proof. unfold df_getitem_mask. by rewrite bind_run, read_top. Qed.

(** A loop whose body updates the current frame by [f] runs [foldM f]. *)
Lemma for_top {A} (body : A → M unit) (f : DataFrame num → A → result (DataFrame num))
    g xs cur :
  (∀ cur x, ∃ c, body x (g ++ [cur]) = (outcome (f cur x), g ++ [c])
                 ∧ ∀ c', f cur x = Ok c' → c = c') →
  ∃ c, for_ xs body (g ++ [cur]) = (outcome (foldM f cur xs), g ++ [c])
       ∧ ∀ c', foldM f cur xs = Ok c' → c = c'.
Proof.
  intros Hbody. revert cur. induction xs as [|x xs IH]; intros cur; simpl.
  { exists cur. split; [done|]. by intros c' [= <-]. }
  rewrite bind_run. destruct (Hbody cur x) as (c & -> & Hc).
  destruct (f cur x) as [c1|e] eqn:Hf; simpl.
  - rewrite (Hc c1 eq_refl). apply IH.
  - exists c. split; [done|]. intros c'. unfold mbind, result_bind. done.
Qed.

Lemma median_body_top g cur col :
  ∃ c, (s ← df_getitem (length g) col;
        s' ← df_getitem (length g) col;
        df_setitem (length g) col (fillna s (median s'))) (g ++ [cur])
       = (outcome (update fill_median cur col), g ++ [c])
       ∧ ∀ c', update fill_median cur col = Ok c' → c = c'.
Proof.
  unfold update, fill_median. rewrite bind_run, df_getitem_top.
  destruct (getitem cur col) as [s|e] eqn:E; simpl.
  - rewrite bind_run, df_getitem_top, E, df_setitem_top.
    eexists. split; [done|]. by intros c' [= <-].
  - exists cur. split; [done|]. done.
Qed.

Lemma mode_body_top g cur col :
  ∃ c, (s ← df_getitem (length g) col;
        s' ← df_getitem (length g) col;
        m ← lift (first_label (mode s'));
        df_setitem (length g) col (fillna s m)) (g ++ [cur])
       = (outcome (update fill_mode cur col), g ++ [c])
       ∧ ∀ c', update fill_mode cur col = Ok c' → c = c'.
Proof.
  unfold update, fill_mode. rewrite bind_run, df_getitem_top.
  destruct (getitem cur col) as [s|e] eqn:E; simpl.
  - rewrite bind_run, df_getitem_top, E, bind_run. unfold lift.
    destruct (first_label (mode s)) as [m|e]; simpl.
    + rewrite df_setitem_top. eexists. split; [done|]. by intros c' [= <-].
    + exists cur. split; [done|]. done.
  - exists cur. split; [done|]. done.
Qed.

Lemma assoc_get_is_Some col (cs : list (string * Series num)) :
  col ∈ cs.*1 → is_Some (assoc_get col cs).
Proof.
  induction cs as [|[c s] cs IH]; simpl.
  - by intros ?%elem_of_nil.
  - intros [->|Hin]%elem_of_cons; case_decide; eauto; congruence.
Qed.

Lemma assoc_get_None col (cs : list (string * Series num)) :
  col ∉ cs.*1 → assoc_get col cs = None.
Proof.
  induction cs as [|[c s] cs IH]; simpl; [done|].
  intros Hn. case_decide as Hc.
  - subst. destruct Hn. apply elem_of_cons. by left.
  - apply IH. intros Hin. apply Hn, elem_of_cons. by right.
Qed.

Lemma assoc_get_elem_of col s (cs : list (string * Series num)) :
  assoc_get col cs = Some s → (col, s) ∈ cs.
Proof.
  induction cs as [|[c s0] cs IH]; simpl; [done|].
  case_decide as Hc.
  - intros [= ->]. subst. apply elem_of_cons. by left.
  - intros Hg. apply elem_of_cons. right. by apply IH.
Qed.

Lemma drop_missing_top g cur key_col (df : loc) :
  df = length g →
  ∃ t, (cols ← df_columns df;
        if decide (key_col ∈ cols)
        then s ← df_getitem df key_col; df_getitem_mask df (notna s)
        else mret df) (g ++ [cur])
       = (Ok (length (g ++ t)), (g ++ t) ++ [drop_missing key_col cur]).
Proof.
  intros ->. rewrite bind_run, df_columns_top. unfold drop_missing.
  case_decide as Hin.
  - destruct (assoc_get_is_Some _ _ Hin) as [s Hs].
    rewrite bind_run, df_getitem_top. unfold getitem. rewrite Hs.
    rewrite df_getitem_mask_top. by exists [cur].
  - rewrite assoc_get_None by done. exists []. by rewrite app_nil_r.
Qed.

Lemma parse_dates_top g cur :
  for_break ["timestamp"; "date"; "watch_date"] (λ tcol,
    cols ← df_columns (length g);
    if decide (tcol ∈ cols)
    then s ← df_getitem (length g) tcol;
         df_setitem (length g) tcol (to_datetime s);; mret true
    else mret false) (g ++ [cur])
  = (Ok (), g ++ [parse_dates cur]).
Proof.
  unfold parse_dates, date_column. simpl.
  repeat (rewrite !bind_run, df_columns_top; cbv beta iota;
          rewrite ?filter_cons, ?filter_nil;
          let Hin := fresh "Hin" in
          case_decide as Hin;
          [ destruct (assoc_get_is_Some _ _ Hin) as [s Hs];
            rewrite bind_run, df_getitem_top; unfold getitem; simpl; rewrite Hs;
            by rewrite bind_run, df_setitem_top
          | rewrite ret_run; cbv beta iota ]).
  done.
Qed.

(** *** The renaming and the duplicate removal *)

Lemma set_columns_rename d :
  set_columns d (normalize_name <$> columns d) = Ok (rename d).
Proof.
  unfold set_columns, rename, columns.
  rewrite decide_True by by rewrite !length_fmap.
  do 2 f_equal. induction (df_cols d) as [|[c s] cs IH]; csimpl; [done|].
  by rewrite IH.
Qed.

Lemma rows_rename d : rows (rename d) = rows d.
Proof.
  unfold rows, rename. simpl. do 2 f_equal.
  induction (df_cols d) as [|[c s] cs IH]; csimpl; [done|]. by rewrite IH.
Qed.

Lemma rename_df_mask d mask : rename (df_mask d mask) = df_mask (rename d) mask.
Proof.
  unfold rename, df_mask. simpl. f_equal.
  rewrite <- !list_fmap_compose. apply list_fmap_ext. by intros i [c s] _.
Qed.

Lemma rename_drop_duplicates d :
  rename (drop_duplicates d) = drop_duplicates (rename d).
Proof.
  unfold drop_duplicates, duplicated. by rewrite rename_df_mask, rows_rename.
Qed.

(** *** The loops over labels *)

Lemma assoc_set_names col s (cs : list (string * Series num)) :
  col ∈ cs.*1 → (assoc_set col s cs).*1 = cs.*1.
Proof.
  induction cs as [|[c s0] cs IH]; simpl.
  - by intros ?%elem_of_nil.
  - intros Hin. case_decide as Hc; simpl; [done|]. f_equal. apply IH.
    apply elem_of_cons in Hin as [->|]; [congruence|done].
Qed.

Lemma update_Some (f : Series num → result (Series num)) d col s :
  assoc_get col (df_cols d) = Some s →
  update f d col = (s' ← f s; mret (setitem d col s')).
Proof. intros Hs. unfold update, getitem. by rewrite Hs. Qed.

Lemma foldM_update_total (f : Series num → result (Series num)) d cols :
  (∀ s, is_Some (match f s with Ok s' => Some s' | Raise _ => None end)) →
  cols ⊆ columns d →
  ∃ d', foldM (update f) d cols = Ok d' ∧ columns d' = columns d
        ∧ df_index d' = df_index d.
Proof.
  intros Hf. revert d. induction cols as [|col cols IH]; intros d Hsub; simpl.
  { by exists d. }
  assert (col ∈ columns d) as Hin by (apply Hsub, elem_of_cons; by left).
  destruct (assoc_get_is_Some _ _ Hin) as [s Hs].
  rewrite (update_Some _ _ _ _ Hs).
  destruct (Hf s) as [s' Hs']. destruct (f s) as [s''|] eqn:E; [|done].
  simpl. destruct (IH (setitem d col s'')) as (d' & -> & Hc & Hi).
  - unfold columns, setitem. simpl. rewrite assoc_set_names by done.
    intros x Hx. apply Hsub, elem_of_cons. by right.
  - exists d'. split; [done|]. rewrite Hc, Hi. unfold columns, setitem. simpl.
    by rewrite assoc_set_names.
Qed.

Lemma select_dtypes_subseteq d incl : select_dtypes d incl ⊆ columns d.
Proof.
  unfold select_dtypes, columns. intros x Hx.
  apply list_elem_of_fmap in Hx as ([c s] & -> & Hin).
  apply list_elem_of_filter in Hin as [_ Hin].
  apply list_elem_of_fmap. by exists (c, s).
Qed.

Lemma median_loop_total d :
  ∃ d', median_loop d = Ok d' ∧ columns d' = columns d
        ∧ df_index d' = df_index d.
Proof.
  apply foldM_update_total; [|apply select_dtypes_subseteq].
  intros s. by eexists.
Qed.
End run.

(** ** The routines compute the composition of their steps *)

Section characterization.
Context {num : Type} `{!Numeric num} `{!DatetimeParser} `{!Lower}.
Implicit Types (h g : heap (num:=num)) (d cur : DataFrame num).

Lemma byyy_clean_data_run h l d :
  h !! l = Some d →
  ∃ c t, median_loop (prepared d) = Ok c
         ∧ byyy.clean_data l h
           = (Ok (length (h ++ t)), (h ++ t) ++ [parse_dates (drop_identifiers c)]).
Proof.
  intros Hl. unfold byyy.clean_data.
  rewrite bind_run, (df_copy_run _ _ _ Hl). cbv beta iota.
  rewrite bind_run, df_columns_top. cbv beta iota.
  rewrite bind_run, (df_set_columns_top _ _ _ _ (set_columns_rename d)).
  cbv beta iota.
  rewrite bind_run, df_drop_duplicates_top. cbv beta iota.
  set (g1 := h ++ [rename d]). fold (prepared d).
  rewrite bind_run, df_select_dtypes_top. cbv beta iota.
  destruct (median_loop_total (prepared d)) as (c & Hc & _ & _).
  destruct (for_top
              (λ col, s ← df_getitem (length g1) col;
                      s' ← df_getitem (length g1) col;
                      df_setitem (length g1) col (fillna s (median s')))
              (update fill_median) g1
              (select_dtypes (prepared d) is_number) (prepared d)
              (median_body_top g1)) as (c' & Hfor & Hc').
  fold (median_loop (prepared d)) in Hfor, Hc'. rewrite Hc in Hfor.
  rewrite (Hc' c Hc) in Hfor. clear Hc' c'.
  rewrite bind_run, Hfor. cbv beta iota. simpl outcome. cbv beta iota.
  cbn [for_var].
  destruct (drop_missing_top g1 c "user_id" _ eq_refl) as [t1 H1].
  rewrite bind_run, bind_run, H1. cbv beta iota.
  destruct (drop_missing_top (g1 ++ t1) (drop_missing "user_id" c) "movie_id"
              _ eq_refl) as [t2 H2].
  rewrite bind_run, H2. cbv beta iota. rewrite ret_run. cbv beta iota.
  rewrite bind_run, parse_dates_top. cbv beta iota. rewrite ret_run.
  exists c, ([rename d] ++ t1 ++ t2). split; [done|].
  unfold g1, drop_identifiers. by rewrite !app_assoc.
Qed.

Lemma hii_clean_data_run h l d :
  h !! l = Some d →
  ∃ c c', median_loop (prepared d) = Ok c
          ∧ hii.clean_data l h
            = (match mode_loop c with
               | Ok _ => Ok (length (h ++ [d]))
               | Raise e => Raise e
               end, (h ++ [d]) ++ [c'])
          ∧ ∀ c2, mode_loop c = Ok c2 → c' = c2.
Proof.
  intros Hl. unfold hii.clean_data.
  rewrite bind_run, (df_copy_run _ _ _ Hl). cbv beta iota.
  rewrite bind_run, df_drop_duplicates_top. cbv beta iota.
  set (g1 := h ++ [d]).
  rewrite bind_run, df_columns_top. cbv beta iota.
  rewrite bind_run, (df_set_columns_top _ _ _ _ (set_columns_rename _)).
  cbv beta iota. rewrite rename_drop_duplicates. fold (prepared d).
  rewrite bind_run, df_select_dtypes_top. cbv beta iota.
  destruct (median_loop_total (prepared d)) as (c & Hc & _ & _).
  destruct (for_top
              (λ col, s ← df_getitem (length g1) col;
                      s' ← df_getitem (length g1) col;
                      df_setitem (length g1) col (fillna s (median s')))
              (update fill_median) g1
              (select_dtypes (prepared d) is_number) (prepared d)
              (median_body_top g1)) as (c' & Hfor & Hc').
  fold (median_loop (prepared d)) in Hfor, Hc'. rewrite Hc in Hfor.
  rewrite (Hc' c Hc) in Hfor. clear Hc' c'.
  rewrite bind_run, Hfor. cbv beta iota. simpl outcome. cbv beta iota.
  rewrite bind_run, df_select_dtypes_top. cbv beta iota.
  destruct (for_top
              (λ col, s ← df_getitem (length g1) col;
                      s' ← df_getitem (length g1) col;
                      m ← lift (first_label (mode s'));
                      df_setitem (length g1) col (fillna s m))
              (update fill_mode) g1 (select_dtypes c is_object) c
              (mode_body_top g1)) as (c' & Hfor' & Hc').
  fold (mode_loop c) in Hfor', Hc'.
  rewrite bind_run, Hfor'. exists c, c'. split; [done|]. split; [|done].
  destruct (mode_loop c); simpl; by rewrite ?ret_run.
Qed.

(** The routines as functions on frames. *)
Lemma byyy_normalize_steps d :
  byyy.normalize d
  = (c ← median_loop (prepared d); mret (parse_dates (drop_identifiers c))).
Proof.
  unfold byyy.normalize, call.
  destruct (byyy_clean_data_run [d] 0 d eq_refl) as (c & t & -> & ->).
  by rewrite (lookup_top ([d] ++ t)).
Qed.

Lemma hii_normalize_steps d :
  hii.normalize d = (c ← median_loop (prepared d); mode_loop c).
Proof.
  unfold hii.normalize, call.
  destruct (hii_clean_data_run [d] 0 d eq_refl) as (c & c' & -> & -> & Hc').
  unfold mbind, result_bind.
  destruct (mode_loop c) as [c2|e]; [|done].
  rewrite (Hc' c2 eq_refl). cbv beta iota. done.
Qed.
End characterization.

(** ** The loops over labels, column by column

    When no label is repeated, a loop [for col in cols: df[col] = f(df[col])]
    over the labels of the selected columns changes every selected column by
    [f] and leaves the others alone. *)

Section columnwise.
Context {num : Type} `{!Numeric num} `{!DatetimeParser} `{!Lower}.
Implicit Types (d : DataFrame num) (cs pre rest : list (string * Series num)).

Lemma assoc_get_app_r col pre rest :
  col ∉ pre.*1 → assoc_get col (pre ++ rest) = assoc_get col rest.
Proof.
  induction pre as [|[c s] pre IH]; csimpl; [done|].
  intros Hn. rewrite decide_False.
  - apply IH. intros Hin. apply Hn, elem_of_cons. by right.
  - intros ->. apply Hn, elem_of_cons. by left.
Qed.

Lemma assoc_set_app_r col s pre rest :
  col ∉ pre.*1 → assoc_set col s (pre ++ rest) = pre ++ assoc_set col s rest.
Proof.
  induction pre as [|[c s0] pre IH]; csimpl; [done|].
  intros Hn. rewrite decide_False.
  - f_equal. apply IH. intros Hin. apply Hn, elem_of_cons. by right.
  - intros ->. apply Hn, elem_of_cons. by left.
Qed.

Lemma foldM_update_cols (f : Series num → result (Series num)) (incl : dtype → bool)
    idx pre rest :
  NoDup (pre ++ rest).*1 →
  foldM (update f) (mkDF idx (pre ++ rest))
    (filter (λ c, incl (s_dtype c.2) = true) rest).*1
  = (cs ← mapM_cols (λ s, if incl (s_dtype s) then f s else Ok s) rest;
     mret (mkDF idx (pre ++ cs))).
Proof.
  revert pre. induction rest as [|[c s] rest IH]; intros pre Hnd.
  { done. }
  assert (c ∉ pre.*1) as Hc.
  { rewrite fmap_app in Hnd. apply NoDup_app in Hnd as (_ & Hnd & _).
    intros Hin. apply (Hnd c Hin). csimpl. apply elem_of_cons. by left. }
  assert (∀ s', NoDup ((pre ++ [(c, s')]) ++ rest).*1) as Hnd'.
  { intros s'. rewrite <- app_assoc. rewrite fmap_app in *. done. }
  rewrite filter_cons. simpl. destruct (incl (s_dtype s)) eqn:E.
  - rewrite decide_True by done. csimpl.
    rewrite (update_Some _ _ _ s).
    2:{ simpl. rewrite assoc_get_app_r by done. simpl. by rewrite decide_True. }
    destruct (f s) as [s'|e]; [|done]. simpl.
    unfold setitem. simpl. rewrite assoc_set_app_r by done. simpl.
    rewrite decide_True by done.
    rewrite (cons_middle (c, s') pre rest), app_assoc, IH by done.
    destruct (mapM_cols _ rest) as [cs|e]; [|done]. simpl.
    by rewrite <- app_assoc.
  - rewrite decide_False by done. simpl.
    rewrite (cons_middle (c, s) pre rest), app_assoc, IH by done.
    destruct (mapM_cols _ rest) as [cs|e]; [|done]. simpl.
    by rewrite <- app_assoc.
Qed.

Lemma mapM_cols_total (f : Series num → result (Series num)) (f' : Series num → Series num) cs :
  (∀ s, f s = Ok (f' s)) → mapM_cols f cs = Ok (prod_map id f' <$> cs).
Proof.
  intros Hf. induction cs as [|[c s] cs IH]; csimpl; [done|].
  by rewrite Hf, IH.
Qed.

Lemma median_loop_columnwise d :
  NoDup (columns d) → median_loop d = Ok (impute_numeric d).
Proof.
  intros Hnd. unfold median_loop, select_dtypes. destruct d as [idx cs].
  simpl in *.
  rewrite (foldM_update_cols fill_median is_number idx [] cs) by done.
  rewrite (mapM_cols_total _ impute_median); [done|].
  intros s. unfold impute_median, fill_median. by destruct (is_number _).
Qed.

Lemma mode_loop_columnwise d :
  NoDup (columns d) → mode_loop d = impute_text d.
Proof.
  intros Hnd. unfold mode_loop, select_dtypes. destruct d as [idx cs].
  simpl in *.
  by rewrite (foldM_update_cols fill_mode is_object idx [] cs).
Qed.

(** *** Labels through the steps *)

Lemma columns_rename d : columns (rename d) = normalize_name <$> columns d.
Proof.
  unfold columns, rename. simpl. rewrite <- !list_fmap_compose.
  apply list_fmap_ext. by intros i [c s] _.
Qed.

Lemma columns_df_mask d mask : columns (df_mask d mask) = columns d.
Proof.
  unfold columns, df_mask. simpl. rewrite <- list_fmap_compose.
  apply list_fmap_ext. by intros i [c s] _.
Qed.

Lemma columns_prepared d : columns (prepared d) = normalize_name <$> columns d.
Proof. unfold prepared, drop_duplicates. by rewrite columns_df_mask, columns_rename. Qed.

Lemma columns_map_cols f d : columns (map_cols f d) = columns d.
Proof.
  unfold columns, map_cols. simpl. rewrite <- list_fmap_compose.
  apply list_fmap_ext. by intros i [c s] _.
Qed.

Lemma columns_drop_missing key d : columns (drop_missing key d) = columns d.
Proof. unfold drop_missing. destruct (assoc_get _ _); [apply columns_df_mask|done]. Qed.

Lemma columns_drop_identifiers d : columns (drop_identifiers d) = columns d.
Proof. unfold drop_identifiers. by rewrite !columns_drop_missing. Qed.

Lemma columns_parse_dates d : columns (parse_dates d) = columns d.
Proof.
  unfold parse_dates. destruct (date_column d) as [t|]; [|done].
  destruct (assoc_get t (df_cols d)) as [s|] eqn:E; [|done].
  unfold columns, setitem. simpl. apply assoc_set_names.
  apply assoc_get_elem_of in E. apply list_elem_of_fmap. by exists (t, s).
Qed.

(** *** The routines on frames whose normalized labels are distinct *)

Theorem byyy_normalize_columnwise d :
  NoDup (normalize_name <$> columns d) →
  byyy.normalize d
  = Ok (parse_dates (drop_identifiers (impute_numeric (prepared d)))).
Proof.
  intros Hnd. rewrite byyy_normalize_steps, median_loop_columnwise; [done|].
  by rewrite columns_prepared.
Qed.

Theorem hii_normalize_columnwise d :
  NoDup (normalize_name <$> columns d) →
  hii.normalize d = impute_text (impute_numeric (prepared d)).
Proof.
  intros Hnd. rewrite hii_normalize_steps, median_loop_columnwise.
  - simpl. apply mode_loop_columnwise.
    unfold impute_numeric. by rewrite columns_map_cols, columns_prepared.
  - by rewrite columns_prepared.
Qed.
End columnwise.

(** ** Masks, rows and duplicates *)

Section masks.
Context {A B : Type}.
Implicit Types (mask : list bool) (l : list A) (k : list B).

Lemma mask_select_nil_r mask : mask_select mask (@nil A) = [].
Proof. by destruct mask. Qed.

Lemma mask_select_elem_of mask l x : x ∈ mask_select mask l → x ∈ l.
Proof.
  revert l. induction mask as [|b mask IH]; intros [|y l]; simpl;
    try (by intros ?%elem_of_nil).
  destruct b.
  - intros [->|Hin]%elem_of_cons; apply elem_of_cons; auto.
  - intros Hin. apply elem_of_cons; auto.
Qed.

Lemma mask_select_fmap (f : A → B) mask l :
  mask_select mask (f <$> l) = f <$> mask_select mask l.
Proof.
  revert l. induction mask as [|b mask IH]; intros [|y l]; csimpl; try done.
  destruct b; csimpl; by rewrite IH.
Qed.

Lemma mask_select_zip_with {C} (f : A → B → C) mask l k :
  mask_select mask (zip_with f l k)
  = zip_with f (mask_select mask l) (mask_select mask k).
Proof.
  revert l k. induction mask as [|b mask IH]; intros [|x l] [|y k]; simpl;
    try done.
  - destruct b; by rewrite ?zip_with_nil_r.
  - destruct b; simpl; by rewrite IH.
Qed.

Lemma mask_select_all mask l :
  Forall (λ b, b = true) mask → length l ≤ length mask → mask_select mask l = l.
Proof.
  intros Hall. revert l. induction Hall as [|b mask -> _ IH]; intros [|x l];
    simpl; try done; try lia.
  intros Hl. f_equal. apply IH. lia.
Qed.

Lemma length_mask_select mask l k :
  length l = length k →
  length (mask_select mask l) = length (mask_select mask k).
Proof.
  revert l k. induction mask as [|b mask IH]; intros [|x l] [|y k]; simpl;
    try done.
  intros [= Hl]. destruct b; simpl; auto.
Qed.

Lemma mask_select_replicate mask n (x : A) (y : B) :
  mask_select mask (replicate n x)
  = replicate (length (mask_select mask (replicate n y))) x.
Proof.
  revert n. induction mask as [|b mask IH]; intros [|n]; simpl; try done.
  destruct b; simpl; by rewrite IH.
Qed.
End masks.

Section rows.
Context {num : Type} `{!Numeric num} `{!DatetimeParser} `{!Lower}.
Implicit Types (d : DataFrame num) (r : list (cell num))
  (rs seen : list (list (cell num))).

Lemma rows_of_mask mask (idx : list nat) (cs : list (list (cell num))) :
  rows_of (length (mask_select mask idx)) (mask_select mask <$> cs)
  = mask_select mask (rows_of (length idx) cs).
Proof.
  induction cs as [|c cs IH]; csimpl.
  - rewrite (mask_select_replicate mask _ [] 0).
    f_equal. rewrite <- (length_replicate (length idx) 0) at 1.
    apply length_mask_select. by rewrite !length_replicate.
  - by rewrite IH, mask_select_zip_with.
Qed.

Lemma rows_df_mask d mask : rows (df_mask d mask) = mask_select mask (rows d).
Proof.
  unfold rows, df_mask. simpl. rewrite <- rows_of_mask. f_equal.
  rewrite <- !list_fmap_compose. apply list_fmap_ext. by intros i [c s] _.
Qed.

Lemma length_rows_of n (cs : list (list (cell num))) :
  Forall (λ c, length c = n) cs → length (rows_of n cs) = n.
Proof.
  induction 1 as [|c cs Hc _ IH]; simpl.
  - apply length_replicate.
  - rewrite length_zip_with. lia.
Qed.

Lemma length_rows d : shape_ok d → length (rows d) = length (df_index d).
Proof.
  intros Hs. unfold rows. apply length_rows_of.
  apply Forall_fmap. eapply Forall_impl; [apply Hs|]. done.
Qed.

Lemma kept_nil seen : kept seen [] = [].
Proof. done. Qed.

Lemma kept_cons seen r rs :
  kept seen (r :: rs)
  = if bool_decide (r ∈ seen) then kept (r :: seen) rs else r :: kept (r :: seen) rs.
Proof. unfold kept. simpl. by destruct (bool_decide _). Qed.

Lemma kept_ext seen seen' rs :
  (∀ x, x ∈ seen ↔ x ∈ seen') → kept seen rs = kept seen' rs.
Proof.
  revert seen seen'. induction rs as [|r rs IH]; intros seen seen' Hs; [done|].
  rewrite !kept_cons. rewrite (bool_decide_ext _ _ (Hs r)).
  rewrite (IH (r :: seen) (r :: seen')); [done|].
  intros x. rewrite !elem_of_cons. by rewrite Hs.
Qed.

Lemma kept_elem_of seen rs x : x ∈ kept seen rs → x ∈ rs ∧ x ∉ seen.
Proof.
  revert seen. induction rs as [|r rs IH]; intros seen.
  { by intros ?%elem_of_nil. }
  rewrite kept_cons. case_bool_decide as Hr.
  - intros [Hin Hn]%IH. split; [apply elem_of_cons; auto|].
    intros Hx. apply Hn, elem_of_cons. auto.
  - intros [->|[Hin Hn]%IH]%elem_of_cons.
    + split; [apply elem_of_cons; auto|done].
    + split; [apply elem_of_cons; auto|].
      intros Hx. apply Hn, elem_of_cons. auto.
Qed.

Lemma NoDup_kept seen rs : NoDup (kept seen rs).
Proof.
  revert seen. induction rs as [|r rs IH]; intros seen.
  { constructor. }
  rewrite kept_cons. case_bool_decide as Hr; [apply IH|].
  constructor; [|apply IH].
  intros [_ Hn]%kept_elem_of. apply Hn, elem_of_cons. auto.
Qed.

Lemma duplicated_from_NoDup seen rs :
  NoDup rs → (∀ x, x ∈ rs → x ∉ seen) →
  Forall (λ b, b = true) (negb <$> duplicated_from seen rs).
Proof.
  intros Hnd. revert seen. induction Hnd as [|r rs Hr Hnd IH]; intros seen Hs.
  { constructor. }
  csimpl. constructor.
  - rewrite bool_decide_false; [done|]. apply Hs, elem_of_cons. auto.
  - apply IH. intros x Hx Hin. apply elem_of_cons in Hin as [Heq|Hin].
    + by subst x.
    + apply (Hs x); [apply elem_of_cons; auto|done].
Qed.

Lemma length_duplicated_from seen rs : length (duplicated_from seen rs) = length rs.
Proof. revert seen. induction rs as [|r rs IH]; intros seen; simpl; auto. Qed.

Lemma kept_NoDup seen rs :
  NoDup rs → (∀ x, x ∈ rs → x ∉ seen) → kept seen rs = rs.
Proof.
  intros Hnd Hs. apply mask_select_all.
  - by apply duplicated_from_NoDup.
  - by rewrite length_fmap, length_duplicated_from.
Qed.

(** One repeated row: the second copy goes, everything else stays. *)
Lemma kept_one_repeat seen r (l1 l2 : list (list (cell num))) :
  NoDup (l1 ++ l2) → (∀ x, x ∈ l1 ++ l2 → x ∉ seen) →
  r ∈ seen ++ l1 →
  kept seen (l1 ++ r :: l2) = l1 ++ l2.
Proof.
  revert seen. induction l1 as [|a l1 IH]; intros seen Hnd Hs Hr; simpl in *.
  - rewrite app_nil_r in Hr. rewrite kept_cons, bool_decide_true by done.
    apply kept_NoDup; [done|].
    intros x Hx Hin. apply elem_of_cons in Hin as [Heq|Hin].
    + subst x. by apply (Hs r).
    + by apply (Hs x).
  - apply NoDup_cons in Hnd as [Ha Hnd].
    rewrite kept_cons, bool_decide_false.
    2:{ apply Hs, elem_of_cons. auto. }
    f_equal. apply IH; [done| |].
    + intros x Hx Hin. apply elem_of_cons in Hin as [Heq|Hin].
      * by subst x.
      * apply (Hs x); [apply elem_of_cons; auto|done].
    + apply elem_of_app in Hr as [Hr|[->|Hr]%elem_of_cons].
      * apply elem_of_cons. right. apply elem_of_app. auto.
      * apply elem_of_cons. auto.
      * apply elem_of_cons. right. apply elem_of_app. auto.
Qed.

Lemma rows_drop_duplicates d : rows (drop_duplicates d) = first_occurrences (rows d).
Proof. unfold drop_duplicates. by rewrite rows_df_mask. Qed.
End rows.

(** ** Columns through the steps *)

Section columns.
Context {num : Type} `{!Numeric num} `{!DatetimeParser} `{!Lower}.
Implicit Types (d : DataFrame num) (s : Series num)
  (cs : list (string * Series num)).

Lemma assoc_get_fmap (f : Series num → Series num) col cs :
  assoc_get col (prod_map id f <$> cs) = f <$> assoc_get col cs.
Proof.
  induction cs as [|[c s] cs IH]; csimpl; [done|]. by case_decide.
Qed.

Lemma assoc_get_df_mask col d mask :
  assoc_get col (df_cols (df_mask d mask))
  = select_series mask <$> assoc_get col (df_cols d).
Proof. apply assoc_get_fmap. Qed.

Lemma assoc_get_map_cols f col d :
  assoc_get col (df_cols (map_cols f d)) = f <$> assoc_get col (df_cols d).
Proof. apply assoc_get_fmap. Qed.

Lemma assoc_get_set col t s cs :
  assoc_get col (assoc_set t s cs)
  = if decide (t = col) then Some s else assoc_get col cs.
Proof.
  induction cs as [|[c s0] cs IH]; simpl.
  - by case_decide.
  - destruct (decide (c = t)) as [->|Hct]; simpl.
    + by case_decide.
    + rewrite IH. destruct (decide (c = col)) as [->|Hc]; [|done].
      by rewrite decide_False by done.
Qed.

Lemma assoc_set_same col s cs :
  assoc_get col cs = Some s → assoc_set col s cs = cs.
Proof.
  induction cs as [|[c s0] cs IH]; simpl; [done|].
  case_decide as Hc.
  - by intros [= ->].
  - intros Hg. by rewrite IH.
Qed.

Lemma mapM_cols_names f cs cs' : mapM_cols f cs = Ok cs' → cs'.*1 = cs.*1.
Proof.
  revert cs'. induction cs as [|[c s] cs IH]; intros cs'; csimpl.
  { by intros [= <-]. }
  destruct (f s) as [s'|]; [|done]. csimpl.
  destruct (mapM_cols f cs) as [cs''|]; [|done]. csimpl.
  intros [= <-]. csimpl. by rewrite (IH cs'').
Qed.

Lemma assoc_get_mapM_cols f col cs cs' s' :
  mapM_cols f cs = Ok cs' → assoc_get col cs' = Some s' →
  ∃ s, assoc_get col cs = Some s ∧ f s = Ok s'.
Proof.
  revert cs'. induction cs as [|[c s] cs IH]; intros cs'; csimpl.
  { by intros [= <-]. }
  destruct (f s) as [s1|] eqn:E; [|done]. csimpl.
  destruct (mapM_cols f cs) as [cs''|]; [|done]. csimpl.
  intros [= <-]. simpl. case_decide.
  - intros [= <-]. eauto.
  - by apply IH.
Qed.

Lemma mapM_cols_id f cs :
  Forall (λ s, f s = Ok s) cs.*2 → mapM_cols f cs = Ok cs.
Proof.
  induction cs as [|[c s] cs IH]; csimpl; [done|].
  intros [Hs Hcs]%Forall_cons. by rewrite Hs, IH.
Qed.

Lemma map_cols_id f d :
  Forall (λ s, f s = s) (df_cols d).*2 → map_cols f d = d.
Proof.
  destruct d as [idx cs]. unfold map_cols. simpl. intros Hall. f_equal.
  induction cs as [|[c s] cs IH]; [done|].
  rewrite fmap_cons in Hall. apply Forall_cons in Hall as [Hs Hcs].
  rewrite fmap_cons. f_equal; [|by apply IH].
  unfold prod_map. simpl in *. by rewrite Hs.
Qed.

(** *** Shapes *)

Lemma shape_ok_rename d : shape_ok d → shape_ok (rename d).
Proof.
  unfold shape_ok, rename. simpl. intros Hs.
  replace ((prod_map normalize_name id <$> df_cols d).*2) with (df_cols d).*2; [done|].
  rewrite <- list_fmap_compose. apply list_fmap_ext. by intros i [c s] _.
Qed.

Lemma shape_ok_df_mask d mask : shape_ok d → shape_ok (df_mask d mask).
Proof.
  unfold shape_ok, df_mask. simpl. intros Hs.
  rewrite <- list_fmap_compose. apply Forall_fmap.
  apply Forall_fmap in Hs. eapply Forall_impl; [apply Hs|].
  intros [c s] Hl. simpl in *. by apply length_mask_select.
Qed.

Lemma shape_ok_map_cols f d :
  (∀ s, length (s_values (f s)) = length (s_values s)) →
  shape_ok d → shape_ok (map_cols f d).
Proof.
  unfold shape_ok, map_cols. simpl. intros Hf Hs.
  rewrite <- list_fmap_compose. apply Forall_fmap.
  apply Forall_fmap in Hs. eapply Forall_impl; [apply Hs|].
  intros [c s] Hl. simpl in *. by rewrite Hf.
Qed.

Lemma length_fillna s v : length (s_values (fillna s v)) = length (s_values s).
Proof. unfold fillna. simpl. apply length_fmap. Qed.

Lemma length_impute_median s :
  length (s_values (impute_median s)) = length (s_values s).
Proof. unfold impute_median. destruct (is_number _); [apply length_fillna|done]. Qed.

Lemma length_to_datetime s :
  length (s_values (to_datetime s)) = length (s_values s).
Proof. unfold to_datetime. case_decide; [done|]. simpl. apply length_fmap. Qed.

Lemma shape_ok_prepared d : shape_ok d → shape_ok (prepared d).
Proof. intros Hs. by apply shape_ok_df_mask, shape_ok_rename. Qed.

Lemma shape_ok_drop_missing key d : shape_ok d → shape_ok (drop_missing key d).
Proof.
  intros Hs. unfold drop_missing. destruct (assoc_get _ _); [|done].
  by apply shape_ok_df_mask.
Qed.

Lemma Forall_assoc_set (P : Series num → Prop) col s cs :
  P s → Forall P cs.*2 → Forall P (assoc_set col s cs).*2.
Proof.
  intros Hs. induction cs as [|[c s0] cs IH]; csimpl.
  - intros _. by constructor.
  - intros [Hs0 Hcs]%Forall_cons. case_decide; csimpl; constructor; auto.
Qed.

Lemma Forall_assoc_get (P : Series num → Prop) col s cs :
  Forall P cs.*2 → assoc_get col cs = Some s → P s.
Proof.
  intros Hall Hg. apply assoc_get_elem_of in Hg.
  rewrite Forall_forall in Hall. apply Hall.
  apply list_elem_of_fmap. by exists (col, s).
Qed.

Lemma shape_ok_parse_dates d : shape_ok d → shape_ok (parse_dates d).
Proof.
  intros Hs. unfold parse_dates. destruct (date_column d) as [t|]; [|done].
  destruct (assoc_get t (df_cols d)) as [s|] eqn:E; [|done].
  unfold shape_ok, setitem. simpl. apply Forall_assoc_set; [|done].
  rewrite length_to_datetime. by apply (Forall_assoc_get _ _ _ _ Hs E).
Qed.

Lemma df_mask_all d mask :
  shape_ok d → Forall (λ b, b = true) mask → length (df_index d) ≤ length mask →
  df_mask d mask = d.
Proof.
  destruct d as [idx cs]. unfold shape_ok, df_mask. simpl.
  intros Hs Hall Hl. f_equal; [by apply mask_select_all|].
  induction cs as [|[c [t vs]] cs IH]; [done|].
  rewrite fmap_cons in Hs. apply Forall_cons in Hs as [Hv Hs]. simpl in Hv.
  rewrite fmap_cons. f_equal; [|by apply IH].
  unfold prod_map. simpl. rewrite mask_select_all; [done|done|lia].
Qed.
End columns.

(** ** What the loops keep *)

Section loops.
Context {num : Type} `{!Numeric num} `{!DatetimeParser} `{!Lower}.
Implicit Types (d : DataFrame num) (s : Series num).

Lemma update_inv (f : Series num → result (Series num)) d col d' :
  update f d col = Ok d' →
  ∃ s s', assoc_get col (df_cols d) = Some s ∧ f s = Ok s'
          ∧ d' = setitem d col s'.
Proof.
  unfold update, getitem. destruct (assoc_get col (df_cols d)) as [s|]; [|done].
  simpl. destruct (f s) as [s'|] eqn:E; [|done]. intros [= <-]. eauto.
Qed.

Lemma foldM_update_keeps (f : Series num → result (Series num))
    (P : Series num → Prop) d cols d' :
  (∀ s s', f s = Ok s' → P s → P s') →
  foldM (update f) d cols = Ok d' →
  columns d' = columns d ∧ df_index d' = df_index d
  ∧ (Forall P (df_cols d).*2 → Forall P (df_cols d').*2).
Proof.
  intros Hf. revert d. induction cols as [|col cols IH]; intros d; simpl.
  { by intros [= <-]. }
  destruct (update f d col) as [d1|] eqn:E; [|done]. simpl.
  apply update_inv in E as (s & s' & Hs & Hfs & ->).
  intros (Hc & Hi & HP)%IH. rewrite Hc, Hi. split; [|split; [done|]].
  - unfold columns, setitem. simpl. apply assoc_set_names.
    apply assoc_get_elem_of in Hs. apply list_elem_of_fmap. by exists (col, s).
  - intros Hall. apply HP. unfold setitem. simpl.
    apply Forall_assoc_set; [|done].
    apply (Hf s s' Hfs). by apply (Forall_assoc_get _ _ _ _ Hall Hs).
Qed.

Lemma select_dtypes_nil d incl :
  Forall (λ s, incl (s_dtype s) = false) (df_cols d).*2 →
  select_dtypes d incl = [].
Proof.
  unfold select_dtypes. induction (df_cols d) as [|[c s] cs IH]; [done|].
  rewrite fmap_cons. intros [Hs Hcs]%Forall_cons. simpl in Hs.
  rewrite filter_cons. simpl. rewrite decide_False by by rewrite Hs.
  by apply IH.
Qed.

Lemma Forall_prepared (P : dtype → Prop) d :
  Forall (λ s, P (s_dtype s)) (df_cols d).*2 →
  Forall (λ s, P (s_dtype s)) (df_cols (prepared d)).*2.
Proof.
  unfold prepared, drop_duplicates, df_mask, rename. simpl. intros Hall.
  rewrite <- !list_fmap_compose. rewrite Forall_fmap in Hall |- *.
  eapply Forall_impl; [apply Hall|]. by intros [c s].
Qed.

Lemma drop_missing_absent key d : key ∉ columns d → drop_missing key d = d.
Proof. intros Hk. unfold drop_missing. by rewrite assoc_get_None. Qed.

(** on a valid frame variant A returns *)
Lemma byyy_normalize_total d : valid d = true → ∃ out, byyy.normalize d = Ok out.
Proof.
  intros _. rewrite byyy_normalize_steps.
  destruct (median_loop_total (prepared d)) as (c & -> & _). by eexists.
Qed.
End loops.

(** ** Median, identifiers and dates, column by column *)

Section values.
Context {num : Type} `{!Numeric num} `{!DatetimeParser} `{!Lower}.
Implicit Types (d out : DataFrame num) (s : Series num) (vs : list (cell num)).

Lemma valid_inv d :
  valid d = true →
  NoDup (normalize_name <$> columns d) ∧ NoDup (df_index d) ∧ shape_ok d.
Proof.
  unfold valid. rewrite !andb_true_iff, !bool_decide_eq_true.
  intros [[[_ Hn] Hi] Hc]. split; [done|]. split; [done|].
  unfold shape_ok. apply Forall_forall. intros s Hs.
  rewrite forallb_forall in Hc. specialize (Hc s).
  rewrite <- list_elem_of_In in Hc. specialize (Hc Hs).
  unfold column_ok in Hc. rewrite !andb_true_iff, bool_decide_eq_true in Hc.
  tauto.
Qed.

Lemma nums_nil_iff vs : nums vs = [] ↔ ∀ x, Num x ∉ vs.
Proof.
  unfold nums. induction vs as [|v vs IH]; simpl.
  - split; [|done]. intros _ x. apply not_elem_of_nil.
  - destruct v as [|y| | |]; simpl; rewrite ?IH;
      try (split; [intros Hn x [?|?]%elem_of_cons; [done|by apply (Hn x)]
                  |intros Hn x Hx; apply (Hn x), elem_of_cons; auto]).
    split; [done|]. intros Hn. destruct (Hn y). apply elem_of_cons. auto.
Qed.

Lemma median_NA s : nums (s_values s) = [] → median s = NA.
Proof. intros Hn. unfold median. by rewrite Hn. Qed.

Lemma median_Num s x : Num x ∈ s_values s → ∃ m, median s = Num m.
Proof.
  intros Hx. unfold median.
  pose proof (merge_sort_Permutation num_le (nums (s_values s))) as Hp.
  set (xs := merge_sort num_le (nums (s_values s))) in *.
  assert (length xs ≠ 0) as Hlen.
  { intros Hl. apply nil_length_inv in Hl. rewrite Hl in Hp.
    symmetry in Hp. apply Permutation_nil_r in Hp.
    by apply (proj1 (nums_nil_iff _) Hp x). }
  rewrite decide_False by done.
  assert (length xs / 2 < length xs) as H2 by (apply Nat.div_lt; lia).
  destruct (lookup_lt_is_Some_2 xs _ H2) as [b Hb]. rewrite Hb.
  assert (length xs / 2 - 1 < length xs) as H1 by lia.
  destruct (lookup_lt_is_Some_2 xs _ H1) as [a Ha]. rewrite Ha.
  destruct (Nat.odd (length xs)); by eexists.
Qed.

Lemma fill_not_na (v c : cell num) : is_na v = false → is_na (fill v c) = false.
Proof. unfold fill. by destruct c. Qed.

Lemma fill_id (v : cell num) vs : Forall (λ c, is_na c = false) vs → fill v <$> vs = vs.
Proof.
  induction 1 as [|c vs Hc _ IH]; csimpl; [done|].
  rewrite IH. unfold fill. by rewrite Hc.
Qed.

Lemma fill_NA vs : fill NA <$> vs = vs.
Proof. induction vs as [|c vs IH]; csimpl; [done|]. rewrite IH. by destruct c. Qed.

Lemma elem_of_zip_fmap_r {X} (f : cell num → cell num) (idx : list X) vs i v :
  (i, v) ∈ zip idx (f <$> vs) → ∃ v0, (i, v0) ∈ zip idx vs ∧ v = f v0.
Proof.
  revert vs. induction idx as [|j idx IH]; intros [|w vs]; csimpl;
    try (by intros ?%elem_of_nil).
  intros [[= -> ->]|Hin]%elem_of_cons.
  - exists w. split; [apply elem_of_cons; auto|done].
  - destruct (IH vs Hin) as (v0 & Hv0 & ->).
    exists v0. split; [apply elem_of_cons; auto|done].
Qed.

(** *** Row selection keeps labelled values *)

Lemma sub_series_refl idx s : sub_series idx s idx s.
Proof. done. Qed.

Lemma sub_series_trans i1 s1 i2 s2 i3 s3 :
  sub_series i1 s1 i2 s2 → sub_series i2 s2 i3 s3 → sub_series i1 s1 i3 s3.
Proof.
  intros (Ht & Hz & Hv) (Ht' & Hz' & Hv'). split; [congruence|]. split; eauto.
Qed.

Lemma sub_series_select mask idx s :
  sub_series (mask_select mask idx) (select_series mask s) idx s.
Proof.
  split; [done|]. split.
  - intros i v. change (s_values (select_series mask s))
      with (mask_select mask (s_values s)).
    rewrite <- mask_select_zip_with. apply mask_select_elem_of.
  - intros v. apply mask_select_elem_of.
Qed.

Lemma drop_missing_get key d col s' :
  assoc_get col (df_cols (drop_missing key d)) = Some s' →
  ∃ s, assoc_get col (df_cols d) = Some s
       ∧ sub_series (df_index (drop_missing key d)) s' (df_index d) s.
Proof.
  unfold drop_missing. destruct (assoc_get key (df_cols d)) as [k|].
  - rewrite assoc_get_df_mask.
    destruct (assoc_get col (df_cols d)) as [s|]; [|done].
    intros [= <-]. exists s. split; [done|]. apply sub_series_select.
  - intros Hs. exists s'. split; [done|]. apply sub_series_refl.
Qed.

Lemma drop_identifiers_get d col s' :
  assoc_get col (df_cols (drop_identifiers d)) = Some s' →
  ∃ s, assoc_get col (df_cols d) = Some s
       ∧ sub_series (df_index (drop_identifiers d)) s' (df_index d) s.
Proof.
  unfold drop_identifiers.
  intros (s1 & (s & Hs & Hsub)%drop_missing_get & Hsub1)%drop_missing_get.
  exists s. split; [done|]. eapply sub_series_trans; eauto.
Qed.

(** *** The date step *)

Lemma to_datetime_dtype s : s_dtype (to_datetime s) = Datetime64.
Proof. unfold to_datetime. by case_decide. Qed.

Lemma df_index_parse_dates d : df_index (parse_dates d) = df_index d.
Proof.
  unfold parse_dates. destruct (date_column d); [|done].
  by destruct (assoc_get _ _).
Qed.

Lemma parse_dates_get d col :
  assoc_get col (df_cols (parse_dates d))
  = if decide (date_column d = Some col)
    then to_datetime <$> assoc_get col (df_cols d)
    else assoc_get col (df_cols d).
Proof.
  unfold parse_dates. destruct (date_column d) as [t|]; [|by rewrite decide_False].
  destruct (assoc_get t (df_cols d)) as [s|] eqn:E.
  - unfold setitem. simpl. rewrite assoc_get_set.
    destruct (decide (t = col)) as [->|Hne].
    + rewrite decide_True by done. by rewrite E.
    + rewrite decide_False by congruence. done.
  - case_decide as Hd; [|done]. injection Hd as ->. by rewrite E.
Qed.

Lemma impute_mode_dtype s s' : impute_mode s = Ok s' → s_dtype s' = s_dtype s.
Proof.
  unfold impute_mode, fill_mode. destruct (is_object _); [|by intros [= <-]].
  destruct (first_label _); [|done]. by intros [= <-].
Qed.

Lemma impute_text_index d out : impute_text d = Ok out → df_index out = df_index d.
Proof.
  unfold impute_text. destruct (mapM_cols _ _); [|done]. by intros [= <-].
Qed.

Lemma impute_text_get d out col s' :
  impute_text d = Ok out → assoc_get col (df_cols out) = Some s' →
  ∃ s, assoc_get col (df_cols d) = Some s ∧ impute_mode s = Ok s'.
Proof.
  unfold impute_text. destruct (mapM_cols _ _) as [cs|] eqn:E; [|done].
  intros [= <-]. simpl. by apply assoc_get_mapM_cols.
Qed.
End values.

(** ** The mode *)

Section mode.
Context {num : Type} `{!Numeric num} `{!DatetimeParser} `{!Lower}.
Implicit Types (s : Series num) (vs : list (cell num)) (v m : cell num).

Global Instance cell_le_trans : Transitive (cell_le (num:=num)).
Proof.
  unfold cell_le. intros a b c.
  destruct a as [|x|x|x|x], b as [|y|y|y|y], c as [|z|z|z|z]; simpl;
    try done.
  - apply num_leb_trans.
  - destruct x, y, z; done.
  - intros Hxy%Is_true_true Hyz%Is_true_true. apply Is_true_true.
    by trans y.
  - rewrite !Z.leb_le. lia.
Qed.

Global Instance cell_le_total : Total (cell_le (num:=num)).
Proof.
  unfold cell_le. intros a b.
  destruct a as [|x|x|x|x], b as [|y|y|y|y]; simpl; auto.
  - apply num_leb_total.
  - destruct x, y; auto.
  - destruct (total String.le x y) as [Hxy%Is_true_true|Hyx%Is_true_true]; auto.
  - rewrite !Z.leb_le. lia.
Qed.

Lemma cell_le_refl v : cell_le v v.
Proof. by destruct (total cell_le v v). Qed.

Lemma count_non_missing v vs :
  is_na v = false → count v (non_missing vs) = count v vs.
Proof.
  intros Hv. unfold count, non_missing.
  induction vs as [|c vs IH]; [done|].
  rewrite !filter_cons. destruct (decide (is_na c = false)) as [Hc|Hc].
  - rewrite filter_cons. destruct (decide (c = v)); simpl; by rewrite IH.
  - rewrite decide_False by congruence. done.
Qed.

Lemma elem_of_non_missing v vs : v ∈ non_missing vs ↔ v ∈ vs ∧ is_na v = false.
Proof. unfold non_missing. rewrite list_elem_of_filter. tauto. Qed.

(** The value [mode()[0]]: a most frequent non-missing value, and the least
    of them in the order of [np.sort]. *)
Lemma first_label_mode s m :
  first_label (mode s) = Ok m →
  m ∈ s_values s ∧ is_na m = false
  ∧ ∀ v, v ∈ s_values s → is_na v = false →
         count v (s_values s) ≤ count m (s_values s)
         ∧ (count v (s_values s) = count m (s_values s) → cell_le m v).
Proof.
  unfold mode. set (nm := non_missing (s_values s)).
  set (cands := filter (λ v, count v nm = max_count nm) (remove_dups nm)).
  pose proof (merge_sort_Permutation cell_le cands) as Hp.
  pose proof (StronglySorted_merge_sort cell_le cands) as Hs.
  destruct (merge_sort cell_le cands) as [|m' rest]; [done|].
  intros [= ->].
  assert (∀ v, v ∈ cands ↔ (v ∈ s_values s ∧ is_na v = false)
                             ∧ count v nm = max_count nm) as Hc.
  { intros v. unfold cands. rewrite list_elem_of_filter, elem_of_remove_dups.
    pose proof (elem_of_non_missing v (s_values s)) as Hnm. fold nm in Hnm.
    tauto. }
  assert (m ∈ cands) as Hm by (rewrite <- Hp; apply list_elem_of_here).
  apply Hc in Hm as [[Hin Hna] Hmax]. split; [done|]. split; [done|].
  intros v Hv Hvna.
  rewrite <- (count_non_missing v), <- (count_non_missing m) by done.
  fold nm. rewrite Hmax. split.
  - apply max_list_elem_of_le. apply list_elem_of_fmap. exists v.
    split; [done|]. by apply elem_of_non_missing.
  - intros Heq. assert (v ∈ cands) as Hvc by by apply Hc.
    rewrite <- Hp in Hvc. apply elem_of_cons in Hvc as [->|Hvr].
    + apply cell_le_refl.
    + apply StronglySorted_cons in Hs as [Hall _].
      rewrite Forall_forall in Hall. by apply Hall.
Qed.

(** [mode()] is empty exactly when the column has no non-missing value *)
Lemma mode_nonempty s v :
  v ∈ s_values s → is_na v = false → ∃ m, first_label (mode s) = Ok m.
Proof.
  intros Hv Hna. unfold mode. set (nm := non_missing (s_values s)).
  set (cands := filter (λ v, count v nm = max_count nm) (remove_dups nm)).
  pose proof (merge_sort_Permutation cell_le cands) as Hp.
  assert (nm ≠ []) as Hnm.
  { intros Hnil. assert (v ∈ nm) as Hin by by apply elem_of_non_missing.
    rewrite Hnil in Hin. by apply elem_of_nil in Hin. }
  assert ((λ v, count v nm) <$> nm ≠ []) as Hne by by destruct nm.
  apply max_list_elem_of in Hne.
  apply list_elem_of_fmap in Hne as (w & Hw & Hwin).
  assert (w ∈ cands) as Hc.
  { unfold cands. apply list_elem_of_filter. split; [done|].
    by apply elem_of_remove_dups. }
  rewrite <- Hp in Hc. destruct (merge_sort cell_le cands) as [|m rest].
  - by apply elem_of_nil in Hc.
  - by exists m.
Qed.
End mode.

(** ** Steps that have nothing left to do *)

Section settled.
Context {num : Type} `{!Numeric num} `{!DatetimeParser} `{!Lower}.
Implicit Types (d out : DataFrame num) (s : Series num) (vs : list (cell num)).

Lemma no_missing_full d : no_missing d = true → full d.
Proof.
  unfold no_missing, full, full_series. intros Hn.
  apply Forall_forall. intros s Hs. apply Forall_forall. intros c Hc.
  rewrite forallb_forall in Hn. specialize (Hn s).
  rewrite <- list_elem_of_In in Hn. specialize (Hn Hs).
  rewrite forallb_forall in Hn. specialize (Hn c).
  rewrite <- list_elem_of_In in Hn. specialize (Hn Hc). by destruct c.
Qed.

Lemma fillna_full s v : full_series s → fillna s v = s.
Proof. intros Hf. destruct s as [t vs]. unfold fillna. simpl. by rewrite fill_id. Qed.

Lemma fillna_NA s : fillna s NA = s.
Proof. destruct s as [t vs]. unfold fillna. simpl. by rewrite fill_NA. Qed.

Lemma full_series_select mask s : full_series s → full_series (select_series mask s).
Proof.
  unfold full_series. simpl. rewrite !Forall_forall.
  intros Hf c Hc%mask_select_elem_of. by apply Hf.
Qed.

Lemma Forall_df_mask (P : Series num → Prop) d mask :
  (∀ s, P s → P (select_series mask s)) →
  Forall P (df_cols d).*2 → Forall P (df_cols (df_mask d mask)).*2.
Proof.
  intros HP. unfold df_mask. simpl. rewrite <- list_fmap_compose.
  rewrite !Forall_fmap. intros Hall. eapply Forall_impl; [apply Hall|].
  intros [c s]. simpl. apply HP.
Qed.

Lemma Forall_rename (P : Series num → Prop) d :
  Forall P (df_cols d).*2 → Forall P (df_cols (rename d)).*2.
Proof.
  unfold rename. simpl. rewrite <- list_fmap_compose.
  rewrite !Forall_fmap. intros Hall. eapply Forall_impl; [apply Hall|].
  by intros [c s].
Qed.

Lemma Forall_map_cols (P : Series num → Prop) f d :
  (∀ s, P (f s)) → Forall P (df_cols (map_cols f d)).*2.
Proof.
  intros HP. unfold map_cols. simpl. rewrite <- list_fmap_compose.
  rewrite Forall_fmap. apply Forall_forall. intros [c s] _. simpl. apply HP.
Qed.

Lemma Forall_drop_missing (P : Series num → Prop) key d :
  (∀ mask s, P s → P (select_series mask s)) →
  Forall P (df_cols d).*2 → Forall P (df_cols (drop_missing key d)).*2.
Proof.
  intros HP Hall. unfold drop_missing. destruct (assoc_get _ _); [|done].
  apply Forall_df_mask; auto.
Qed.

Lemma full_prepared d : full d → full (prepared d).
Proof.
  intros Hf. apply Forall_df_mask; [apply full_series_select|].
  by apply Forall_rename.
Qed.

(** *** The median step *)

Lemma impute_median_settled s : median_settled (impute_median s).
Proof.
  unfold median_settled, impute_median.
  destruct (is_number (s_dtype s)) eqn:E; [|by rewrite E].
  intros _. destruct (nums (s_values s)) as [|x xs] eqn:En.
  - right. by rewrite (median_NA s En), fillna_NA.
  - left. assert (Num x ∈ s_values s) as Hx.
    { destruct (decide (Num x ∈ s_values s)) as [|Hn]; [done|].
      assert (x ∈ nums (s_values s)) as Hin by (rewrite En; apply list_elem_of_here).
      unfold nums in Hin. apply list_elem_of_omap in Hin as (c & Hc & Hcx).
      destruct c; try done. by injection Hcx as ->. }
    destruct (median_Num s x Hx) as [m ->].
    unfold full_series. simpl. apply Forall_fmap, Forall_forall.
    intros c _. by apply fill_not_na.
Qed.

Lemma median_settled_select mask s :
  median_settled s → median_settled (select_series mask s).
Proof.
  unfold median_settled. simpl. intros Hs Hnum.
  destruct (Hs Hnum) as [Hf|Hn].
  - left. by apply full_series_select.
  - right. apply nums_nil_iff. intros x Hx%mask_select_elem_of.
    by apply (proj1 (nums_nil_iff _) Hn x).
Qed.

Lemma impute_median_id s : median_settled s → impute_median s = s.
Proof.
  unfold median_settled, impute_median.
  destruct (is_number (s_dtype s)); [|done].
  intros [Hf|Hn]; [done| |]; [by apply fillna_full|].
  by rewrite (median_NA s Hn), fillna_NA.
Qed.

Lemma impute_numeric_id d :
  Forall median_settled (df_cols d).*2 → impute_numeric d = d.
Proof.
  intros Hall. apply map_cols_id. eapply Forall_impl; [apply Hall|].
  apply impute_median_id.
Qed.

(** *** The identifier step *)

Lemma notna_all s : full_series s → Forall (λ b, b = true) (notna s).
Proof.
  unfold full_series, notna. intros Hf. apply Forall_fmap.
  eapply Forall_impl; [apply Hf|]. intros c Hc. simpl. by rewrite Hc.
Qed.

Lemma mask_select_notna vs :
  Forall (λ c, is_na c = false) (mask_select ((λ c, negb (is_na c)) <$> vs) vs).
Proof.
  induction vs as [|c vs IH]; csimpl; [constructor|].
  destruct (is_na c) eqn:E; simpl; [done|]. by constructor.
Qed.

Lemma drop_missing_settles key d : key_settled key (drop_missing key d).
Proof.
  unfold key_settled, drop_missing. intros s.
  destruct (assoc_get key (df_cols d)) as [k|] eqn:E.
  - rewrite assoc_get_df_mask, E. intros [= <-]. apply mask_select_notna.
  - by rewrite E.
Qed.

Lemma drop_missing_keeps key key' d :
  key_settled key' d → key_settled key' (drop_missing key d).
Proof.
  unfold key_settled. intros Hk s' (s & Hs & _ & _ & Hv)%drop_missing_get.
  unfold full_series. apply Forall_forall. intros c Hc%Hv.
  specialize (Hk s Hs). unfold full_series in Hk.
  rewrite Forall_forall in Hk. by apply Hk.
Qed.

Lemma drop_missing_id key d :
  shape_ok d → key_settled key d → drop_missing key d = d.
Proof.
  intros Hs Hk. unfold drop_missing.
  destruct (assoc_get key (df_cols d)) as [k|] eqn:E; [|done].
  apply df_mask_all; [done|by apply notna_all, Hk|].
  unfold notna. rewrite length_fmap.
  by rewrite (Forall_assoc_get _ _ _ _ Hs E).
Qed.

Lemma drop_identifiers_id d :
  shape_ok d → key_settled "user_id" d → key_settled "movie_id" d →
  drop_identifiers d = d.
Proof.
  intros Hs Hu Hm. unfold drop_identifiers.
  rewrite (drop_missing_id "user_id") by done. by apply drop_missing_id.
Qed.

(** *** The date step *)

Lemma date_column_cases d t :
  date_column d = Some t → t ∈ ["timestamp"; "date"; "watch_date"].
Proof.
  unfold date_column. intros Hh%head_Some_elem_of.
  by apply list_elem_of_filter in Hh as [_ Hh].
Qed.

Lemma date_column_columns d d' :
  columns d' = columns d → date_column d' = date_column d.
Proof. unfold date_column. by intros ->. Qed.

Lemma to_datetime_idem s : to_datetime (to_datetime s) = to_datetime s.
Proof.
  unfold to_datetime at 1. by rewrite decide_True by apply to_datetime_dtype.
Qed.

Lemma parse_dates_idem d : parse_dates (parse_dates d) = parse_dates d.
Proof.
  unfold parse_dates at 1.
  rewrite (date_column_columns d (parse_dates d)) by apply columns_parse_dates.
  destruct (date_column d) as [t|] eqn:Ed; [|done].
  rewrite parse_dates_get, Ed, decide_True by done.
  destruct (assoc_get t (df_cols d)) as [s|] eqn:E; [|done]. simpl.
  rewrite to_datetime_idem. unfold setitem.
  destruct (parse_dates d) as [idx cs] eqn:Ep. simpl. f_equal.
  apply assoc_set_same.
  change cs with (df_cols (mkDF idx cs)). rewrite <- Ep.
  by rewrite parse_dates_get, Ed, decide_True, E.
Qed.

Lemma parse_dates_keeps_key key d :
  key ∉ ["timestamp"; "date"; "watch_date"] →
  key_settled key d → key_settled key (parse_dates d).
Proof.
  unfold key_settled. intros Hk Hs s. rewrite parse_dates_get.
  case_decide as Hd; [|apply Hs].
  by apply date_column_cases in Hd.
Qed.

Lemma parse_dates_median_settled d :
  Forall median_settled (df_cols d).*2 →
  Forall median_settled (df_cols (parse_dates d)).*2.
Proof.
  intros Hall. unfold parse_dates. destruct (date_column d) as [t|]; [|done].
  destruct (assoc_get t (df_cols d)) as [s|]; [|done].
  unfold setitem. simpl. apply Forall_assoc_set; [|done].
  unfold median_settled. by rewrite to_datetime_dtype.
Qed.

(** *** The mode step *)

Lemma impute_mode_settles s s' : impute_mode s = Ok s' → impute_mode s' = Ok s'.
Proof.
  intros Hm. pose proof (impute_mode_dtype _ _ Hm) as Ht.
  unfold impute_mode, fill_mode in *. rewrite Ht.
  destruct (is_object (s_dtype s)); [|by injection Hm as <-].
  destruct (first_label (mode s)) as [m|] eqn:Hmode; [|done].
  injection Hm as <-.
  apply first_label_mode in Hmode as (Hin & Hna & _).
  assert (full_series (fillna s m)) as Hf.
  { unfold full_series. simpl. apply Forall_fmap, Forall_forall.
    intros c _. by apply fill_not_na. }
  destruct (mode_nonempty (fillna s m) m) as [m' ->]; [|done|].
  - simpl. apply list_elem_of_fmap. exists m. split; [|done].
    unfold fill. by rewrite Hna.
  - simpl. by rewrite (fillna_full _ m' Hf).
Qed.

Lemma impute_mode_full s s' : full_series s → impute_mode s = Ok s' → s' = s.
Proof.
  intros Hf. unfold impute_mode, fill_mode.
  destruct (is_object (s_dtype s)); [|by intros [= <-]].
  destruct (first_label (mode s)) as [m|]; [|done].
  simpl. intros [= <-]. by apply fillna_full.
Qed.

Lemma impute_mode_median_settled s s' :
  impute_mode s = Ok s' → median_settled s → median_settled s'.
Proof.
  intros Hm. pose proof (impute_mode_dtype _ _ Hm) as Ht.
  unfold impute_mode in Hm. unfold median_settled. rewrite Ht.
  destruct (s_dtype s) eqn:E; simpl in *; try done; by injection Hm as <-.
Qed.

Lemma impute_mode_length s s' :
  impute_mode s = Ok s' → length (s_values s') = length (s_values s).
Proof.
  unfold impute_mode, fill_mode. destruct (is_object _); [|by intros [= <-]].
  destruct (first_label _); [|done]. intros [= <-]. apply length_fillna.
Qed.

Lemma mapM_cols_Forall (f : Series num → result (Series num))
    (P Q : Series num → Prop) cs cs' :
  (∀ s s', f s = Ok s' → P s → Q s') →
  mapM_cols f cs = Ok cs' → Forall P cs.*2 → Forall Q cs'.*2.
Proof.
  intros Hf. revert cs'. induction cs as [|[c s] cs IH]; intros cs'; csimpl.
  { intros [= <-] _. constructor. }
  destruct (f s) as [s1|] eqn:E; [|done]. csimpl.
  destruct (mapM_cols f cs) as [cs1|]; [|done]. csimpl.
  intros [= <-] [Hs Hcs]%Forall_cons. csimpl. constructor; eauto.
Qed.

Lemma impute_text_Forall (P Q : Series num → Prop) d out :
  (∀ s s', impute_mode s = Ok s' → P s → Q s') →
  impute_text d = Ok out →
  Forall P (df_cols d).*2 → Forall Q (df_cols out).*2.
Proof.
  intros Hf. unfold impute_text.
  destruct (mapM_cols _ _) as [cs|] eqn:E; [|done]. intros [= <-]. simpl.
  by apply (mapM_cols_Forall _ _ _ _ _ Hf E).
Qed.

Lemma impute_text_columns d out : impute_text d = Ok out → columns out = columns d.
Proof.
  unfold impute_text. destruct (mapM_cols _ _) as [cs|] eqn:E; [|done].
  intros [= <-]. by apply mapM_cols_names in E.
Qed.

Lemma impute_text_full d out : full d → impute_text d = Ok out → out = d.
Proof.
  unfold full, impute_text. destruct d as [idx cs]. simpl. intros Hf.
  destruct (mapM_cols impute_mode cs) as [cs'|] eqn:E; [|done].
  intros [= <-]. f_equal. revert cs' E.
  induction cs as [|[c s] cs IH]; intros cs'; csimpl.
  { by intros [= <-]. }
  rewrite fmap_cons in Hf. apply Forall_cons in Hf as [Hs Hcs].
  destruct (impute_mode s) as [s1|] eqn:Es; [|done]. csimpl.
  destruct (mapM_cols impute_mode cs) as [cs1|]; [|done]. csimpl.
  intros [= <-]. rewrite (impute_mode_full s s1) by done.
  by rewrite (IH Hcs cs1).
Qed.

Lemma impute_text_id d :
  Forall (λ s, impute_mode s = Ok s) (df_cols d).*2 → impute_text d = Ok d.
Proof.
  intros Hall. unfold impute_text. rewrite mapM_cols_id by done.
  by destruct d.
Qed.

(** *** Renaming and duplicate removal *)

Lemma rename_id d :
  Forall (λ c, normalize_name c = c) (columns d) → rename d = d.
Proof.
  destruct d as [idx cs]. unfold rename, columns. simpl. intros Hall. f_equal.
  induction cs as [|[c s] cs IH]; [done|].
  rewrite fmap_cons in Hall. apply Forall_cons in Hall as [Hc Hcs].
  rewrite fmap_cons. f_equal; [|by apply IH].
  unfold prod_map. simpl in *. by rewrite Hc.
Qed.

Lemma drop_duplicates_id d :
  shape_ok d → NoDup (rows d) → drop_duplicates d = d.
Proof.
  intros Hs Hnd. unfold drop_duplicates. apply df_mask_all; [done| |].
  - apply duplicated_from_NoDup; [done|]. intros x _. apply not_elem_of_nil.
  - unfold duplicated. by rewrite length_fmap, length_duplicated_from, length_rows.
Qed.

Lemma prepared_id d :
  shape_ok d → NoDup (rows d) →
  Forall (λ c, normalize_name c = c) (columns d) → prepared d = d.
Proof.
  intros Hs Hnd Hc. unfold prepared. rewrite rename_id by done.
  by apply drop_duplicates_id.
Qed.

Lemma normalized_names `{!LowerLaws} (names : list string) :
  Forall (λ c, normalize_name c = c) (normalize_name <$> names).
Proof.
  apply Forall_fmap, Forall_forall. intros c _. apply normalize_name_idem.
Qed.
End settled.

(** ** Where the rows of the output come from *)

Section more_masks.
Context {A : Type}.
Implicit Types (mask : list bool) (l : list A).

Lemma sublist_mask_select mask l : mask_select mask l `sublist_of` l.
Proof.
  revert l. induction mask as [|b mask IH]; intros [|x l]; simpl;
    try apply sublist_nil_l.
  destruct b; [by apply sublist_skip|by apply sublist_cons].
Qed.
End more_masks.

Section origin.
Context {num : Type} `{!Numeric num} `{!DatetimeParser} `{!Lower}.
Implicit Types (d out : DataFrame num) (s : Series num) (idx : list nat)
  (vs : list (cell num)).

Lemma zip_with_cons_head (c : list (cell num)) (R : list (list (cell num))) :
  length R = length c →
  (λ r : list (cell num), r !! 0) <$> zip_with cons c R = Some <$> c.
Proof.
  revert R. induction c as [|v c IH]; intros [|r R]; csimpl; try done.
  intros [= Hl]. by rewrite IH.
Qed.

Lemma zip_with_cons_tail (c : list (cell num)) (R : list (list (cell num))) j :
  length R = length c →
  (λ r : list (cell num), r !! S j) <$> zip_with cons c R
  = (λ r : list (cell num), r !! j) <$> R.
Proof.
  revert R. induction c as [|v c IH]; intros [|r R]; csimpl; try done.
  intros [= Hl]. by rewrite IH.
Qed.

(** the entries of column [j], read off the rows *)
Lemma column_of_rows n (cs : list (list (cell num))) j c :
  Forall (λ c, length c = n) cs → cs !! j = Some c →
  (λ r : list (cell num), r !! j) <$> rows_of n cs = Some <$> c.
Proof.
  intros Hall. revert j. induction Hall as [|c0 cs Hc0 Hall IH]; intros j.
  { done. }
  assert (length (rows_of n cs) = length c0) as Hlen
    by by rewrite length_rows_of.
  change (rows_of n (c0 :: cs)) with (zip_with cons c0 (rows_of n cs)).
  destruct j as [|j]; simpl.
  - intros [= <-]. by apply zip_with_cons_head.
  - intros Hj. rewrite zip_with_cons_tail by done. by apply IH.
Qed.

Lemma df_index_drop_missing key d :
  df_index (drop_missing key d) `sublist_of` df_index d.
Proof.
  unfold drop_missing. destruct (assoc_get _ _); [|done].
  apply sublist_mask_select.
Qed.

Lemma df_index_prepared d : df_index (prepared d) = df_index (drop_duplicates d).
Proof. unfold prepared. by rewrite <- rename_drop_duplicates. Qed.

Lemma zip_lookup idx vs a v :
  (a, v) ∈ zip idx vs ↔ ∃ p, idx !! p = Some a ∧ vs !! p = Some v.
Proof.
  split.
  - intros (p & x & y & [= -> ->] & Hx & Hy)%elem_of_lookup_zip_with. eauto.
  - intros (p & Hx & Hy). apply elem_of_lookup_zip_with. by exists p, a, v.
Qed.

Lemma zip_functional idx vs a v w :
  NoDup idx → (a, v) ∈ zip idx vs → (a, w) ∈ zip idx vs → v = w.
Proof.
  intros Hnd (p & Hp & Hv)%zip_lookup (q & Hq & Hw)%zip_lookup.
  assert (p = q) as -> by by eapply NoDup_lookup.
  congruence.
Qed.

Lemma zip_total idx vs a :
  a ∈ idx → length vs = length idx → ∃ v, (a, v) ∈ zip idx vs.
Proof.
  intros [p Hp]%list_elem_of_lookup Hl.
  destruct (lookup_lt_is_Some_2 vs p) as [v Hv].
  { rewrite Hl. by eapply lookup_lt_Some. }
  exists v. apply zip_lookup. eauto.
Qed.

(** entry [k] of row [i] is entry [i] of column [k] *)
Lemma row_entry d k col s i r :
  shape_ok d → df_cols d !! k = Some (col, s) → rows d !! i = Some r →
  r !! k = s_values s !! i.
Proof.
  intros Hs Hk Hi. unfold rows in Hi.
  pose proof (column_of_rows (length (df_index d))
                (s_values <$> (df_cols d).*2) k (s_values s)) as Hc.
  assert (Some (r !! k) = Some <$> (s_values s !! i)) as Heq.
  { rewrite <- !list_lookup_fmap, <- Hc.
    - by rewrite list_lookup_fmap, Hi.
    - apply Forall_fmap. eapply Forall_impl; [apply Hs|]. done.
    - by rewrite !list_lookup_fmap, Hk. }
  destruct (s_values s !! i); simpl in Heq; congruence.
Qed.

(** rows with distinct labels that differ in some column are distinct *)
Lemma NoDup_rows d :
  shape_ok d → NoDup (df_index d) →
  (∀ a b, a ∈ df_index d → b ∈ df_index d → a ≠ b →
     ∃ col s v1 v2, assoc_get col (df_cols d) = Some s
       ∧ (a, v1) ∈ zip (df_index d) (s_values s)
       ∧ (b, v2) ∈ zip (df_index d) (s_values s) ∧ v1 ≠ v2) →
  NoDup (rows d).
Proof.
  intros Hs Hnd Hap. apply NoDup_alt. intros i j r Hi Hj.
  destruct (decide (i = j)) as [|Hne]; [done|]. exfalso.
  pose proof (length_rows d Hs) as Hlen.
  destruct (lookup_lt_is_Some_2 (df_index d) i) as [a Ha].
  { rewrite <- Hlen. by eapply lookup_lt_Some. }
  destruct (lookup_lt_is_Some_2 (df_index d) j) as [b Hb].
  { rewrite <- Hlen. by eapply lookup_lt_Some. }
  assert (a ≠ b) as Hab.
  { intros ->. apply Hne. by eapply NoDup_lookup. }
  destruct (Hap a b) as (col & s & v1 & v2 & Hget & H1 & H2 & Hv);
    [by eapply list_elem_of_lookup_2..|done|].
  apply zip_lookup in H1 as (p & Hp & Hv1).
  assert (p = i) as -> by by eapply NoDup_lookup.
  apply zip_lookup in H2 as (q & Hq & Hv2).
  assert (q = j) as -> by by eapply NoDup_lookup.
  apply assoc_get_elem_of, list_elem_of_lookup in Hget as [k Hk].
  pose proof (row_entry d k col s i r Hs Hk Hi) as E1.
  pose proof (row_entry d k col s j r Hs Hk Hj) as E2.
  congruence.
Qed.

Lemma impute_median_entries idx s i v :
  (i, v) ∈ zip idx (s_values (impute_median s)) →
  ∃ v0, (i, v0) ∈ zip idx (s_values s) ∧ (v0 ≠ NA → v = v0).
Proof.
  unfold impute_median. destruct (is_number (s_dtype s)); simpl.
  - intros (v0 & Hv0 & ->)%elem_of_zip_fmap_r.
    exists v0. split; [done|]. by destruct v0.
  - intros Hin. by exists v.
Qed.

Lemma impute_mode_entries idx s s' i v :
  impute_mode s = Ok s' → (i, v) ∈ zip idx (s_values s') →
  ∃ v0, (i, v0) ∈ zip idx (s_values s) ∧ (v0 ≠ NA → v = v0).
Proof.
  unfold impute_mode, fill_mode. destruct (is_object (s_dtype s)).
  - destruct (first_label (mode s)) as [m|]; [|done]. simpl.
    intros [= <-]. simpl. intros (v0 & Hv0 & ->)%elem_of_zip_fmap_r.
    exists v0. split; [done|]. by destruct v0.
  - intros [= <-] Hin. by exists v.
Qed.

(** Each entry of the output is the entry that its row has after the
    duplicate removal, unless that entry is missing or in the column of
    the dates. *)
Lemma output_entries d out col s' :
  NoDup (normalize_name <$> columns d) →
  (byyy.normalize d = Ok out ∧ date_column (prepared d) ≠ Some col)
  ∨ hii.normalize d = Ok out →
  assoc_get col (df_cols out) = Some s' →
  ∃ s, assoc_get col (df_cols (prepared d)) = Some s
       ∧ ∀ i v, (i, v) ∈ zip (df_index out) (s_values s') →
           ∃ v0, (i, v0) ∈ zip (df_index (prepared d)) (s_values s)
                 ∧ (v0 ≠ NA → v = v0).
Proof.
  intros Hnd Hrun Hget. destruct Hrun as [[Hrun Hdate]|Hrun].
  - rewrite byyy_normalize_columnwise in Hrun by done. injection Hrun as <-.
    rewrite parse_dates_get in Hget. rewrite df_index_parse_dates.
    rewrite decide_False in Hget.
    2:{ rewrite (date_column_columns (prepared d)); [done|].
        rewrite columns_drop_identifiers. unfold impute_numeric.
        by rewrite columns_map_cols. }
    apply drop_identifiers_get in Hget as (sy & Hsy & _ & Hz & _).
    unfold impute_numeric in Hsy. rewrite assoc_get_map_cols in Hsy.
    destruct (assoc_get col (df_cols (prepared d))) as [s|]; [|done].
    injection Hsy as <-. exists s. split; [done|].
    intros i v Hin. apply Hz in Hin. by apply impute_median_entries in Hin.
  - rewrite hii_normalize_columnwise in Hrun by done.
    rewrite (impute_text_index _ _ Hrun).
    destruct (impute_text_get _ _ _ _ Hrun Hget) as (sy & Hsy & Hm).
    unfold impute_numeric in Hsy. rewrite assoc_get_map_cols in Hsy.
    destruct (assoc_get col (df_cols (prepared d))) as [s|]; [|done].
    injection Hsy as <-. exists s. split; [done|].
    intros i v Hin.
    destruct (impute_mode_entries _ _ _ i v Hm Hin) as (v1 & Hv1 & H1).
    destruct (impute_median_entries _ _ _ _ Hv1) as (v0 & Hv0 & H0').
    exists v0. split; [done|]. intros Hne.
    specialize (H0' Hne). subst v1. by apply H1.
Qed.

(** The rows of the output are rows left by the duplicate removal; the
    output has the shape and the labels of a frame. *)
Lemma output_frame d out :
  NoDup (normalize_name <$> columns d) → shape_ok d →
  byyy.normalize d = Ok out ∨ hii.normalize d = Ok out →
  df_index out `sublist_of` df_index (prepared d)
  ∧ (hii.normalize d = Ok out → df_index out = df_index (prepared d))
  ∧ shape_ok out ∧ columns out = columns (prepared d).
Proof.
  intros Hnd Hshape Hrun.
  pose proof (shape_ok_map_cols impute_median _ length_impute_median
                (shape_ok_prepared d Hshape)) as HshY.
  fold (impute_numeric (prepared d)) in HshY.
  assert (hii.normalize d = Ok out →
          df_index out = df_index (prepared d) ∧ shape_ok out
          ∧ columns out = columns (prepared d)) as Hhii.
  { intros Hr. rewrite hii_normalize_columnwise in Hr by done.
    split; [by rewrite (impute_text_index _ _ Hr)|]. split.
    - unfold shape_ok. rewrite (impute_text_index _ _ Hr).
      eapply (impute_text_Forall
                (λ s, length (s_values s)
                      = length (df_index (impute_numeric (prepared d)))));
        [|apply Hr|apply HshY].
      intros s s' Hm <-. by apply impute_mode_length.
    - rewrite (impute_text_columns _ _ Hr). unfold impute_numeric.
      by rewrite columns_map_cols. }
  destruct Hrun as [Hrun|Hrun].
  - split; [|split; [by intros (? & _)%Hhii|]].
    + rewrite byyy_normalize_columnwise in Hrun by done. injection Hrun as <-.
      rewrite df_index_parse_dates. unfold drop_identifiers.
      etrans; [apply df_index_drop_missing|].
      apply (df_index_drop_missing "user_id" (impute_numeric (prepared d))).
    + rewrite byyy_normalize_columnwise in Hrun by done. injection Hrun as <-.
      split.
      * by apply shape_ok_parse_dates, shape_ok_drop_missing,
          shape_ok_drop_missing.
      * rewrite columns_parse_dates, columns_drop_identifiers.
        unfold impute_numeric. by rewrite columns_map_cols.
  - destruct (Hhii Hrun) as (Hidx & Hsh & Hcols).
    split; [by rewrite Hidx|]. done.
Qed.

(** what the rows lose with their later copies *)
Lemma rows_prepared d :
  rows (prepared d) = first_occurrences (rows d)
  ∧ NoDup (rows (prepared d))
  ∧ ∀ l1 r l2 l3, rows d = l1 ++ r :: l2 ++ r :: l3 →
                  NoDup (l1 ++ r :: l2 ++ l3) →
                  rows (prepared d) = l1 ++ r :: l2 ++ l3.
Proof.
  assert (rows (prepared d) = first_occurrences (rows d)) as Hrows.
  { unfold prepared. by rewrite rows_drop_duplicates, rows_rename. }
  rewrite Hrows. split; [done|]. split; [apply NoDup_kept|].
  intros l1 r l2 l3 -> Hnd'. unfold first_occurrences.
  change (kept [] (l1 ++ r :: l2 ++ r :: l3) = l1 ++ r :: l2 ++ l3).
  replace (l1 ++ r :: l2 ++ r :: l3) with ((l1 ++ r :: l2) ++ r :: l3)
    by by rewrite <- app_assoc.
  replace (l1 ++ r :: l2 ++ l3) with ((l1 ++ r :: l2) ++ l3) in *
    by by rewrite <- app_assoc.
  apply kept_one_repeat; [done| |].
  - intros x _. apply not_elem_of_nil.
  - simpl. apply elem_of_app. right. in_list.
Qed.

(** with nothing missing and no dates, the later steps change nothing *)
Lemma output_without_missing d out :
  NoDup (normalize_name <$> columns d) → shape_ok d → full d →
  (byyy.normalize d = Ok out
   ∧ ∀ t, t ∈ ["timestamp"; "date"; "watch_date"] →
          t ∉ normalize_name <$> columns d)
  ∨ hii.normalize d = Ok out →
  out = prepared d.
Proof.
  intros Hnd Hshape Hfull Hrun.
  pose proof (full_prepared d Hfull) as Hp.
  assert (impute_numeric (prepared d) = prepared d) as Himp.
  { apply impute_numeric_id. eapply Forall_impl; [apply Hp|].
    intros s Hs _. by left. }
  destruct Hrun as [[Hrun Hdate]|Hrun].
  - rewrite byyy_normalize_columnwise, Himp in Hrun by done.
    injection Hrun as <-.
    rewrite drop_identifiers_id.
    + unfold parse_dates, date_column. rewrite columns_prepared.
      rewrite !filter_cons, filter_nil.
      by rewrite !decide_False by (apply Hdate; in_list).
    + by apply shape_ok_prepared.
    + intros s Hs. apply (Forall_assoc_get _ _ _ _ Hp Hs).
    + intros s Hs. apply (Forall_assoc_get _ _ _ _ Hp Hs).
  - rewrite hii_normalize_columnwise, Himp in Hrun by done.
    by apply impute_text_full in Hrun.
Qed.

(** rows that are apart after the duplicate removal stay distinct *)
Lemma apart_NoDup_rows d out :
  NoDup (normalize_name <$> columns d) → NoDup (df_index d) → shape_ok d →
  (byyy.normalize d = Ok out ∧ apart (date_column (prepared d)) (prepared d))
  ∨ (hii.normalize d = Ok out ∧ apart None (prepared d)) →
  NoDup (rows out).
Proof.
  intros Hnd Hidx Hshape Hrun.
  assert (byyy.normalize d = Ok out ∨ hii.normalize d = Ok out) as Hrun'
    by (destruct Hrun as [[? _]|[? _]]; auto).
  destruct (output_frame d out Hnd Hshape Hrun') as (Hsub & _ & Hsh & Hcols).
  assert (NoDup (df_index (prepared d))) as Hidx'.
  { rewrite df_index_prepared. eapply sublist_NoDup; [apply Hidx|].
    apply sublist_mask_select. }
  apply NoDup_rows; [done|by eapply sublist_NoDup|].
  intros a b Ha Hb Hab.
  assert (∃ col s c1 c2,
            assoc_get col (df_cols (prepared d)) = Some s
            ∧ ((byyy.normalize d = Ok out
                ∧ date_column (prepared d) ≠ Some col)
               ∨ hii.normalize d = Ok out)
            ∧ (a, c1) ∈ zip (df_index (prepared d)) (s_values s)
            ∧ (b, c2) ∈ zip (df_index (prepared d)) (s_values s)
            ∧ c1 ≠ c2 ∧ c1 ≠ NA ∧ c2 ≠ NA)
    as (col & s & c1 & c2 & Hs & Hcase & H1 & H2 & Hne & Hn1 & Hn2).
  { destruct Hrun as [[Hr Hap]|[Hr Hap]];
      destruct (Hap a b) as (col & s & c1 & c2 & Hs & Hk & Hrest);
      try (by eapply elem_of_sublist); try done;
      exists col, s, c1, c2; (split; [done|]); (split; [|done]); auto. }
  assert (col ∈ columns out) as Hin.
  { rewrite Hcols. apply list_elem_of_fmap. exists (col, s).
    split; [done|]. by apply assoc_get_elem_of. }
  destruct (assoc_get_is_Some col (df_cols out) Hin) as [s' Hs'].
  assert (length (s_values s') = length (df_index out)) as Hlen
    by apply (Forall_assoc_get _ _ _ _ Hsh Hs').
  destruct (zip_total (df_index out) (s_values s') a Ha Hlen) as [v1 Hv1].
  destruct (zip_total (df_index out) (s_values s') b Hb Hlen) as [v2 Hv2].
  exists col, s', v1, v2. split; [done|]. split; [done|]. split; [done|].
  destruct (output_entries d out col s' Hnd Hcase Hs') as (s0 & Hs0 & Hent).
  assert (s0 = s) as -> by congruence.
  destruct (Hent a v1 Hv1) as (w1 & Hw1 & Hk1).
  destruct (Hent b v2 Hv2) as (w2 & Hw2 & Hk2).
  assert (w1 = c1) as -> by by eapply zip_functional.
  assert (w2 = c2) as -> by by eapply zip_functional.
  rewrite (Hk1 Hn1), (Hk2 Hn2). done.
Qed.
End origin.

(** * The claims *)

Section claims.
Context {num : Type} `{!Numeric num} `{!DatetimeParser} `{!Lower}.
Implicit Types (d out : DataFrame num) (s : Series num).

(** C7. Both routines give every column the name
    [c.strip().lower().replace(" ", "_")] of its original name [c], in the
    original order; [" Movie ID "] becomes ["movie_id"], and the white
    space that is trimmed is that of Unicode: a no-break space before
    ["Watch Date"] and an ideographic space after it go as well. *)
Theorem column_names_normalized `{!LowerLaws} d out :
  byyy.normalize d = Ok out ∨ hii.normalize d = Ok out →
  columns out = normalize_name <$> columns d
  ∧ normalize_name " Movie ID " = "movie_id"
  ∧ normalize_name (nbsp +:+ "Watch Date" +:+ wide_space) = "watch_date".
Proof.
  intros Hrun. split.
  2:{ unfold normalize_name. split.
      - change (strip " Movie ID ") with "Movie ID".
        by rewrite lower_on_ascii.
      - assert (strip (nbsp +:+ "Watch Date" +:+ wide_space) = "Watch Date")
          as -> by (vm_compute; reflexivity).
        by rewrite lower_on_ascii. }
  rewrite <- columns_prepared.
  destruct Hrun as [Hrun|Hrun].
  - rewrite byyy_normalize_steps in Hrun.
    destruct (median_loop_total (prepared d)) as (c & Hc & Hcols & _).
    rewrite Hc in Hrun. injection Hrun as <-.
    by rewrite columns_parse_dates, columns_drop_identifiers.
  - rewrite hii_normalize_steps in Hrun.
    destruct (median_loop_total (prepared d)) as (c & Hc & Hcols & _).
    rewrite Hc in Hrun. simpl in Hrun.
    apply (foldM_update_keeps _ (λ _, True)) in Hrun as (-> & _); done.
Qed.

(** C9. Neither routine changes a frame that was in the store before the
    call, its argument included: they work on a copy. *)
Theorem clean_data_keeps_store (h : heap) (l k : loc) d :
  h !! k = Some d →
  (byyy.clean_data l h).2 !! k = Some d
  ∧ (hii.clean_data l h).2 !! k = Some d.
Proof.
  intros Hk. destruct (h !! l) as [d0|] eqn:Hl.
  - destruct (byyy_clean_data_run h l d0 Hl) as (c & t & _ & ->).
    destruct (hii_clean_data_run h l d0 Hl) as (c1 & c2 & _ & -> & _).
    simpl. rewrite <- !app_assoc. split; by apply lookup_app_l_Some.
  - unfold byyy.clean_data, hii.clean_data.
    by rewrite !bind_run, !(df_copy_dangling h l Hl).
Qed.

(** C10. On frames with numeric columns only and none of the labels
    user_id, movie_id, timestamp, date, watch_date, the two routines return
    the same; renaming and dropping duplicates commute. *)
Theorem variants_agree_on_numeric_frames d :
  Forall (λ s, is_number (s_dtype s) = true) (df_cols d).*2 →
  (∀ key, key ∈ ["user_id"; "movie_id"; "timestamp"; "date"; "watch_date"] →
          key ∉ normalize_name <$> columns d) →
  byyy.normalize d = hii.normalize d
  ∧ rename (drop_duplicates d) = drop_duplicates (rename d).
Proof.
  intros Hnum Hkeys. split; [|apply rename_drop_duplicates].
  rewrite byyy_normalize_steps, hii_normalize_steps.
  destruct (median_loop_total (prepared d)) as (c & Hc & Hcols & _).
  rewrite Hc. simpl. rewrite columns_prepared in Hcols.
  assert (Forall (λ s, is_number (s_dtype s) = true) (df_cols c).*2) as Hnum'.
  { eapply (foldM_update_keeps _ (λ s, is_number (s_dtype s) = true)) in Hc
      as (_ & _ & Hall).
    - apply Hall. by apply (Forall_prepared (λ t, is_number t = true)).
    - by intros s s' [= <-]. }
  unfold drop_identifiers.
  rewrite (drop_missing_absent "user_id"), (drop_missing_absent "movie_id");
    try (rewrite Hcols; apply Hkeys; in_list).
  unfold parse_dates, date_column. rewrite Hcols.
  rewrite !filter_cons, filter_nil.
  rewrite !decide_False by (apply Hkeys; in_list). simpl.
  unfold mode_loop. rewrite select_dtypes_nil; [done|].
  eapply Forall_impl; [apply Hnum'|]. intros s Hs. simpl in Hs.
  by destruct (s_dtype s).
Qed.

(** C3, as the code has it. Every entry of a numeric column of the output
    is the entry the same row has once the duplicates are dropped, with a
    missing entry replaced by the median of the non-missing entries of that
    column (taken over the rows left after the duplicates are dropped);
    when the column has a non-missing entry none is missing afterwards.  A
    column with no entry at all keeps its missing entries. *)
Theorem numeric_imputation d out :
  valid d = true →
  byyy.normalize d = Ok out ∨ hii.normalize d = Ok out →
  ∀ col s', assoc_get col (df_cols out) = Some s' →
            is_number (s_dtype s') = true →
    ∃ s, assoc_get col (df_cols (prepared d)) = Some s
         ∧ (∀ i v, (i, v) ∈ zip (df_index out) (s_values s') →
              ∃ v0, (i, v0) ∈ zip (df_index (prepared d)) (s_values s)
                    ∧ v = fill (median s) v0)
         ∧ ((∃ x, Num x ∈ s_values s) → NA ∉ s_values s').
Proof.
  intros (Hnd & _ & _)%valid_inv Hrun col s' Hget Hnum.
  assert (∃ sy, assoc_get col (df_cols (impute_numeric (prepared d))) = Some sy
                ∧ sub_series (df_index out) s'
                    (df_index (prepared d)) sy) as (sy & Hsy & Hsub).
  { destruct Hrun as [Hrun|Hrun].
    - rewrite byyy_normalize_columnwise in Hrun by done. injection Hrun as <-.
      rewrite parse_dates_get in Hget. rewrite df_index_parse_dates.
      case_decide as Hd.
      + destruct (assoc_get col _) as [s0|]; [|done]. injection Hget as <-.
        by rewrite to_datetime_dtype in Hnum.
      + by apply drop_identifiers_get in Hget.
    - rewrite hii_normalize_columnwise in Hrun by done.
      rewrite (impute_text_index _ _ Hrun).
      destruct (impute_text_get _ _ _ _ Hrun Hget) as (sy & Hsy & Hm).
      exists sy. split; [done|].
      pose proof (impute_mode_dtype _ _ Hm) as Ht.
      unfold impute_mode in Hm. rewrite <- Ht in Hm.
      destruct (s_dtype s'); try done; injection Hm as <-;
        apply sub_series_refl. }
  unfold impute_numeric in Hsy. rewrite assoc_get_map_cols in Hsy.
  destruct (assoc_get col (df_cols (prepared d))) as [s|]; [|done].
  injection Hsy as <-. exists s. split; [done|].
  destruct Hsub as (Ht & Hz & Hv).
  assert (is_number (s_dtype s) = true) as Hs.
  { rewrite Ht in Hnum. unfold impute_median in Hnum.
    destruct (is_number (s_dtype s)) eqn:E; [done|]. congruence. }
  unfold impute_median in Hz, Hv. rewrite Hs in Hz, Hv. split.
  - intros i v Hin. apply Hz in Hin. by apply elem_of_zip_fmap_r in Hin.
  - intros [x Hx] Hna. destruct (median_Num s x Hx) as [m Hm].
    apply Hv in Hna. rewrite Hm in Hna. simpl in Hna.
    apply list_elem_of_fmap in Hna as (v0 & Hv0 & _).
    by destruct v0.
Qed.


(** C5, as the code has it. In the output of variant B every text column
    is the column of the frame without duplicates with each missing entry
    replaced by the mode of the column: a non-missing value that no other
    value outnumbers and that is, among the values as frequent as it, the
    least in sorted order (not the one met first).  No entry of a text
    column is missing afterwards. *)
Theorem text_imputation d out :
  valid d = true →
  hii.normalize d = Ok out →
  df_index out = df_index (prepared d)
  ∧ ∀ col s', assoc_get col (df_cols out) = Some s' → s_dtype s' = Object →
      ∃ s m, assoc_get col (df_cols (prepared d)) = Some s
             ∧ s_values s' = fill m <$> s_values s
             ∧ m ∈ s_values s ∧ m ≠ NA
             ∧ (∀ v, v ∈ s_values s → v ≠ NA →
                  count v (s_values s) ≤ count m (s_values s)
                  ∧ (count v (s_values s) = count m (s_values s) → cell_le m v))
             ∧ NA ∉ s_values s'.
Proof.
  intros (Hnd & _ & _)%valid_inv Hrun.
  rewrite hii_normalize_columnwise in Hrun by done.
  split; [by rewrite (impute_text_index _ _ Hrun)|].
  intros col s' Hget Hobj.
  destruct (impute_text_get _ _ _ _ Hrun Hget) as (sy & Hsy & Hm).
  unfold impute_numeric in Hsy. rewrite assoc_get_map_cols in Hsy.
  destruct (assoc_get col (df_cols (prepared d))) as [s|]; [|done].
  injection Hsy as <-.
  pose proof (impute_mode_dtype _ _ Hm) as Ht. rewrite Hobj in Ht.
  assert (s_dtype s = Object ∧ impute_median s = s) as [Hs Hid].
  { unfold impute_median in *. destruct (is_number (s_dtype s)) eqn:E; [|done].
    simpl in Ht. rewrite <- Ht in E. done. }
  rewrite Hid in Hm.
  unfold impute_mode, fill_mode in Hm. rewrite Hs in Hm. simpl in Hm.
  destruct (first_label (mode s)) as [m|] eqn:Hmode; [|done].
  injection Hm as <-.
  apply first_label_mode in Hmode as (Hin & Hna & Hmost).
  exists s, m. split; [done|]. split; [done|]. split; [done|].
  split; [by destruct m|]. split.
  - intros v Hv Hvna. apply Hmost; [done|]. by destruct v.
  - simpl. intros (v0 & Hv0 & _)%list_elem_of_fmap.
    pose proof (fill_not_na m v0 Hna) as Hf. rewrite <- Hv0 in Hf. done.
Qed.

(** C6. Variant A converts one column: the first of timestamp, date,
    watch_date that is a label.  The rows and every other column stay as
    they are after the identifier step; the converted column holds
    datetimes and missing entries only: a string becomes the date the
    parser reads in it, a number the date it counts the nanoseconds of, and
    a string the parser rejects becomes a missing entry, as a boolean does
    and as a missing entry stays.  No error is raised. *)
Theorem date_parsing d :
  valid d = true →
  let e := drop_identifiers (impute_numeric (prepared d)) in
  ∃ out, byyy.normalize d = Ok out
    ∧ df_index out = df_index e ∧ columns out = columns e
    ∧ date_column e
      = head (filter (λ t, t ∈ normalize_name <$> columns d)
                ["timestamp"; "date"; "watch_date"])
    ∧ ∀ col s, assoc_get col (df_cols e) = Some s →
        if decide (date_column e = Some col)
        then ∃ s', assoc_get col (df_cols out) = Some s'
               ∧ s_dtype s' = Datetime64
               ∧ length (s_values s') = length (s_values s)
               ∧ (s_dtype s = Datetime64 → s' = s)
               ∧ (s_dtype s ≠ Datetime64 →
                  Forall (λ c, match c with NA | Date _ => True | _ => False end)
                    (s_values s')
                  ∧ (∀ i str,
                      s_values s !! i = Some (Str str) →
                      parse_datetime (strings_of (s_values s)) str = None →
                      s_values s' !! i = Some NA)
                  ∧ (∀ i str ns,
                      s_values s !! i = Some (Str str) →
                      parse_datetime (strings_of (s_values s)) str = Some ns →
                      s_values s' !! i = Some (Date ns))
                  ∧ (∀ i x ns,
                      s_values s !! i = Some (Num x) →
                      num_to_ns x = Some ns →
                      s_values s' !! i = Some (Date ns))
                  ∧ (∀ i c, s_values s !! i = Some c →
                            match c with NA | Flag _ => True | _ => False end →
                            s_values s' !! i = Some NA))
        else assoc_get col (df_cols out) = Some s.
Proof.
  intros Hv e. pose proof Hv as (Hnd & _ & _)%valid_inv.
  exists (parse_dates e). split; [by apply byyy_normalize_columnwise|].
  split; [apply df_index_parse_dates|]. split; [apply columns_parse_dates|].
  split.
  { unfold date_column, e.
    rewrite columns_drop_identifiers. unfold impute_numeric.
    by rewrite columns_map_cols, columns_prepared. }
  intros col s Hs. rewrite parse_dates_get, Hs. case_decide as Hd; [|done].
  exists (to_datetime s). split; [done|]. split; [apply to_datetime_dtype|].
  split; [apply length_to_datetime|]. unfold to_datetime. split.
  - intros Ht. by rewrite decide_True.
  - intros Ht. rewrite decide_False by done. simpl. split.
    + apply Forall_fmap, Forall_forall. intros c _.
      unfold coerce_datetime.
      destruct c as [|x| |str|]; simpl; try done.
      * by destruct (num_to_ns x).
      * by destruct (parse_datetime _ str).
    + split; [|split; [|split]].
      * intros i str Hi Hp. rewrite list_lookup_fmap, Hi. simpl. by rewrite Hp.
      * intros i str ns Hi Hp. rewrite list_lookup_fmap, Hi. simpl.
        by rewrite Hp.
      * intros i x ns Hi Hp. rewrite list_lookup_fmap, Hi. simpl.
        by rewrite Hp.
      * intros i c Hi Hc. rewrite list_lookup_fmap, Hi. by destruct c.
Qed.


(** C8, as the code has it. The duplicates are removed before the
    imputation and the date parsing.  Right after that step no two rows are
    equal and the first row of each group of equal rows is the one kept, so
    that a frame whose only repetition is one row occurring twice loses
    exactly the second copy.  Every row of the output comes from a row left
    by that step, and outside the column of the dates each entry is the
    entry of that row unless it was missing.  So the later steps make rows
    equal only by filling missing entries or by parsing dates: when any two
    rows left by the duplicate removal differ, in a column other than that
    of the dates, in entries that are both there, no two rows of the output
    are equal.  With no missing entry at all (and, for variant A, none of
    the labels timestamp, date, watch_date) the rows of the output are the
    rows of the input without the later copies. *)
Theorem no_duplicates_when_rows_stay_apart d out :
  valid d = true →
  byyy.normalize d = Ok out ∨ hii.normalize d = Ok out →
  let e := prepared d in
  (rows e = first_occurrences (rows d)
   ∧ NoDup (rows e)
   ∧ ∀ l1 r l2 l3, rows d = l1 ++ r :: l2 ++ r :: l3 →
                   NoDup (l1 ++ r :: l2 ++ l3) →
                   rows e = l1 ++ r :: l2 ++ l3)
  ∧ (df_index out `sublist_of` df_index e
     ∧ (hii.normalize d = Ok out → df_index out = df_index e)
     ∧ ∀ col s', assoc_get col (df_cols out) = Some s' →
         (byyy.normalize d = Ok out → date_column e ≠ Some col) →
         ∃ s, assoc_get col (df_cols e) = Some s
              ∧ ∀ i v, (i, v) ∈ zip (df_index out) (s_values s') →
                  ∃ v0, (i, v0) ∈ zip (df_index e) (s_values s)
                        ∧ (v0 ≠ NA → v = v0))
  ∧ (byyy.normalize d = Ok out → apart (date_column e) e → NoDup (rows out))
  ∧ (hii.normalize d = Ok out → apart None e → NoDup (rows out))
  ∧ (no_missing d = true →
     (byyy.normalize d = Ok out →
      ∀ t, t ∈ ["timestamp"; "date"; "watch_date"] →
           t ∉ normalize_name <$> columns d) →
     rows out = first_occurrences (rows d)).
Proof.
  intros (Hnd & Hidx & Hshape)%valid_inv Hrun e.
  split; [apply rows_prepared|].
  destruct (output_frame d out Hnd Hshape Hrun) as (Hsub & Heq & _ & _).
  split.
  { split; [done|]. split; [done|]. intros col s' Hs' Hdate.
    apply (output_entries d out col s' Hnd); [|done].
    destruct Hrun as [Hr|Hr]; [left|right]; auto. }
  split.
  { intros Hr Hap. apply (apart_NoDup_rows d out); auto. }
  split.
  { intros Hr Hap. apply (apart_NoDup_rows d out); auto. }
  intros Hfull%no_missing_full Hdate.
  rewrite (output_without_missing d out Hnd Hshape Hfull).
  - apply rows_prepared.
  - destruct Hrun as [Hr|Hr]; [left|right]; auto.
Qed.

(** C4, as the code has it. A second pass changes the output of the first
    only by removing rows that the imputation or the date parsing made
    equal.  When the output of the first pass has no two equal rows, the
    second pass returns it unchanged. *)
Theorem idempotent_without_new_duplicates `{!LowerLaws} d out :
  valid d = true →
  NoDup (rows out) →
  (byyy.normalize d = Ok out → byyy.normalize out = Ok out)
  ∧ (hii.normalize d = Ok out → hii.normalize out = Ok out).
Proof.
  intros (Hnd & _ & Hshape)%valid_inv Hrows.
  pose proof (normalized_names (columns d)) as Hnames.
  pose proof (shape_ok_map_cols impute_median _ length_impute_median
                (shape_ok_prepared d Hshape)) as HshY.
  fold (impute_numeric (prepared d)) in HshY.
  assert (Forall median_settled (df_cols (impute_numeric (prepared d))).*2)
    as HmedY by apply Forall_map_cols, impute_median_settled.
  split; intros Hrun.
  - rewrite byyy_normalize_columnwise in Hrun by done. injection Hrun as Hout.
    set (x := drop_identifiers (impute_numeric (prepared d))) in *.
    assert (columns out = normalize_name <$> columns d) as Hcols.
    { rewrite <- Hout, columns_parse_dates. unfold x.
      rewrite columns_drop_identifiers. unfold impute_numeric.
      by rewrite columns_map_cols, columns_prepared. }
    assert (shape_ok out) as Hsh.
    { rewrite <- Hout. by apply shape_ok_parse_dates, shape_ok_drop_missing,
        shape_ok_drop_missing. }
    rewrite byyy_normalize_columnwise.
    2:{ rewrite Hcols, <- list_fmap_compose.
        rewrite (list_fmap_ext _ normalize_name (columns d)); [done|].
        intros i c _. apply normalize_name_idem. }
    rewrite prepared_id; [|done|done|by rewrite Hcols].
    rewrite impute_numeric_id.
    2:{ rewrite <- Hout. apply parse_dates_median_settled.
        unfold x, drop_identifiers.
        by do 2 (apply Forall_drop_missing; [apply median_settled_select|]). }
    rewrite drop_identifiers_id; [|done|..].
    + rewrite <- Hout. by rewrite parse_dates_idem.
    + rewrite <- Hout. apply parse_dates_keeps_key.
      * intros Hin. repeat (apply elem_of_cons in Hin as [Hin|Hin]; [done|]).
        by apply elem_of_nil in Hin.
      * unfold x, drop_identifiers. apply drop_missing_keeps, drop_missing_settles.
    + rewrite <- Hout. apply parse_dates_keeps_key.
      * intros Hin. repeat (apply elem_of_cons in Hin as [Hin|Hin]; [done|]).
        by apply elem_of_nil in Hin.
      * unfold x, drop_identifiers. apply drop_missing_settles.
  - rewrite hii_normalize_columnwise in Hrun by done.
    assert (columns out = normalize_name <$> columns d) as Hcols.
    { rewrite (impute_text_columns _ _ Hrun). unfold impute_numeric.
      by rewrite columns_map_cols, columns_prepared. }
    assert (shape_ok out) as Hsh.
    { unfold shape_ok. rewrite (impute_text_index _ _ Hrun).
      eapply (impute_text_Forall
                (λ s, length (s_values s)
                      = length (df_index (impute_numeric (prepared d)))));
        [|apply Hrun|apply HshY].
      intros s s' Hm <-. by apply impute_mode_length. }
    rewrite hii_normalize_columnwise.
    2:{ rewrite Hcols, <- list_fmap_compose.
        rewrite (list_fmap_ext _ normalize_name (columns d)); [done|].
        intros i c _. apply normalize_name_idem. }
    rewrite prepared_id; [|done|done|by rewrite Hcols].
    rewrite impute_numeric_id.
    2:{ eapply impute_text_Forall; [|apply Hrun|apply HmedY].
        intros s s'. apply impute_mode_median_settled. }
    apply impute_text_id.
    eapply (impute_text_Forall (λ _, True)); [|apply Hrun|].
    + intros s s' Hm _. by apply (impute_mode_settles s).
    + by apply Forall_true.
Qed.

End claims.

(** * The claims on sample frames *)

(** C1. The identifier step comes after the median step: a missing numeric
    user_id has been filled with the median by then, and the row (label 1
    here) is kept with an invented identifier. *)
Theorem missing_numeric_user_id_is_kept :
  valid numeric_ids = true
  ∧ (s ← getitem numeric_ids "user_id"; mret (s_values s !! 1)) = Ok (Some NA)
  ∧ byyy.normalize numeric_ids
    = Ok (mkDF [0; 1; 2]
            [("user_id", float64 [Num 1; Num 2; Num 3]%Z);
             ("title", object [Str "a"; Str "b"; Str "c"])]).
Proof. repeat split; vm_compute; reflexivity. Qed.

(** C2. Variant B takes [mode()[0]] of every text column; on a frame without
    rows the mode is empty and the lookup raises.  Variant A returns. *)
Theorem header_only_raises :
  valid header_only = true
  ∧ hii.normalize header_only = Raise KeyError
  ∧ byyy.normalize header_only
    = Ok (mkDF [] [("user_id", object []); ("genre", object [])]).
Proof. repeat split; vm_compute; reflexivity. Qed.

(** C3 fails on a numeric column with no entry: the median is NaN and the
    column stays missing, in both variants. *)
Lemma empty_column_stays_missing :
  valid empty_column = true
  ∧ byyy.normalize empty_column = Ok empty_column
  ∧ hii.normalize empty_column = Ok empty_column
  ∧ assoc_get "x" (df_cols empty_column) = Some (float64 [NA; NA])
  ∧ is_number (s_dtype (float64 [NA; NA])) = true
  ∧ NA ∈ s_values (float64 [NA; NA]).
Proof. repeat split; try (vm_compute; reflexivity). in_list. Qed.

(** C4 fails when the imputation makes two rows equal: the first pass keeps
    both, the second drops one. *)
Lemma second_pass_drops_a_row :
  let y := mkDF [0; 1; 2; 3] [("x", float64 [Num 3; Num 3; Num 1; Num 5]%Z)] in
  let z := mkDF [0; 2; 3] [("x", float64 [Num 3; Num 1; Num 5]%Z)] in
  valid median_repeat = true
  ∧ byyy.normalize median_repeat = Ok y ∧ byyy.normalize y = Ok z
  ∧ hii.normalize median_repeat = Ok y ∧ hii.normalize y = Ok z
  ∧ z ≠ y.
Proof. repeat split; try (vm_compute; reflexivity). discriminate. Qed.

(** C5 fails on a tie: the value met first is "b", the code fills in "a". *)
Lemma mode_tie_takes_the_least :
  valid tie = true
  ∧ first_seen_mode [Str "b"; Str "a"; NA] = Some (Str "b" : cell Z)
  ∧ hii.normalize tie
    = Ok (mkDF [0; 1; 2] [("t", object [Str "b"; Str "a"; Str "a"])]).
Proof. repeat split; vm_compute; reflexivity. Qed.

(** C8 fails when the imputation makes two rows equal: the input has no two
    equal rows, the output of both variants has. *)
Lemma imputation_makes_equal_rows :
  let out := mkDF [0; 1; 2; 3] [("x", float64 [Num 3; Num 3; Num 1; Num 5]%Z)] in
  valid median_repeat = true
  ∧ NoDup (rows median_repeat)
  ∧ byyy.normalize median_repeat = Ok out
  ∧ hii.normalize median_repeat = Ok out
  ∧ ¬ NoDup (rows out).
Proof.
  repeat split; try (vm_compute; reflexivity); by_decide.
Qed.

(** ** The theorems at work *)

Lemma column_names_normalized_witness :
  columns viewing_cleaned = normalize_name <$> columns viewing
  ∧ normalize_name " Movie ID " = "movie_id"
  ∧ normalize_name (nbsp +:+ "Watch Date" +:+ wide_space) = "watch_date".
Proof.
  apply (column_names_normalized viewing viewing_cleaned).
  left. vm_compute. reflexivity.
Defined.

Lemma clean_data_keeps_store_witness :
  (byyy.clean_data 0 [viewing]).2 !! 0 = Some viewing
  ∧ (hii.clean_data 0 [viewing]).2 !! 0 = Some viewing.
Proof. apply (clean_data_keeps_store [viewing] 0 0 viewing). reflexivity. Defined.

Lemma variants_agree_on_numeric_frames_witness :
  byyy.normalize ratings = hii.normalize ratings
  ∧ rename (drop_duplicates ratings) = drop_duplicates (rename ratings).
Proof.
  apply (variants_agree_on_numeric_frames ratings).
  - repeat constructor.
  - apply Forall_forall. by_decide.
Defined.

Lemma numeric_imputation_witness :
  ∃ s, assoc_get "rating" (df_cols (prepared ratings)) = Some s
       ∧ (∀ i v, (i, v) ∈ zip (df_index ratings_cleaned)
                           [Num 1; Num 3; Num 3; Num 5]%Z →
            ∃ v0, (i, v0) ∈ zip (df_index (prepared ratings)) (s_values s)
                  ∧ v = fill (median s) v0)
       ∧ ((∃ x, Num x ∈ s_values s) →
          NA ∉ ([Num 1; Num 3; Num 3; Num 5]%Z : list (cell Z))).
Proof.
  apply (numeric_imputation ratings ratings_cleaned) with
    (col := "rating") (s' := float64 [Num 1; Num 3; Num 3; Num 5]%Z).
  - reflexivity.
  - left. vm_compute. reflexivity.
  - reflexivity.
  - reflexivity.
Defined.

Lemma text_imputation_witness :
  ∃ s m, assoc_get "tag" (df_cols (prepared tags)) = Some s
         ∧ ([Str "a"; Str "a"; Str "a"; Str "b"] : list (cell Z))
           = fill m <$> s_values s
         ∧ m = Str "a".
Proof.
  assert (hii.normalize tags = Ok tags_cleaned) as Hrun
    by (vm_compute; reflexivity).
  assert (valid tags = true) as Hvalid by (vm_compute; reflexivity).
  destruct (text_imputation tags tags_cleaned Hvalid Hrun) as [_ Hcol].
  destruct (Hcol "tag" (object [Str "a"; Str "a"; Str "a"; Str "b"])
              eq_refl eq_refl) as (s & m & Hs & Hv & Hm & _).
  exists s, m. split; [done|]. split; [done|].
  vm_compute in Hs. injection Hs as <-.
  vm_compute in Hv. by injection Hv as <-.
Defined.

Lemma date_parsing_witness :
  ∃ out, byyy.normalize stamps = Ok out
         ∧ df_index out = [0; 1]
         ∧ columns out = ["date"; "timestamp"; "n"]
         ∧ assoc_get "date" (df_cols out)
           = Some (object [Str "2021-03-04"; Str "2021-03-04"])
         ∧ ∃ s', assoc_get "timestamp" (df_cols out) = Some s'
                 ∧ s_dtype s' = Datetime64
                 ∧ s_values s' !! 0 = Some (Date 1614816000000000000)
                 ∧ s_values s' !! 1 = Some NA.
Proof.
  assert (valid stamps = true) as Hvalid by (vm_compute; reflexivity).
  destruct (date_parsing stamps Hvalid) as (out & Hrun & Hidx & Hcols & Hdc & Hcol).
  set (e := drop_identifiers (impute_numeric (prepared stamps))) in *.
  assert (date_column e = Some "timestamp") as Hdate
    by (rewrite Hdc; vm_compute; reflexivity).
  exists out. split; [done|]. split; [by rewrite Hidx|]. split; [by rewrite Hcols|].
  split.
  - pose proof (Hcol "date" (object [Str "2021-03-04"; Str "2021-03-04"]) eq_refl)
      as Hd.
    rewrite Hdate in Hd. by rewrite decide_False in Hd by discriminate.
  - pose proof (Hcol "timestamp" (object [Str "2021-03-04"; Str "not-a-date"])
                  eq_refl) as Ht.
    rewrite Hdate, decide_True in Ht by done.
    destruct Ht as (s' & Hs' & Hdt & _ & _ & Hparse).
    exists s'. split; [done|]. split; [done|].
    destruct (Hparse ltac:(discriminate)) as (_ & Hna & Hdate' & _). split.
    + by apply (Hdate' 0 "2021-03-04").
    + by apply (Hna 1 "not-a-date").
Defined.

Lemma no_duplicates_when_rows_stay_apart_witness :
  NoDup (rows viewing_cleaned)
  ∧ rows (prepared viewing) = first_occurrences (rows viewing)
  ∧ rows (prepared viewing) = rows viewing_prepared.
Proof.
  assert (valid viewing = true) as Hvalid by (vm_compute; reflexivity).
  assert (byyy.normalize viewing = Ok viewing_cleaned) as Hrun
    by (vm_compute; reflexivity).
  assert (prepared viewing = viewing_prepared) as Hp
    by (vm_compute; reflexivity).
  destruct (no_duplicates_when_rows_stay_apart viewing viewing_cleaned
              Hvalid (or_introl Hrun)) as ((Hrows & _ & Hone) & _ & Hap & _).
  split; [|split; [exact Hrows|]].
  2:{ etrans.
      - apply (Hone [[Num 1; Num 10; Num 5; Num 90; Str "Drama"]%Z]
                 [Num 2; Num 20; Num 3; Num 45; Str "Comedy"]%Z []
                 [[Num 3; Num 30; NA; Num 120; Str "Drama"]%Z;
                  [Num 4; Num 40; Num 1; Num 60; Str "Action"]%Z]).
        + vm_compute. reflexivity.
        + by_decide.
      - vm_compute. reflexivity. }
  apply Hap; [exact Hrun|]. rewrite Hp.
  assert (date_column viewing_prepared = None) as ->
    by (vm_compute; reflexivity).
  intros a b Ha Hb Hab.
  exists "user_id", (int64 [1; 2; 3; 4]%Z).
  assert (zip (df_index viewing_prepared) (s_values (int64 [1; 2; 3; 4]%Z))
          = [(0, Num 1%Z); (1, Num 2%Z); (3, Num 3%Z); (4, Num 4%Z)]) as ->
    by reflexivity.
  change (df_index viewing_prepared) with [0; 1; 3; 4] in Ha, Hb.
  clear Hvalid Hrun Hp Hrows Hone Hap.
  repeat (apply elem_of_cons in Ha as [->|Ha]);
    try (exfalso; apply elem_of_nil in Ha; exact Ha);
    repeat (apply elem_of_cons in Hb as [->|Hb]);
    try (exfalso; apply elem_of_nil in Hb; exact Hb);
    try (exfalso; apply Hab; reflexivity);
    eexists _, _; (split; [reflexivity|]); (split; [discriminate|]);
    (split; [in_list|]); (split; [in_list|]);
    repeat split; discriminate.
Defined.

Lemma idempotent_without_new_duplicates_witness :
  byyy.normalize viewing_cleaned = Ok viewing_cleaned
  ∧ hii.normalize viewing_cleaned = Ok viewing_cleaned.
Proof.
  assert (NoDup (rows viewing_cleaned)) as Hnd by by_decide.
  assert (valid viewing = true) as Hvalid by (vm_compute; reflexivity).
  destruct (idempotent_without_new_duplicates viewing viewing_cleaned
              Hvalid Hnd) as [Ha Hb].
  split; [apply Ha|apply Hb]; vm_compute; reflexivity.
Defined.

(** * More about the cleaner *)


Section more_cleaner.
Context {num : Type} `{!Numeric num} `{!DatetimeParser} `{!Lower}.
Implicit Types (d out : DataFrame num) (s : Series num)
  (rs seen : list (list (cell num))).

Lemma kept_complete seen rs x : x ∈ rs → x ∉ seen → x ∈ kept seen rs.
Proof.
  revert seen. induction rs as [|r rs IH]; intros seen.
  { by intros ?%elem_of_nil. }
  intros Hin Hseen. rewrite kept_cons.
  destruct (decide (x = r)) as [->|Hne].
  - rewrite bool_decide_false by done. apply list_elem_of_here.
  - apply elem_of_cons in Hin as [?|Hin]; [done|].
    assert (x ∈ kept (r :: seen) rs) as Hk.
    { apply IH; [done|]. intros [?|?]%elem_of_cons; done. }
    case_bool_decide; [done|]. by apply list_elem_of_further.
Qed.

Lemma drop_duplicates_values d col s v :
  shape_ok d → (col, s) ∈ df_cols d →
  v ∈ s_values s →
  v ∈ mask_select (negb <$> duplicated d) (s_values s).
Proof.
  intros Hshape Hs Hv.
  apply list_elem_of_lookup in Hs as [j Hj].
  assert ((s_values <$> (df_cols d).*2) !! j = Some (s_values s)) as Hj'.
  { rewrite !list_lookup_fmap, Hj. done. }
  assert (Forall (λ c : list (cell num), length c = length (df_index d))
            (s_values <$> (df_cols d).*2)) as Hall.
  { apply Forall_fmap. eapply Forall_impl; [apply Hshape|]. done. }
  pose proof (column_of_rows _ _ _ _ Hall Hj') as Hcol. fold (rows d) in Hcol.
  assert (Some v ∈ Some <$> s_values s) as Hsv.
  { apply list_elem_of_fmap. eauto. }
  rewrite <- Hcol in Hsv. apply list_elem_of_fmap in Hsv as (r & Hr & Hin).
  assert (r ∈ kept [] (rows d)) as Hk.
  { apply kept_complete; [done|]. apply not_elem_of_nil. }
  assert (Some v ∈ (λ r : list (cell num), r !! j) <$> kept [] (rows d)) as Hm.
  { apply list_elem_of_fmap. eauto. }
  unfold kept in Hm. rewrite <- mask_select_fmap, Hcol, mask_select_fmap in Hm.
  apply list_elem_of_fmap in Hm as (v' & [= <-] & Hm). done.
Qed.

Lemma unique_from_elem_of (seen l : list (cell num)) x :
  x ∈ unique_from seen l ↔ x ∈ l ∧ x ∉ seen.
Proof.
  revert seen. induction l as [|y l IH]; intros seen; simpl.
  { split; [by intros ?%elem_of_nil|by intros [?%elem_of_nil _]]. }
  case_decide as Hy.
  - rewrite IH, elem_of_cons. split; [tauto|].
    intros [[->|?] ?]; [done|tauto].
  - rewrite !elem_of_cons, IH, elem_of_cons. split.
    + intros [->|[? ?]]; [tauto|]. tauto.
    + intros [[->|?] ?]; [tauto|].
      destruct (decide (x = y)); [tauto|]. right. tauto.
Qed.

Lemma NoDup_unique_from (seen l : list (cell num)) : NoDup (unique_from seen l).
Proof.
  revert seen. induction l as [|y l IH]; intros seen; simpl; [constructor|].
  case_decide; [apply IH|]. constructor; [|apply IH].
  rewrite unique_from_elem_of, elem_of_cons. tauto.
Qed.

Lemma elem_of_unique (l : list (cell num)) x : x ∈ unique l ↔ x ∈ l.
Proof.
  unfold unique. rewrite unique_from_elem_of. split; [tauto|].
  intros ?. split; [done|apply not_elem_of_nil].
Qed.

Lemma nunique_ext s s' :
  (∀ v, v ∈ s_values s' ↔ v ∈ s_values s) → nunique s' = nunique s.
Proof.
  intros Hv. unfold nunique. apply Permutation_length.
  apply NoDup_Permutation; try apply NoDup_unique_from.
  intros x. rewrite !elem_of_unique, !elem_of_non_missing, Hv. done.
Qed.

Lemma impute_mode_raise s e :
  impute_mode s = Raise e →
  e = KeyError ∧ s_dtype s = Object ∧ Forall (λ v, is_na v = true) (s_values s).
Proof.
  unfold impute_mode, fill_mode.
  destruct (s_dtype s) eqn:Et; simpl; try done.
  destruct (first_label (mode s)) as [m|e'] eqn:Em; [done|].
  intros [= <-]. split.
  { unfold first_label in Em. destruct (mode s); [|done]. by injection Em as <-. }
  split; [done|]. apply Forall_forall. intros v Hv.
  destruct (is_na v) eqn:Ev; [done|].
  destruct (mode_nonempty s v Hv Ev) as [m Hm]. congruence.
Qed.

Lemma impute_mode_empty s :
  s_dtype s = Object → Forall (λ v, is_na v = true) (s_values s) →
  impute_mode s = Raise KeyError.
Proof.
  intros Ht Hall. unfold impute_mode, fill_mode. rewrite Ht. simpl.
  destruct (first_label (mode s)) as [m|e] eqn:Em.
  - apply first_label_mode in Em as (Hin & Hna & _).
    rewrite Forall_forall in Hall. rewrite (Hall m Hin) in Hna. done.
  - simpl. unfold first_label in Em. destruct (mode s); [|done].
    by injection Em as <-.
Qed.

Lemma mapM_cols_raise f (cs : list (string * Series num)) e :
  mapM_cols f cs = Raise e → ∃ c s, (c, s) ∈ cs ∧ f s = Raise e.
Proof.
  induction cs as [|[c s] cs IH]; csimpl; [done|].
  destruct (f s) as [s'|e'] eqn:Ef; csimpl.
  - destruct (mapM_cols f cs) as [cs'|e'] eqn:Em; csimpl; [done|].
    intros [= <-]. destruct (IH eq_refl) as (c1 & s1 & Hin & Hf).
    exists c1, s1. split; [by apply list_elem_of_further|done].
  - intros [= <-]. exists c, s. split; [apply list_elem_of_here|done].
Qed.

Lemma mapM_cols_raises f (cs : list (string * Series num)) c s e :
  (c, s) ∈ cs → f s = Raise e → ∃ e', mapM_cols f cs = Raise e'.
Proof.
  intros Hin Hf. induction cs as [|[c0 s0] cs IH]; csimpl.
  { by apply elem_of_nil in Hin. }
  apply elem_of_cons in Hin as [[= <- <-]|Hin].
  - rewrite Hf. by eexists.
  - destruct (f s0); csimpl; [|by eexists].
    destruct (IH Hin) as [e' ->]. by eexists.
Qed.

(** the columns the mode step of variant B works on *)
Lemma imputed_columns d c' s' :
  (c', s') ∈ df_cols (impute_numeric (prepared d)) ↔
  ∃ c s, (c, s) ∈ df_cols d ∧ c' = normalize_name c
         ∧ s' = impute_median (select_series (negb <$> duplicated d) s).
Proof.
  unfold impute_numeric, map_cols, prepared, drop_duplicates, df_mask, duplicated.
  rewrite rows_rename. unfold rename. simpl.
  rewrite <- !list_fmap_compose, list_elem_of_fmap. split.
  - intros ([c s] & [= -> ->] & Hin). by exists c, s.
  - intros (c & s & Hin & -> & ->). by exists (c, s).
Qed.

Lemma impute_median_dtype s : s_dtype (impute_median s) = s_dtype s.
Proof. unfold impute_median. by destruct (is_number _). Qed.

Lemma impute_text_raise d e :
  valid d = true →
  impute_text (impute_numeric (prepared d)) = Raise e →
  e = KeyError
  ∧ ∃ c s, (c, s) ∈ df_cols d ∧ s_dtype s = Object
           ∧ Forall (λ v, is_na v = true) (s_values s).
Proof.
  intros (Hnd & _ & Hshape)%valid_inv. unfold impute_text.
  destruct (mapM_cols _ _) as [cs|e'] eqn:E; [done|]. intros [= ->].
  apply mapM_cols_raise in E as (c' & s' & Hin & Hm).
  apply impute_mode_raise in Hm as (-> & Ht & Hall). split; [done|].
  apply imputed_columns in Hin as (c & s & Hin & -> & ->).
  rewrite impute_median_dtype in Ht. simpl in Ht.
  unfold impute_median in Hall. simpl in Hall. rewrite Ht in Hall.
  simpl in Hall. exists c, s. split; [done|]. split; [done|].
  apply Forall_forall. intros v Hv. rewrite Forall_forall in Hall.
  apply Hall. by apply (drop_duplicates_values d c).
Qed.

Lemma hii_normalize_raise d e :
  valid d = true → hii.normalize d = Raise e → e = KeyError.
Proof.
  intros Hv. pose proof Hv as (Hnd & _ & _)%valid_inv.
  rewrite hii_normalize_columnwise by done.
  by intros (-> & _)%impute_text_raise.
Qed.


End more_cleaner.

Section more_claims.
Context {num : Type} `{!Numeric num} `{!DatetimeParser} `{!Lower}.
Implicit Types (d out : DataFrame num) (s : Series num).

(** X1. Called on a valid frame of the store, variant A returns; and what
    either variant returns is a frame that the call allocated, never its
    argument. *)
Theorem clean_data_returns_new_frame (h : heap) (l : loc) d :
  h !! l = Some d →
  (valid d = true →
   ∃ l' h', byyy.clean_data l h = (Ok l', h')
            ∧ length h ≤ l' ∧ is_Some (h' !! l'))
  ∧ (∀ l' h', hii.clean_data l h = (Ok l', h') →
              length h ≤ l' ∧ is_Some (h' !! l')).
Proof.
  intros Hl. split.
  - intros _. destruct (byyy_clean_data_run h l d Hl) as (c & t & _ & ->).
    eexists _, _. split; [done|]. split; [rewrite length_app; lia|].
    eexists. apply lookup_top.
  - intros l' h' Hrun.
    destruct (hii_clean_data_run h l d Hl) as (c & c' & _ & Heq & _).
    rewrite Heq in Hrun. destruct (mode_loop c); [|done].
    injection Hrun as <- <-. split; [rewrite length_app; lia|].
    eexists. apply lookup_top.
Qed.

(** X2. The row labels of the output are row labels of the input, in the
    same order, and all of them survive the duplicate removal; variant B
    keeps exactly the labels that survive it. *)
Theorem rows_are_only_removed d out :
  byyy.normalize d = Ok out ∨ hii.normalize d = Ok out →
  df_index out `sublist_of` df_index (drop_duplicates d)
  ∧ df_index (drop_duplicates d) `sublist_of` df_index d
  ∧ (hii.normalize d = Ok out → df_index out = df_index (drop_duplicates d)).
Proof.
  intros Hrun.
  destruct (median_loop_total (prepared d)) as (c & Hc & _ & Hidx).
  rewrite df_index_prepared in Hidx.
  assert (hii.normalize d = Ok out → df_index out = df_index (drop_duplicates d))
    as Hhii.
  { rewrite hii_normalize_steps, Hc. simpl. intros Hm.
    apply (foldM_update_keeps _ (λ _, True)) in Hm as (_ & -> & _); done. }
  split; [|split; [apply sublist_mask_select|done]].
  destruct Hrun as [Hrun|Hrun]; [|by rewrite Hhii].
  rewrite byyy_normalize_steps, Hc in Hrun. injection Hrun as <-.
  rewrite df_index_parse_dates, <- Hidx. unfold drop_identifiers.
  etrans; apply df_index_drop_missing.
Qed.

(** X3. On a valid frame variant B raises only KeyError, and it raises
    exactly when some text column of the input has no non-missing entry (a
    frame without rows that has a text column, in particular). *)
Theorem hii_raises_iff_empty_text_column d :
  valid d = true →
  (hii.normalize d = Raise KeyError ↔
   ∃ c s, (c, s) ∈ df_cols d ∧ s_dtype s = Object
          ∧ Forall (λ v, is_na v = true) (s_values s))
  ∧ (∀ e, hii.normalize d = Raise e → e = KeyError).
Proof.
  intros Hvalid. pose proof Hvalid as (Hnd & _ & Hshape)%valid_inv.
  pose proof (λ e, impute_text_raise d e Hvalid) as Hraise.
  rewrite hii_normalize_columnwise by done.
  split; [split|].
  - by intros (_ & Hex)%Hraise.
  - intros (c & s & Hin & Ht & Hall).
    set (s' := select_series (negb <$> duplicated d) s).
    assert ((normalize_name c, s') ∈ df_cols (impute_numeric (prepared d))) as Hin'.
    { apply imputed_columns. exists c, s. split; [done|]. split; [done|].
      unfold impute_median. simpl. by rewrite Ht. }
    assert (impute_mode s' = Raise KeyError) as Hm.
    { apply impute_mode_empty; [done|]. apply Forall_forall.
      intros v Hv%mask_select_elem_of. rewrite Forall_forall in Hall. auto. }
    destruct (mapM_cols_raises _ _ _ _ _ Hin' Hm) as [e He].
    assert (impute_text (impute_numeric (prepared d)) = Raise e) as Hr
      by (unfold impute_text; by rewrite He).
    destruct (Hraise e Hr) as [-> _]. done.
  - intros e He. by destruct (Hraise e He).
Qed.

(** X4. In the output of variant A no user_id and no movie_id is missing. *)
Theorem identifiers_present d out key s :
  valid d = true →
  byyy.normalize d = Ok out →
  key ∈ ["user_id"; "movie_id"] →
  assoc_get key (df_cols out) = Some s →
  NA ∉ s_values s.
Proof.
  intros (Hnd & _ & _)%valid_inv Hrun Hkey Hs.
  rewrite byyy_normalize_columnwise in Hrun by done. injection Hrun as <-.
  assert (key_settled key
            (parse_dates (drop_identifiers (impute_numeric (prepared d))))) as Hk.
  { apply parse_dates_keeps_key.
    - intros Hin. repeat (apply elem_of_cons in Hkey as [->|Hkey]);
        try (by apply elem_of_nil in Hkey);
        repeat (apply elem_of_cons in Hin as [Hin|Hin]; [done|]);
        by apply elem_of_nil in Hin.
    - unfold drop_identifiers.
      repeat (apply elem_of_cons in Hkey as [->|Hkey]);
        try (by apply elem_of_nil in Hkey).
      + apply drop_missing_keeps, drop_missing_settles.
      + apply drop_missing_settles. }
  specialize (Hk s Hs). unfold full_series in Hk. rewrite Forall_forall in Hk.
  intros Hna. by specialize (Hk NA Hna).
Qed.

(** X5. The cleaner keeps the dtype of every column, except that variant A
    turns the date column it parses into a datetime column. *)
Theorem dtypes_kept d out col s' :
  valid d = true →
  byyy.normalize d = Ok out ∨ hii.normalize d = Ok out →
  assoc_get col (df_cols out) = Some s' →
  ∃ s, assoc_get col (df_cols (rename d)) = Some s
       ∧ (s_dtype s' = s_dtype s
          ∨ (byyy.normalize d = Ok out
             ∧ date_column (rename d) = Some col ∧ s_dtype s' = Datetime64)).
Proof.
  intros (Hnd & _ & _)%valid_inv Hrun Hs'.
  assert (∀ sy, assoc_get col (df_cols (impute_numeric (prepared d))) = Some sy →
                ∃ s, assoc_get col (df_cols (rename d)) = Some s
                     ∧ s_dtype sy = s_dtype s) as Hprep.
  { intros sy. unfold impute_numeric, prepared, drop_duplicates.
    rewrite assoc_get_map_cols, assoc_get_df_mask.
    destruct (assoc_get col (df_cols (rename d))) as [s|]; [|done].
    intros [= <-]. exists s. split; [done|]. by rewrite impute_median_dtype. }
  destruct Hrun as [Hrun|Hrun].
  - pose proof Hrun as Hrun'.
    rewrite byyy_normalize_columnwise in Hrun by done. injection Hrun as <-.
    rewrite parse_dates_get in Hs'.
    set (x := drop_identifiers (impute_numeric (prepared d))) in *.
    assert (date_column x = date_column (rename d)) as Hdate.
    { apply date_column_columns. unfold x.
      rewrite columns_drop_identifiers. unfold impute_numeric, prepared, drop_duplicates.
      by rewrite columns_map_cols, columns_df_mask. }
    destruct (assoc_get col (df_cols x)) as [sx|] eqn:Hx.
    2:{ by case_decide. }
    apply drop_identifiers_get in Hx as (sy & Hsy & Ht & _).
    destruct (Hprep sy Hsy) as (s & Hs & Hts). exists s. split; [done|].
    case_decide as Hd; simpl in Hs'; injection Hs' as <-.
    + right. rewrite <- Hdate. by rewrite to_datetime_dtype.
    + left. congruence.
  - rewrite hii_normalize_columnwise in Hrun by done.
    destruct (impute_text_get _ _ _ _ Hrun Hs') as (sy & Hsy & Hm).
    destruct (Hprep sy Hsy) as (s & Hs & Hts). exists s. split; [done|].
    left. rewrite (impute_mode_dtype _ _ Hm). done.
Qed.

(** X6. A normalized name is normalized again to itself; it has no white
    space (of Unicode) at either end and no space; the normalized name of an
    ASCII name has no capital letter. *)
Theorem normalize_name_shape `{!LowerLaws} (c : string) :
  normalize_name (normalize_name c) = normalize_name c
  ∧ strip (normalize_name c) = normalize_name c
  ∧ all_chars not_space (normalize_name c) = true
  ∧ (is_ascii c = true → all_chars not_capital (normalize_name c) = true).
Proof.
  split; [apply normalize_name_idem|]. unfold normalize_name. split.
  { apply strip_replace_space, lower_stripped, strip_strip. }
  split; [apply replace_space_no_space|].
  intros Hc. rewrite lower_on_ascii by by apply is_ascii_strip.
  apply replace_lower_no_capital.
Qed.

(** X7. Dropping the duplicate rows loses no value of any column: each
    column holds the same set of values before and after, and the same
    number of distinct non-missing values. *)
Theorem drop_duplicates_keeps_values d col s :
  valid d = true →
  assoc_get col (df_cols d) = Some s →
  ∃ s', assoc_get col (df_cols (drop_duplicates d)) = Some s'
        ∧ (∀ v, v ∈ s_values s' ↔ v ∈ s_values s)
        ∧ nunique s' = nunique s.
Proof.
  intros (_ & _ & Hshape)%valid_inv Hs.
  exists (select_series (negb <$> duplicated d) s).
  assert (∀ v, v ∈ s_values (select_series (negb <$> duplicated d) s)
               ↔ v ∈ s_values s) as Hv.
  { intros v. split; [apply mask_select_elem_of|].
    apply (drop_duplicates_values d col); [done|]. by apply assoc_get_elem_of. }
  split; [|split; [done|by apply nunique_ext]].
  unfold drop_duplicates. by rewrite assoc_get_df_mask, Hs.
Qed.
End more_claims.

(** * The code around the cleaner *)

Section pages_lemmas.
Context {num : Type} `{!Numeric num} `{!DatetimeParser} `{!Lower} `{!Reductions num}.
Implicit Types (df : DataFrame num) (s : Series num) (l acc : list (cell num))
  (v x : cell num).

Lemma insert_sorted_perm x l l' : insert_sorted x l = Done l' → l' ≡ₚ x :: l.
Proof.
  revert l'. induction l as [|y l IH]; intros l'; simpl.
  { by intros [= <-]. }
  destruct (py_lt x y) as [[|]|]; [by intros [= <-]| |done].
  destruct (insert_sorted x l) as [l1|]; [|done]. simpl. intros [= <-].
  rewrite (IH l1 eq_refl). apply Permutation_swap.
Qed.

Lemma sorted_into_perm acc l l' : sorted_into acc l = Done l' → l' ≡ₚ acc ++ l.
Proof.
  revert acc. induction l as [|x l IH]; intros acc; simpl.
  { intros [= <-]. by rewrite app_nil_r. }
  destruct (insert_sorted x acc) as [acc'|] eqn:E; [|done]. simpl.
  intros Hl%IH. rewrite Hl, (insert_sorted_perm _ _ _ E).
  by rewrite <- Permutation_middle.
Qed.

Lemma py_sorted_perm l l' : py_sorted l = Done l' → l' ≡ₚ l.
Proof. apply sorted_into_perm. Qed.

Lemma insert_sorted_fail x l e : insert_sorted x l = Fail e → e = TypeError.
Proof.
  induction l as [|y l IH]; simpl; [done|].
  destruct (py_lt x y) as [[|]|]; [done| |by intros [= <-]].
  destruct (insert_sorted x l); [done|]. simpl. intros [= <-]. by apply IH.
Qed.

Lemma py_sorted_fail l e : py_sorted l = Fail e → e = TypeError.
Proof.
  unfold py_sorted. generalize (@nil (cell num)).
  induction l as [|x l IH]; intros acc; simpl; [done|].
  destruct (insert_sorted x acc) as [acc'|e'] eqn:E; simpl.
  - apply IH.
  - intros [= <-]. by apply insert_sorted_fail in E.
Qed.

Lemma filter_options_inv s opts :
  filter_options s = Done opts →
  ∃ l, opts = Str "All" :: l ∧ NoDup l
       ∧ ∀ v, v ∈ l ↔ v ∈ s_values s ∧ is_na v = false.
Proof.
  unfold filter_options.
  destruct (py_sorted _) as [l|] eqn:E; [|done]. simpl. intros [= <-].
  apply py_sorted_perm in E. exists l. split; [done|]. split.
  - rewrite E. apply NoDup_unique_from.
  - intros v. by rewrite E, elem_of_unique, elem_of_non_missing.
Qed.

Lemma py_eq_refl v : is_na v = false → py_eq v v = true.
Proof. destruct v; simpl; try done; intros _; by apply bool_decide_eq_true. Qed.

Lemma mask_select_filter (f : cell num → bool) l :
  mask_select (f <$> l) l = filter (λ c, f c = true) l.
Proof.
  induction l as [|c l IH]; csimpl; [done|]. rewrite filter_cons.
  destruct (f c) eqn:E; simpl; by rewrite ?IH.
Qed.

(** what a filter that narrows does *)
Lemma sidebar_filter_narrows col pick df s opts :
  assoc_get col (df_cols df) = Some s →
  filter_options s = Done opts →
  py_eq (pick opts) (Str "All") = false →
  sidebar_filter col pick df
  = Done (df_mask df ((λ c, py_eq c (pick opts)) <$> s_values s)).
Proof.
  intros Hs Ho Hp. unfold sidebar_filter.
  rewrite decide_True.
  2:{ apply assoc_get_elem_of in Hs. apply list_elem_of_fmap. by exists (col, s). }
  unfold getitem. rewrite Hs. simpl. rewrite Ho. simpl. by rewrite Hp.
Qed.

Lemma sidebar_filter_cases col pick df r :
  sidebar_filter col pick df = r →
  r = Done df
  ∨ (∃ s, assoc_get col (df_cols df) = Some s
          ∧ py_sorted (unique (non_missing (s_values s))) = Fail TypeError
          ∧ r = Fail TypeError)
  ∨ (∃ s opts, assoc_get col (df_cols df) = Some s
               ∧ filter_options s = Done opts
               ∧ py_eq (pick opts) (Str "All") = false
               ∧ r = Done (df_mask df ((λ c, py_eq c (pick opts)) <$> s_values s))).
Proof.
  intros <-. unfold sidebar_filter. case_decide as Hin; [|by left].
  destruct (assoc_get_is_Some _ _ Hin) as [s Hs].
  unfold getitem. rewrite Hs. simpl.
  destruct (filter_options s) as [opts|e] eqn:Ho; simpl.
  - destruct (py_eq (pick opts) (Str "All")) eqn:Hp; simpl; [by left|].
    right. right. by exists s, opts.
  - right. left. exists s. unfold filter_options in Ho.
    destruct (py_sorted _) as [|e'] eqn:E; [done|]. simpl in Ho.
    injection Ho as <-. pose proof (py_sorted_fail _ _ E) as ->. done.
Qed.

Lemma chosen_value_occurs (pick : list (cell num) → cell num) s opts :
  filter_options s = Done opts →
  pick opts ∈ opts →
  py_eq (pick opts) (Str "All") = false →
  filter (λ c, py_eq c (pick opts) = true) (s_values s) ≠ [].
Proof.
  intros (l' & -> & _ & Hl)%filter_options_inv Hin Hp.
  apply elem_of_cons in Hin as [Heq|Hin].
  { rewrite Heq in Hp. done. }
  apply Hl in Hin as [Hin Hna]. intros Hnil.
  assert (pick (Str "All" :: l')
          ∈ filter (λ c, py_eq c (pick (Str "All" :: l')) = true) (s_values s))
    as Hf by (apply list_elem_of_filter; split; [by apply py_eq_refl|done]).
  rewrite Hnil in Hf. by apply elem_of_nil in Hf.
Qed.

(** *** Sorted strings *)

Lemma string_ltb_leb a b : String.ltb a b = true → String.leb a b = true.
Proof. unfold String.ltb, String.leb. by destruct (String.compare a b). Qed.

Lemma string_ltb_false a b : String.ltb a b = false → String.leb b a = true.
Proof.
  unfold String.ltb, String.leb. rewrite (String.compare_antisym b a).
  by destruct (String.compare a b).
Qed.

Lemma insert_sorted_text x l :
  text_cell x → Forall text_cell l → StronglySorted cell_le l →
  ∃ l', insert_sorted x l = Done l' ∧ StronglySorted cell_le l'.
Proof.
  intros [a ->] Hall Hs. induction l as [|y l IH]; simpl.
  { eexists. split; [done|]. repeat constructor. }
  apply Forall_cons in Hall as [[b ->] Hall].
  apply StronglySorted_cons in Hs as [Hy Hs]. simpl.
  destruct (String.ltb a b) eqn:E.
  - eexists. split; [done|].
    assert (cell_le (Str a : cell num) (Str b)) as Hab by by apply string_ltb_leb.
    constructor; [by constructor|]. constructor; [done|].
    eapply Forall_impl; [apply Hy|]. intros c Hc. by trans (Str b : cell num).
  - destruct (IH Hall Hs) as (l' & Hl' & Hs'). rewrite Hl'. simpl.
    eexists. split; [done|]. constructor; [done|].
    apply insert_sorted_perm in Hl'. rewrite Hl'. constructor; [|done].
    by apply string_ltb_false.
Qed.

Lemma insert_sorted_text_all x l l' :
  text_cell x → Forall text_cell l → insert_sorted x l = Done l' →
  Forall text_cell l'.
Proof.
  intros Hx Hl Hi. apply insert_sorted_perm in Hi. rewrite Hi. by constructor.
Qed.

Lemma sorted_into_text acc l :
  Forall text_cell acc → StronglySorted cell_le acc → Forall text_cell l →
  ∃ l', sorted_into acc l = Done l' ∧ StronglySorted cell_le l'.
Proof.
  revert acc. induction l as [|x l IH]; intros acc Hacc Hs Hl; simpl.
  { by exists acc. }
  apply Forall_cons in Hl as [Hx Hl].
  destruct (insert_sorted_text x acc Hx Hacc Hs) as (acc' & Ha & Hs').
  rewrite Ha. simpl. apply IH; [|done|done].
  by apply (insert_sorted_text_all x acc).
Qed.
End pages_lemmas.

Section pages_claims.
Context {num : Type} `{!Numeric num} `{!DatetimeParser} `{!Lower} `{!Reductions num}.
Implicit Types (df : DataFrame num) (s : Series num) (v : cell num).

(** X8. For a column that holds values of its dtype, the options of a filter
    box are "All" followed by every non-missing value of the column, each
    once. *)
Theorem filter_options_offered s opts :
  forallb (cell_fits (s_dtype s)) (s_values s) = true →
  filter_options s = Done opts →
  ∃ l, opts = Str "All" :: l ∧ NoDup l
       ∧ ∀ v, v ∈ l ↔ v ∈ s_values s ∧ v ≠ NA.
Proof.
  intros _ (l & -> & Hnd & Hl)%filter_options_inv. exists l.
  split; [done|]. split; [done|]. intros v. rewrite Hl.
  destruct v; simpl; split; intros [? ?]; split; done.
Qed.

(** X9. For a column of strings and missing entries the options are always
    computed, and after "All" they come in ascending byte order. *)
Theorem text_options_sorted s :
  forallb (λ c, is_str c || is_na c) (s_values s) = true →
  ∃ l, filter_options s = Done (Str "All" :: l)
       ∧ StronglySorted cell_le l ∧ NoDup l ∧ Forall text_cell l.
Proof.
  intros Hall.
  assert (Forall text_cell (unique (non_missing (s_values s)))) as Htext.
  { apply Forall_forall. intros c Hc.
    apply elem_of_unique, elem_of_non_missing in Hc as [Hc Hna].
    rewrite forallb_forall in Hall. apply list_elem_of_In, Hall in Hc.
    destruct c; try done. by eexists. }
  destruct (sorted_into_text [] _ (Forall_nil_2 _) (SSorted_nil _) Htext)
    as (l & Hl & Hs).
  exists l. unfold filter_options, py_sorted. rewrite Hl. split; [done|].
  apply sorted_into_perm in Hl. simpl in Hl. split; [done|]. split.
  - rewrite Hl. apply NoDup_unique_from.
  - by rewrite Hl.
Qed.

(** X10. Selecting an offered value other than "All" keeps exactly the
    entries of the column that equal it, at least one, with the labels and
    the columns of the frame. *)
Theorem filter_by_choice col pick df s opts :
  assoc_get col (df_cols df) = Some s →
  filter_options s = Done opts →
  pick opts ∈ opts →
  py_eq (pick opts) (Str "All") = false →
  ∃ df' s', sidebar_filter col pick df = Done df'
    ∧ columns df' = columns df
    ∧ df_index df' `sublist_of` df_index df
    ∧ assoc_get col (df_cols df') = Some s'
    ∧ s_values s' = filter (λ c, py_eq c (pick opts) = true) (s_values s)
    ∧ s_values s' ≠ [].
Proof.
  intros Hs Ho Hin Hp.
  rewrite (sidebar_filter_narrows _ _ _ _ _ Hs Ho Hp).
  eexists _, _. split; [done|]. split; [apply columns_df_mask|].
  split; [apply sublist_mask_select|].
  split; [by rewrite assoc_get_df_mask, Hs|].
  simpl. rewrite mask_select_filter. split; [done|].
  by apply chosen_value_occurs.
Qed.

(** X11. The two filters never fail for want of a column: they fail only
    with the TypeError of [sorted] on values that cannot be compared.  With
    "All" selected in both boxes the frame comes back as it is. *)
Theorem sidebar_filters_edges pick_country pick_genre df :
  (∀ e, sidebar_filters pick_country pick_genre df = Fail e → e = TypeError)
  ∧ ((∀ o, py_eq (pick_country o) (Str "All") = true) →
     (∀ o, py_eq (pick_genre o) (Str "All") = true) →
     ∀ df', sidebar_filters pick_country pick_genre df = Done df' → df' = df).
Proof.
  unfold sidebar_filters. split.
  - intros e.
    destruct (sidebar_filter "country" pick_country df) as [df1|e1] eqn:E1; simpl.
    + intros E2. apply sidebar_filter_cases in E2
        as [?|[(s & _ & _ & ?)|(s & o & _ & _ & _ & ?)]]; congruence.
    + intros [= <-]. apply sidebar_filter_cases in E1
        as [?|[(s & _ & _ & ?)|(s & o & _ & _ & _ & ?)]]; congruence.
  - intros Hc Hg df'.
    destruct (sidebar_filter "country" pick_country df) as [df1|e1] eqn:E1;
      simpl; [|done].
    apply sidebar_filter_cases in E1
      as [E1|[(s & _ & _ & ?)|(s & o & _ & _ & Hp & _)]];
      [|done|by rewrite Hc in Hp].
    injection E1 as ->. intros E2.
    apply sidebar_filter_cases in E2
      as [E2|[(s & _ & _ & ?)|(s & o & _ & _ & Hp & _)]];
      [|done|by rewrite Hg in Hp].
    by injection E2 as ->.
Qed.

(** X12. The genre box is filled from the frame the country filter has
    narrowed.  So after a country and a genre have been selected, every row
    left has that country and that genre, and at least one row is left. *)
Theorem both_filters_agree pick_country pick_genre df df1 sc oc sg og :
  assoc_get "country" (df_cols df) = Some sc →
  filter_options sc = Done oc →
  py_eq (pick_country oc) (Str "All") = false →
  sidebar_filter "country" pick_country df = Done df1 →
  assoc_get "genre_primary" (df_cols df1) = Some sg →
  filter_options sg = Done og →
  pick_genre og ∈ og →
  py_eq (pick_genre og) (Str "All") = false →
  ∃ df2 sc2 sg2,
    sidebar_filters pick_country pick_genre df = Done df2
    ∧ assoc_get "country" (df_cols df2) = Some sc2
    ∧ assoc_get "genre_primary" (df_cols df2) = Some sg2
    ∧ Forall (λ c, py_eq c (pick_country oc) = true) (s_values sc2)
    ∧ Forall (λ c, py_eq c (pick_genre og) = true) (s_values sg2)
    ∧ s_values sg2 ≠ [].
Proof.
  intros Hsc Hoc Hpc H1 Hsg Hog Hin Hpg.
  pose proof H1 as H1'.
  rewrite (sidebar_filter_narrows _ _ _ _ _ Hsc Hoc Hpc) in H1'.
  injection H1' as Hdf1.
  pose proof (sidebar_filter_narrows _ _ _ _ _ Hsg Hog Hpg) as H2.
  eexists _, _, _. unfold sidebar_filters. rewrite H1. simpl.
  split; [done|]. split.
  { rewrite assoc_get_df_mask, <- Hdf1, assoc_get_df_mask, Hsc. done. }
  split; [by rewrite assoc_get_df_mask, Hsg|].
  split; [|split].
  - simpl. apply Forall_forall.
    intros c Hc%mask_select_elem_of. rewrite mask_select_filter in Hc.
    by apply list_elem_of_filter in Hc as [Hc _].
  - simpl. rewrite mask_select_filter. apply Forall_forall.
    intros c Hc. by apply list_elem_of_filter in Hc as [Hc _].
  - simpl. rewrite mask_select_filter. by apply chosen_value_occurs.
Qed.

(** X15. [compute_kpis] never fails for want of a column: when it fails, the
    mean of the rating column or the sum of the watch_duration_min column
    has failed.  A count is NaN exactly when its column is absent. *)
Theorem compute_kpis_guards df :
  (∀ e, compute_kpis df = Fail e →
        (∃ s, assoc_get "rating" (df_cols df) = Some s ∧ series_mean s = Fail e)
        ∨ (∃ s, assoc_get "watch_duration_min" (df_cols df) = Some s
                ∧ series_sum s = Fail e))
  ∧ (∀ users titles rating minutes,
       compute_kpis df = Done (users, titles, rating, minutes) →
       (users = None ↔ "user_id" ∉ columns df)
       ∧ (titles = None ↔ "movie_id" ∉ columns df)
       ∧ ("rating" ∉ columns df → rating = NA)
       ∧ ("watch_duration_min" ∉ columns df → minutes = NA)).
Proof.
  unfold compute_kpis.
  assert (∀ key, key ∈ columns df →
                 ∃ s, assoc_get key (df_cols df) = Some s
                      ∧ getitem df key = Ok s) as Hget.
  { intros key Hin. destruct (assoc_get_is_Some _ _ Hin) as [s Hs].
    exists s. unfold getitem. by rewrite Hs. }
  destruct (decide ("user_id" ∈ columns df)) as [Hu|Hu];
    [destruct (Hget _ Hu) as (su & _ & ->)|];
  (destruct (decide ("movie_id" ∈ columns df)) as [Ht|Ht];
    [destruct (Hget _ Ht) as (st & _ & ->)|]);
  (destruct (decide ("rating" ∈ columns df)) as [Hr|Hr];
    [destruct (Hget _ Hr) as (sr & Hsr & ->)|]);
  (destruct (decide ("watch_duration_min" ∈ columns df)) as [Hw|Hw];
    [destruct (Hget _ Hw) as (sw & Hsw & ->)|]);
  simpl;
  try (destruct (series_mean sr) as [a|ea] eqn:Ea; simpl);
  try (destruct (series_sum sw) as [w|ew] eqn:Ew; simpl);
  (split;
   [ intros e He; try done; injection He as <-; eauto
   | intros users titles rating minutes He; try done;
     injection He as <- <- <- <-; repeat split; try done; tauto ]).
Qed.
End pages_claims.

(** ** The cards of src/hii/app.py *)

Section dashboard.
Context {num : Type} `{!Numeric num} `{!DatetimeParser} `{!Lower} `{!Reductions num}.
Implicit Types (d out : DataFrame num) (s : Series num) (vs : list (cell num))
  (v m : cell num).

Lemma count_cons v c vs :
  count v (c :: vs) = (if decide (c = v) then 1 else 0) + count v vs.
Proof. unfold count. rewrite filter_cons. by case_decide. Qed.

Lemma count_fill m v vs :
  is_na v = false →
  count v (fill m <$> vs)
  = count v vs + (if decide (v = m) then count NA vs else 0).
Proof.
  intros Hv. induction vs as [|c vs IH]; [by case_decide|].
  rewrite fmap_cons, !count_cons, IH. unfold fill.
  destruct c; simpl;
    repeat case_decide; subst; simpl in *; try done; try lia.
Qed.

Lemma non_missing_full vs :
  Forall (λ c, is_na c = false) vs → non_missing vs = vs.
Proof.
  unfold non_missing. induction 1 as [|c vs Hc _ IH]; [done|].
  rewrite filter_cons, decide_True by done. by rewrite IH.
Qed.

Lemma count_NA_zero vs : count NA vs = 0 → Forall (λ c, is_na c = false) vs.
Proof.
  induction vs as [|c vs IH]; [constructor|]. rewrite count_cons.
  case_decide as Hc; [done|]. simpl. intros Hz.
  constructor; [by destruct c|by apply IH].
Qed.

Lemma max_list_is (ns : list nat) n :
  n ∈ ns → (∀ k, k ∈ ns → k ≤ n) → max_list ns = n.
Proof.
  intros Hin Hle. apply Nat.le_antisymm.
  - apply Hle, max_list_elem_of. intros ->. by apply elem_of_nil in Hin.
  - by apply max_list_elem_of_le.
Qed.

(** filling the missing entries with the mode leaves the mode as it is *)
Lemma mode_fillna s m :
  first_label (mode s) = Ok m → first_label (mode (fillna s m)) = Ok m.
Proof.
  intros Hm. pose proof Hm as (Hin & Hna & Hmost)%first_label_mode.
  destruct (count NA (s_values s)) as [|k] eqn:Hk.
  { by rewrite fillna_full by by apply count_NA_zero. }
  unfold mode, fillna. simpl.
  set (vs' := fill m <$> s_values s).
  assert (Forall (λ c, is_na c = false) vs') as Hfull.
  { apply Forall_fmap, Forall_forall. intros c _. by apply fill_not_na. }
  rewrite (non_missing_full vs' Hfull).
  assert (m ∈ vs') as Hin'.
  { apply list_elem_of_fmap. exists m. split; [|done]. unfold fill. by rewrite Hna. }
  assert (count m vs' = count m (s_values s) + S k) as Hcm.
  { unfold vs'. rewrite (count_fill m m) by done. rewrite decide_True by done. lia. }
  assert (∀ v, v ∈ vs' → v ≠ m → count v vs' < count m vs') as Hlt.
  { intros v Hv Hne.
    assert (is_na v = false) as Hvna.
    { rewrite Forall_forall in Hfull. by apply Hfull. }
    unfold vs' in Hv. apply list_elem_of_fmap in Hv as (c & Hc & Hcin).
    assert (v ∈ s_values s) as Hvin.
    { unfold fill in Hc. destruct (is_na c); [done|]. by subst. }
    rewrite Hcm. unfold vs'. rewrite (count_fill m v) by done.
    rewrite decide_False by done.
    destruct (Hmost v Hvin Hvna) as [Hle _]. lia. }
  assert (max_count vs' = count m vs') as Hmax.
  { unfold max_count. apply max_list_is.
    - apply list_elem_of_fmap. by exists m.
    - intros n (v & -> & Hv)%list_elem_of_fmap.
      destruct (decide (v = m)) as [->|Hne]; [done|].
      specialize (Hlt v Hv Hne). lia. }
  assert (filter (λ v, count v vs' = max_count vs') (remove_dups vs') ≡ₚ [m])
    as Hperm.
  { apply NoDup_Permutation.
    - apply NoDup_filter, NoDup_remove_dups.
    - apply NoDup_singleton.
    - intros v. rewrite list_elem_of_filter, elem_of_remove_dups, Hmax.
      rewrite list_elem_of_singleton. split.
      + intros [Hc Hv]. destruct (decide (v = m)) as [|Hne]; [done|].
        specialize (Hlt v Hv Hne). lia.
      + by intros ->. }
  assert (merge_sort cell_le
            (filter (λ v, count v vs' = max_count vs') (remove_dups vs'))
          ≡ₚ [m]) as Hs.
  { etrans; [apply merge_sort_Permutation|exact Hperm]. }
  apply Permutation_singleton_r in Hs. by rewrite Hs.
Qed.

Lemma hii_output_columns d out :
  valid d = true → hii.normalize d = Ok out →
  columns out = normalize_name <$> columns d
  ∧ length (df_index out) = length (first_occurrences (rows d)).
Proof.
  intros (Hnd & _ & Hshape)%valid_inv Hrun.
  rewrite hii_normalize_columnwise in Hrun by done. split.
  - rewrite (impute_text_columns _ _ Hrun). unfold impute_numeric.
    by rewrite columns_map_cols, columns_prepared.
  - rewrite (impute_text_index _ _ Hrun). unfold impute_numeric, map_cols.
    simpl. unfold duplicated, first_occurrences. rewrite rows_rename.
    apply length_mask_select. symmetry. by apply length_rows.
Qed.

(** X13. The cards of src/hii/app.py read the columns rating, duration and
    genre without checking for them: the page shows its cards only for a
    file that has all three, and fails with KeyError when rating is not
    there.  "Total Titles" is the number of distinct rows of the file. *)
Theorem hii_page_needs_columns d :
  valid d = true →
  (∀ total rating duration genre,
     hii_page d = Done (total, rating, duration, genre) →
     Forall (λ key, key ∈ normalize_name <$> columns d)
       ["rating"; "duration"; "genre"]
     ∧ total = length (first_occurrences (rows d)))
  ∧ ("rating" ∉ normalize_name <$> columns d →
     hii_page d = Fail (Cleaning KeyError)).
Proof.
  intros Hv. unfold hii_page.
  destruct (hii.normalize d) as [out|e] eqn:Hrun; simpl.
  2:{ split; [done|]. intros _. by rewrite (hii_normalize_raise d e Hv Hrun). }
  destruct (hii_output_columns d out Hv Hrun) as [Hcols Hlen].
  unfold dashboard_metrics, getitem. rewrite <- Hcols. split.
  - intros total rating duration genre.
    destruct (assoc_get "rating" (df_cols out)) as [sr|] eqn:Hr; [|done].
    simpl. destruct (series_mean sr) as [mr|]; [|done]. simpl.
    destruct (py_round 2 mr) as [r|]; [|done]. simpl.
    destruct (assoc_get "duration" (df_cols out)) as [sd|] eqn:Hd; [|done].
    simpl. destruct (series_mean sd) as [md|]; [|done]. simpl.
    destruct (py_round 1 md) as [du|]; [|done]. simpl.
    destruct (assoc_get "genre" (df_cols out)) as [sg|] eqn:Hg; [|done].
    simpl. destruct (first_label (mode sg)) as [g|]; [|done]. simpl.
    intros [= <- _ _ _]. split; [|done].
    assert (∀ key s, assoc_get key (df_cols out) = Some s → key ∈ columns out)
      as Hkey.
    { intros key s Hs. apply list_elem_of_fmap. exists (key, s).
      split; [done|]. by apply assoc_get_elem_of. }
    repeat apply Forall_cons_2; [by eapply Hkey..|apply Forall_nil_2].
  - intros Hn. by rewrite (assoc_get_None "rating" (df_cols out) Hn).
Qed.

(** X14. When the genre column is a text column, the "Most Common Genre"
    card shows the mode of that column as it was before the imputation: the
    value that the cleaner has put in place of the missing genres. *)
Theorem most_common_genre_is_the_imputed_value d total rating duration genre s :
  valid d = true →
  hii_page d = Done (total, rating, duration, genre) →
  assoc_get "genre" (df_cols (prepared d)) = Some s →
  s_dtype s = Object →
  first_label (mode s) = Ok genre
  ∧ genre ∈ s_values s ∧ genre ≠ NA
  ∧ ∃ s', (out ← hii.normalize d; getitem out "genre") = Ok s'
          ∧ s_values s' = fill genre <$> s_values s.
Proof.
  intros Hv Hpage Hs Ht. pose proof Hv as (Hnd & _ & _)%valid_inv.
  unfold hii_page in Hpage.
  destruct (hii.normalize d) as [out|] eqn:Hrun; [|done]. simpl in Hpage.
  rewrite hii_normalize_columnwise in Hrun by done.
  unfold dashboard_metrics, getitem in Hpage.
  destruct (assoc_get "rating" (df_cols out)) as [sr|]; [|done].
  simpl in Hpage. destruct (series_mean sr) as [mr|]; [|done]. simpl in Hpage.
  destruct (py_round 2 mr) as [r|]; [|done]. simpl in Hpage.
  destruct (assoc_get "duration" (df_cols out)) as [sd|]; [|done].
  simpl in Hpage. destruct (series_mean sd) as [md|]; [|done]. simpl in Hpage.
  destruct (py_round 1 md) as [du|]; [|done]. simpl in Hpage.
  destruct (assoc_get "genre" (df_cols out)) as [sg|] eqn:Hg; [|done].
  simpl in Hpage. destruct (first_label (mode sg)) as [g|] eqn:Hmg; [|done].
  simpl in Hpage. injection Hpage as _ _ _ ->.
  destruct (impute_text_get _ _ _ _ Hrun Hg) as (sy & Hsy & Hm).
  unfold impute_numeric in Hsy. rewrite assoc_get_map_cols, Hs in Hsy.
  injection Hsy as <-.
  unfold impute_median in Hm. rewrite Ht in Hm. simpl in Hm.
  unfold impute_mode, fill_mode in Hm. rewrite Ht in Hm. simpl in Hm.
  destruct (first_label (mode s)) as [m|] eqn:Hmode; [|done].
  injection Hm as <-.
  rewrite (mode_fillna s m Hmode) in Hmg. injection Hmg as <-.
  pose proof Hmode as (Hin & Hna & _)%first_label_mode.
  split; [done|]. split; [done|]. split; [by destruct m|].
  exists (fillna s m). split; [|done]. simpl. unfold getitem. by rewrite Hg.
Qed.
End dashboard.

(** ** The added properties on the sample frames *)

Lemma clean_data_returns_new_frame_witness :
  ∃ l' h', byyy.clean_data 0 [viewing] = (Ok l', h')
           ∧ 1 ≤ l' ∧ is_Some (h' !! l').
Proof.
  apply (clean_data_returns_new_frame [viewing] 0 viewing).
  - reflexivity.
  - vm_compute. reflexivity.
Defined.

Lemma rows_are_only_removed_witness :
  df_index viewing_cleaned `sublist_of` df_index (drop_duplicates viewing)
  ∧ df_index (drop_duplicates viewing) `sublist_of` df_index viewing
  ∧ (hii.normalize viewing = Ok viewing_cleaned →
     df_index viewing_cleaned = df_index (drop_duplicates viewing)).
Proof.
  apply (rows_are_only_removed viewing viewing_cleaned).
  left. vm_compute. reflexivity.
Defined.

Lemma hii_raises_iff_empty_text_column_witness :
  (hii.normalize header_only = Raise KeyError ↔
   ∃ c s, (c, s) ∈ df_cols header_only ∧ s_dtype s = Object
          ∧ Forall (λ v, is_na v = true) (s_values s))
  ∧ (∀ e, hii.normalize header_only = Raise e → e = KeyError).
Proof.
  apply (hii_raises_iff_empty_text_column header_only).
  vm_compute. reflexivity.
Defined.

Lemma identifiers_present_witness :
  NA ∉ s_values (int64 [1; 2; 3; 4]%Z).
Proof.
  apply (identifiers_present viewing viewing_cleaned "user_id").
  - vm_compute. reflexivity.
  - vm_compute. reflexivity.
  - in_list.
  - reflexivity.
Defined.

Lemma dtypes_kept_witness :
  ∃ s, assoc_get "rating" (df_cols (rename viewing)) = Some s
       ∧ (s_dtype (float64 [Num 5; Num 3; Num 3; Num 1]%Z) = s_dtype s
          ∨ (byyy.normalize viewing = Ok viewing_cleaned
             ∧ date_column (rename viewing) = Some "rating"
             ∧ s_dtype (float64 [Num 5; Num 3; Num 3; Num 1]%Z) = Datetime64)).
Proof.
  apply (dtypes_kept viewing viewing_cleaned "rating").
  - vm_compute. reflexivity.
  - left. vm_compute. reflexivity.
  - reflexivity.
Defined.

Lemma normalize_name_shape_witness :
  normalize_name (normalize_name " Movie ID ") = normalize_name " Movie ID "
  ∧ strip (normalize_name " Movie ID ") = normalize_name " Movie ID "
  ∧ all_chars not_space (normalize_name " Movie ID ") = true
  ∧ all_chars not_capital (normalize_name " Movie ID ") = true.
Proof.
  destruct (normalize_name_shape " Movie ID ") as (H1 & H2 & H3 & H4).
  split; [exact H1|]. split; [exact H2|]. split; [exact H3|].
  apply H4. vm_compute. reflexivity.
Defined.

Lemma drop_duplicates_keeps_values_witness :
  ∃ s', assoc_get "Rating" (df_cols (drop_duplicates viewing)) = Some s'
        ∧ (∀ v, v ∈ s_values s'
                ↔ v ∈ s_values (float64 [Num 5; Num 3; Num 3; NA; Num 1]%Z))
        ∧ nunique s' = nunique (float64 [Num 5; Num 3; Num 3; NA; Num 1]%Z).
Proof.
  apply (drop_duplicates_keeps_values viewing "Rating").
  - vm_compute. reflexivity.
  - reflexivity.
Defined.

Lemma filter_options_offered_witness :
  ∃ l, [Str "All"; Str "IN"; Str "US"] = Str "All" :: l ∧ NoDup l
       ∧ ∀ v : cell Z, v ∈ l ↔ v ∈ s_values countries ∧ v ≠ NA.
Proof.
  apply (filter_options_offered countries).
  - reflexivity.
  - reflexivity.
Defined.

Lemma text_options_sorted_witness :
  ∃ l, filter_options countries = Done (Str "All" :: l)
       ∧ StronglySorted cell_le l ∧ NoDup l ∧ Forall text_cell l.
Proof. apply (text_options_sorted countries). reflexivity. Defined.

Lemma filter_by_choice_witness :
  ∃ df' s', sidebar_filter "country" second_option audience = Done df'
    ∧ columns df' = columns audience
    ∧ df_index df' `sublist_of` df_index audience
    ∧ assoc_get "country" (df_cols df') = Some s'
    ∧ s_values s'
      = filter (λ c, py_eq c (Str "IN") = true) (s_values countries)
    ∧ s_values s' ≠ [].
Proof.
  apply (filter_by_choice "country" second_option audience countries
           [Str "All"; Str "IN"; Str "US"]).
  - reflexivity.
  - reflexivity.
  - in_list.
  - reflexivity.
Defined.

Lemma sidebar_filters_edges_witness :
  ∃ df', sidebar_filters all_option all_option audience = Done df'
         ∧ df' = audience.
Proof.
  exists audience. split; [reflexivity|].
  apply (sidebar_filters_edges all_option all_option audience).
  - intros o. reflexivity.
  - intros o. reflexivity.
  - reflexivity.
Defined.

Lemma both_filters_agree_witness :
  ∃ df2 sc2 sg2,
    sidebar_filters second_option second_option audience = Done df2
    ∧ assoc_get "country" (df_cols df2) = Some sc2
    ∧ assoc_get "genre_primary" (df_cols df2) = Some sg2
    ∧ Forall (λ c, py_eq c (Str "IN") = true) (s_values sc2)
    ∧ Forall (λ c, py_eq c (Str "Comedy") = true) (s_values sg2)
    ∧ s_values sg2 ≠ [].
Proof.
  apply (both_filters_agree second_option second_option audience audience_in
           countries [Str "All"; Str "IN"; Str "US"]
           (object [Str "Comedy"; Str "Drama"])
           [Str "All"; Str "Comedy"; Str "Drama"]).
  - reflexivity.
  - reflexivity.
  - reflexivity.
  - vm_compute. reflexivity.
  - reflexivity.
  - reflexivity.
  - in_list.
  - reflexivity.
Defined.

Lemma compute_kpis_guards_witness :
  ((None : option nat) = None ↔ "user_id" ∉ columns ratings_cleaned)
  ∧ ((None : option nat) = None ↔ "movie_id" ∉ columns ratings_cleaned)
  ∧ ("rating" ∉ columns ratings_cleaned → Num 3%Z = NA)
  ∧ ("watch_duration_min" ∉ columns ratings_cleaned → (NA : cell Z) = NA).
Proof.
  apply (compute_kpis_guards ratings_cleaned). reflexivity.
Defined.

Lemma hii_page_needs_columns_witness :
  Forall (λ key, key ∈ normalize_name <$> columns catalog)
    ["rating"; "duration"; "genre"]
  ∧ 4 = length (first_occurrences (rows catalog)).
Proof.
  apply (hii_page_needs_columns catalog) with
    (rating := Num 4%Z) (duration := Num 100%Z) (genre := Str "Drama").
  - vm_compute. reflexivity.
  - vm_compute. reflexivity.
Defined.

Lemma most_common_genre_is_the_imputed_value_witness :
  first_label (mode (object [Str "Drama"; Str "Comedy"; NA; Str "Drama"]))
  = Ok (Str "Drama")
  ∧ Str "Drama" ∈ s_values (object [Str "Drama"; Str "Comedy"; NA; Str "Drama"])
  ∧ (Str "Drama" : cell Z) ≠ NA
  ∧ ∃ s', (out ← hii.normalize catalog; getitem out "genre") = Ok s'
          ∧ s_values s'
            = fill (Str "Drama")
                <$> s_values (object [Str "Drama"; Str "Comedy"; NA; Str "Drama"]).
Proof.
  apply (most_common_genre_is_the_imputed_value catalog 4 (Num 4%Z) (Num 100%Z)).
  - vm_compute. reflexivity.
  - vm_compute. reflexivity.
  - vm_compute. reflexivity.
  - reflexivity.
Defined.
